(** * Locker competition: the eligibility and allocation engine of [main.py]

    A shallow embedding of [src/main.py] and the properties of its
    validation, deduplication, pairing and carry-over logic.

    Conventions of the embedding.
    - A Python [str] is the list of its Unicode code points ([list N]).
    - A [set] of strings is a [gset]; a [dict] that is only looked up is a
      [gmap]; a [dict] that is iterated ([by_person],
      [applicants_by_partner]) is an association list in insertion order.
    - [Submission] objects are mutable only in their [error] slot.  The
      objects handed to [process_term] are distinct; an object is referred
      to by its address (its position in [apps + pars]) paired with its
      immutable fields, and the [error] slots live in a heap indexed by
      address.  Every assignment [sub.error = v] is also recorded, in
      program order, in a write log.
    - Exceptions are [None] in an [option]. *)

From Stdlib Require Import ZArith NArith Lia.
From stdpp Require Import base tactics option list numbers strings gmap sets sorting.

Local Open Scope Z_scope.
Set Warnings "-register-all,-clear-no-such-hyp".

(** ** Python strings *)

Abbreviation str := (list N).

(** Code points with the Unicode decimal-digit property, by the code point
    of the zero of each run of ten (the table of CPython 3.11, Unicode 14.0;
    [Py_UNICODE_TODECIMAL]). *)
Definition decimal_zeros : list N :=
  [48; 1632; 1776; 1984; 2406; 2534; 2662; 2790; 2918; 3046; 3174; 3302;
   3430; 3558; 3664; 3792; 3872; 4160; 4240; 6112; 6160; 6470; 6608; 6784;
   6800; 6992; 7088; 7232; 7248; 42528; 43216; 43264; 43472; 43504; 43600;
   44016; 65296; 66720; 68912; 69734; 69872; 69942; 70096; 70384; 70736;
   70864; 71248; 71360; 71472; 71904; 72016; 72784; 73040; 73120; 92768;
   92864; 93008; 120782; 120792; 120802; 120812; 120822; 123200; 123632;
   125264; 130032]%N.

(** [Py_UNICODE_TODECIMAL]: the digit value of a decimal digit. *)
Definition to_decimal (c : N) : option Z :=
  (λ z, Z.of_N (c - z)) <$>
    head (filter (λ z, (z ≤ c)%N ∧ (c < z + 10)%N) decimal_zeros).

(** [Py_UNICODE_ISDECIMAL], which is what [\d] tests on a [str] pattern. *)
Definition is_decimal (c : N) : bool := bool_decide (is_Some (to_decimal c)).

(** [Py_UNICODE_ISSPACE], the characters removed by [str.strip()]. *)
Definition is_space (c : N) : bool :=
  bool_decide (c ∈ [9; 10; 11; 12; 13; 28; 29; 30; 31; 32; 133; 160; 5760;
                    8192; 8193; 8194; 8195; 8196; 8197; 8198; 8199; 8200;
                    8201; 8202; 8232; 8233; 8239; 8287; 12288]%N).

Fixpoint lstrip (s : str) : str :=
  match s with
  | c :: s' => if is_space c then lstrip s' else s
  | [] => []
  end.

(** [s.strip()] *)
Definition strip (s : str) : str := reverse (lstrip (reverse (lstrip s))).

(** ** Regular expressions: the fragment used by [STUDENT_ID_RE] *)

Module Re.

(** One-character items. *)
Inductive atom :=
| Lit (c : N)            (* a literal character *)
| Digit                  (* \d *)
| Range (lo hi : N)      (* a-b inside a class *)
| Class (items : list atom).   (* [...] *)

Inductive regex :=
| Atom (a : atom)
| Seq (r1 r2 : regex)
| Alt (r1 r2 : regex)    (* r1|r2 *)
| Rep (n : nat) (r : regex)   (* r{n} *)
| Bol                    (* ^ *)
| Eol.                   (* $ *)

Fixpoint atom_matches (a : atom) (c : N) : bool :=
  match a with
  | Lit x => bool_decide (c = x)
  | Digit => is_decimal c
  | Range lo hi => bool_decide (lo ≤ c)%N && bool_decide (c ≤ hi)%N
  | Class items => existsb (λ i, atom_matches i c) items
  end.

(** A matcher state: how many characters were consumed, and what is left. *)
Definition mstate : Type := nat * str.

(** All the ways [r] can match at a state, in the order in which the
    backtracking matcher tries them.  Without [re.MULTILINE], [^] matches
    at position 0 only, and [$] at the end of the string or just before
    a line feed that ends the string. *)
Fixpoint step (r : regex) (st : mstate) : list mstate :=
  match r with
  | Atom a =>
      match st.2 with
      | c :: rest => if atom_matches a c then [(S st.1, rest)] else []
      | [] => []
      end
  | Seq r1 r2 => step r1 st ≫= step r2
  | Alt r1 r2 => step r1 st ++ step r2 st
  | Rep n r1 => Nat.iter n (λ sts, sts ≫= step r1) [st]
  | Bol => if bool_decide (st.1 = 0%nat) then [st] else []
  | Eol => if bool_decide (st.2 = [] ∨ st.2 = [10%N]) then [st] else []
  end.

(** [pattern.match(s)]: the first successful path from position 0. *)
Definition rmatch (r : regex) (s : str) : option mstate := head (step r (0%nat, s)).

End Re.

Import Re.

(** [STUDENT_ID_RE = re.compile(r"^(15\d{5}|[48][1-6]\d{5})$")] *)
Definition STUDENT_ID_RE : regex :=
  Seq Bol
    (Seq (Alt (Seq (Atom (Lit 49)) (Seq (Atom (Lit 53)) (Rep 5 (Atom Digit))))
              (Seq (Atom (Class [Lit 52; Lit 56]))
                   (Seq (Atom (Class [Range 49 54])) (Rep 5 (Atom Digit)))))
         Eol).

Definition is_valid_student_id (value : str) : bool :=
  bool_decide (is_Some (rmatch STUDENT_ID_RE value)).

(** ** [int(value)] on a [str] *)

(** The digits of a base-10 literal: decimal digits, in which single
    underscores may separate two digits.  [prev] tells whether the previous
    character was a digit. *)
Fixpoint digits_value (acc : Z) (prev : bool) (s : str) : option Z :=
  match s with
  | [] => if prev then Some acc else None
  | c :: s' =>
      if bool_decide (c = 95%N)
      then (if prev then digits_value acc false s' else None)
      else match to_decimal c with
           | Some d => digits_value (10 * acc + d) true s'
           | None => None
           end
  end.

(** [int(s)]: surrounding whitespace is skipped, then an optional sign and
    the digits; anything else raises [ValueError] ([None]).  The limit on
    the number of digits of CPython 3.11 and later
    ([sys.int_max_str_digits]) is not part of the model. *)
Definition py_int (s : str) : option Z :=
  match strip s with
  | 43%N :: r => digits_value 0 false r
  | 45%N :: r => Z.opp <$> digits_value 0 false r
  | r => digits_value 0 false r
  end.

(** [value.endswith(suffix)] *)
Definition endswith (value suffix : str) : bool :=
  bool_decide (suffix `suffix_of` value).

(** [value.replace(c, "")] for a one-character [c]: every occurrence goes. *)
Definition remove_char (c : N) (value : str) : str :=
  filter (λ x, x ≠ c) value.

(** ** Column names and sentinel strings *)

(** "タイムスタンプ" *)
Definition COL_TIMESTAMP : str := [12479; 12452; 12512; 12473; 12479; 12531; 12503]%N.
(** "規約への同意" *)
Definition COL_CONSENT : str := [35215; 32004; 12408; 12398; 21516; 24847]%N.
(** "申請者の学籍番号" *)
Definition COL_APP_ID : str := [30003; 35531; 32773; 12398; 23398; 31821; 30058; 21495]%N.
(** "申請者の氏名" *)
Definition COL_APP_NAME : str := [30003; 35531; 32773; 12398; 27663; 21517]%N.
(** "申請者の学生証写真" *)
Definition COL_APP_PHOTO : str :=
  [30003; 35531; 32773; 12398; 23398; 29983; 35388; 20889; 30495]%N.
(** "共同利用者の有無" *)
Definition COL_HAS_PARTNER : str :=
  [20849; 21516; 21033; 29992; 32773; 12398; 26377; 28961]%N.
(** "共同利用者の学籍番号" *)
Definition COL_PAR_ID : str :=
  [20849; 21516; 21033; 29992; 32773; 12398; 23398; 31821; 30058; 21495]%N.
(** "共同利用者の氏名" *)
Definition COL_PAR_NAME : str :=
  [20849; 21516; 21033; 29992; 32773; 12398; 27663; 21517]%N.
(** "共同利用者の学生証写真" *)
Definition COL_PAR_PHOTO : str :=
  [20849; 21516; 21033; 29992; 32773; 12398; 23398; 29983; 35388; 20889; 30495]%N.
(** "階数希望選択（共同利用者なし）" *)
Definition COL_FLOOR_SOLO : str :=
  [38542; 25968; 24076; 26395; 36984; 25246; 65288; 20849; 21516; 21033;
   29992; 32773; 12394; 12375; 65289]%N.
(** "階数希望選択（共同利用者あり）" *)
Definition COL_FLOOR_PAIR : str :=
  [38542; 25968; 24076; 26395; 36984; 25246; 65288; 20849; 21516; 21033;
   29992; 32773; 12354; 12426; 65289]%N.

(** "階", the unit written after a floor number *)
Definition KAI : N := 38542%N.
(** "利用規約に同意する" *)
Definition AGREE : str :=
  [21033; 29992; 35215; 32004; 12395; 21516; 24847; 12377; 12427]%N.
(** "accept" *)
Definition ACCEPT : str := [97; 99; 99; 101; 112; 116]%N.
(** "共同利用者あり" *)
Definition WITH_PARTNER : str := [20849; 21516; 21033; 29992; 32773; 12354; 12426]%N.
(** "共同利用者なし (2階・3階のロッカーは使用できません)" *)
Definition WITHOUT_PARTNER : str :=
  [20849; 21516; 21033; 29992; 32773; 12394; 12375; 32; 40; 50; 38542; 12539;
   51; 38542; 12398; 12525; 12483; 12459; 12540; 12399; 20351; 29992; 12391;
   12365; 12414; 12379; 12435; 41]%N.

(** ** [datetime] *)

(** A naive [datetime].  The format of [parse_timestamp] has no fraction of
    a second, so the microsecond is always 0 and is left out. *)
Record datetime := mkDatetime
  { year : Z; month : Z; day : Z; hour : Z; minute : Z; second : Z }.

Definition is_leap (y : Z) : bool :=
  bool_decide (y mod 4 = 0) && (bool_decide (y mod 100 ≠ 0) || bool_decide (y mod 400 = 0)).

Definition days_in_month (y m : Z) : Z :=
  if bool_decide (m = 2) then (if is_leap y then 29 else 28)
  else if bool_decide (m ∈ [4; 6; 9; 11]) then 30 else 31.

(** [datetime(y, m, d, hh, mm, ss)]: [ValueError] outside the ranges. *)
Definition new_datetime (y m d hh mm ss : Z) : option datetime :=
  if bool_decide (1 ≤ y ≤ 9999 ∧ 1 ≤ m ≤ 12 ∧ 1 ≤ d ≤ days_in_month y m ∧
                  0 ≤ hh ≤ 23 ∧ 0 ≤ mm ≤ 59 ∧ 0 ≤ ss ≤ 59)
  then Some (mkDatetime y m d hh mm ss) else None.

(** Comparison of tuples of integers, as Python compares tuples. *)
Fixpoint tuple_compare (a b : list Z) : comparison :=
  match a, b with
  | [], [] => Eq
  | [], _ :: _ => Lt
  | _ :: _, [] => Gt
  | x :: a', y :: b' =>
      match x ?= y with
      | Eq => tuple_compare a' b'
      | c => c
      end
  end.

Definition dt_fields (d : datetime) : list Z :=
  [year d; month d; day d; hour d; minute d; second d].

(** [datetime] comparison is the comparison of the field tuples. *)
Definition dt_compare (a b : datetime) : comparison :=
  tuple_compare (dt_fields a) (dt_fields b).

Definition dt_lt (a b : datetime) : bool :=
  bool_decide (dt_compare a b = Lt).

(** [_days_before_year], [_days_before_month], [_ymd2ord] of [datetime.py] *)
Definition days_before_year (y : Z) : Z :=
  let y' := y - 1 in y' * 365 + y' / 4 - y' / 100 + y' / 400.

Definition days_before_month (y m : Z) : Z :=
  nth (Z.to_nat m) [0; 0; 31; 59; 90; 120; 151; 181; 212; 243; 273; 304; 334] 0
  + (if bool_decide (2 < m) && is_leap y then 1 else 0).

Definition toordinal (d : datetime) : Z :=
  days_before_year (year d) + days_before_month (year d) (month d) + day d.

(** [(ts - start).total_seconds()].  The value is an integer of magnitude
    below 2^53, so the float that Python computes is exactly this number. *)
Definition total_seconds (ts start : datetime) : Z :=
  (toordinal ts - toordinal start) * 86400
  + ((second ts + minute ts * 60 + hour ts * 3600)
     - (second start + minute start * 60 + hour start * 3600)).

(** [int(delta.total_seconds() // (7 * 24 * 60 * 60))]; [//] rounds down. *)
Definition term_index (ts start : datetime) : Z :=
  total_seconds ts start / (7 * 24 * 60 * 60).

Definition term_start_from_timestamp (ts : datetime) : option datetime :=
  start ← new_datetime (year ts) 4 1 0 0 0;
  if dt_lt ts start then new_datetime (year ts - 1) 4 1 0 0 0 else Some start.

(** [min(all_ts)]: the first least element; [ValueError] on an empty list. *)
Definition py_min (l : list datetime) : option datetime :=
  match l with
  | [] => None
  | d :: l' => Some (foldl (λ m x, if dt_lt x m then x else m) d l')
  end.

(** [max(l)] on integers *)
Definition py_max (l : list Z) : option Z :=
  match l with
  | [] => None
  | x :: l' => Some (foldl (λ m y, if bool_decide (m < y) then y else m) x l')
  end.

(** ** Submissions *)

(** [role]: ["app"] or ["par"] *)
Inductive role_t := App | Par.

Inductive outcome := E1 | E2 | E3 | S0.

#[global] Instance role_eq_dec : EqDecision role_t.
Proof. solve_decision. Defined.
#[global] Instance outcome_eq_dec : EqDecision outcome.
Proof. solve_decision. Defined.

(** A CSV record: column name to cell. *)
Abbreviation Row := (gmap str str).

Record Submission := mkSubmission
  { role : role_t;
    row_index : Z;
    row : Row;
    timestamp : datetime;
    term : Z;
    person_id : str;
    person_name : str;
    photo : str;
    consent : str;
    partner_id : option str;
    partner_name : option str;
    has_partner : option str;
    floor : option Z;
    error : option outcome }.

(** The same object with another [error]. *)
Definition with_error (e : option outcome) (s : Submission) : Submission :=
  mkSubmission (role s) (row_index s) (row s) (timestamp s) (term s)
    (person_id s) (person_name s) (photo s) (consent s) (partner_id s)
    (partner_name s) (has_partner s) (floor s) e.

(** [row.get(key, "")] *)
Definition row_get (r : Row) (key : str) : str := default [] (r !! key).

Definition parse_floor (r : Row) : option Z :=
  let a := strip (row_get r COL_FLOOR_SOLO) in
  let b := strip (row_get r COL_FLOOR_PAIR) in
  if bool_decide (a ≠ [] ∧ b ≠ [] ∨ a = [] ∧ b = []) then None
  else
    let value := if bool_decide (a ≠ []) then a else b in
    let value := if endswith value [KAI] then remove_char KAI value else value in
    match py_int value with
    | None => None
    | Some fl => if bool_decide (fl < 2 ∨ fl > 6) then None else Some fl
    end.

(** Truth value of an optional string: [None] and [""] are false. *)
Definition truthy (o : option str) : bool :=
  match o with
  | Some (_ :: _) => true
  | _ => false
  end.

Definition apply_input_validation (sub : Submission) : option outcome :=
  if bool_decide (person_id sub = []) || bool_decide (person_name sub = []) then Some E1
  else if negb (is_valid_student_id (person_id sub)) then Some E1
  else if bool_decide (consent sub ≠ AGREE) then Some E1
  else if bool_decide (photo sub ≠ ACCEPT) then Some E1
  else
    match role sub with
    | App =>
        if bool_decide (has_partner sub ≠ Some WITH_PARTNER ∧
                        has_partner sub ≠ Some WITHOUT_PARTNER) then Some E1
        else if bool_decide (floor sub = None) then Some E1
        else if bool_decide (floor sub = Some 2 ∨ floor sub = Some 3)
                && bool_decide (has_partner sub ≠ Some WITH_PARTNER) then Some E1
        else if bool_decide (has_partner sub = Some WITH_PARTNER) then
          if negb (truthy (partner_id sub)) || negb (truthy (partner_name sub)) then Some E1
          else if negb (from_option is_valid_student_id false (partner_id sub)) then Some E1
          else None
        else
          if truthy (partner_id sub) || truthy (partner_name sub) then Some E1
          else None
    | Par => None
    end.

(** ** Sorting and grouping *)

(** The sort key [(s.timestamp, s.row_index)] and its order: tuples are
    compared on the first component in which they differ. *)
Definition sort_key (s : Submission) : datetime * Z := (timestamp s, row_index s).

Definition key_lt (k1 k2 : datetime * Z) : bool :=
  match dt_compare k1.1 k2.1 with
  | Lt => true
  | Eq => bool_decide (k1.2 < k2.2)
  | Gt => false
  end.

(** [sorted(items, key=...)] is a stable sort: an element goes in front of
    the first element of the sorted rest that is not smaller than it. *)
Fixpoint insert_by {A} (lt : A → A → bool) (x : A) (l : list A) : list A :=
  match l with
  | [] => [x]
  | y :: l' => if lt y x then y :: insert_by lt x l' else x :: l
  end.

Definition sorted_by {A} (lt : A → A → bool) (l : list A) : list A :=
  foldr (insert_by lt) [] l.

(** [d.setdefault(k, []).append(v)] on a dict kept in insertion order. *)
Fixpoint setdefault_append {K V} `{EqDecision K}
    (k : K) (v : V) (d : list (K * list V)) : list (K * list V) :=
  match d with
  | [] => [(k, [v])]
  | (k', vs) :: d' =>
      if decide (k = k') then (k', vs ++ [v]) :: d'
      else (k', vs) :: setdefault_append k v d'
  end.

Definition group_by {K V} `{EqDecision K} (key : V → K) (l : list V)
    : list (K * list V) :=
  foldl (λ d v, setdefault_append (key v) v d) [] l.

(** ** The heap of [error] slots *)

(** An object reference: the address and the immutable fields. *)
Abbreviation obj := (nat * Submission)%type.

Record heap := mkHeap
  { errs : list (option outcome);           (* the [error] slot of each object *)
    writes : list (nat * option outcome);   (* the assignments, oldest first *)
    ineligible : gset str }.                (* the shared [ineligible_ids] *)

(** [o.error] *)
Definition get_error (h : heap) (a : nat) : option outcome :=
  default None (errs h !! a).

(** [o.error = e] *)
Definition set_error (a : nat) (e : option outcome) (h : heap) : heap :=
  mkHeap (<[a := e]> (errs h)) (writes h ++ [(a, e)]) (ineligible h).

(** [o.error is None] *)
Definition is_clean (h : heap) (o : obj) : bool :=
  bool_decide (get_error h o.1 = None).

(** [for o in objs: body] *)
Definition for_each {A} (objs : list A) (body : A → heap → heap) (h : heap) : heap :=
  foldl (λ h o, body o h) h objs.

(** ** [choose_latest_by_person] *)

Definition obj_key_lt (a b : obj) : bool := key_lt (sort_key a.2) (sort_key b.2).

(** [items_sorted[-1]] is kept and [items_sorted[:-1]] is dropped.  Every
    list of [by_person] has an element, so the last one exists. *)
Definition choose_latest_by_person (subs : list obj) : list obj * list obj :=
  let by_person := group_by (λ o : obj, person_id o.2) subs in
  foldl (λ '(kept, dropped) '(_, items),
           let items_sorted := sorted_by obj_key_lt items in
           (kept ++ option_list (last items_sorted),
            dropped ++ take (length items_sorted - 1) items_sorted))
        ([], []) by_person.

(** ** [process_term] *)

(** An allocation row [(app_id, app_name, par_id, par_name, floor)]. *)
Definition alloc_row : Type := str * str * str * str * Z.

Definition row_app_id (r : alloc_row) : str := r.1.1.1.1.
Definition row_app_name (r : alloc_row) : str := r.1.1.1.2.
Definition row_par_id (r : alloc_row) : str := r.1.1.2.
Definition row_par_name (r : alloc_row) : str := r.1.2.
Definition row_floor (r : alloc_row) : Z := r.2.

(** [app.has_partner == "共同利用者あり"] *)
Definition wants_partner (s : Submission) : bool :=
  bool_decide (has_partner s = Some WITH_PARTNER).

(** [app.partner_id not in ids] *)
Definition partner_missing (s : Submission) (ids : gset str) : bool :=
  match partner_id s with
  | Some p => bool_decide (p ∉ ids)
  | None => true
  end.

(** [index.get(app.partner_id)]; [None] is not a key. *)
Definition lookup_partner (index : gmap str obj) (s : Submission) : option obj :=
  p ← partner_id s; index !! p.

(** [app.floor or 0] *)
Definition floor_or_0 (s : Submission) : Z := default 0 (floor s).

(** The state of the loop of lines 272-299: the heap,
    [paired_partner_ids] and [valid_rows]. *)
Definition pairing_state : Type := heap * gset str * list alloc_row.

Section process_term.
Context (apps pars : list Submission) (ineligible_ids : gset str).

(** The objects of [apps] and of [pars], at consecutive addresses. *)
Definition app_objs : list obj := imap (λ i s, (i, s)) apps.
Definition par_objs : list obj := imap (λ i s, (length apps + i, s)%nat) pars.
Definition all_objs : list obj := app_objs ++ par_objs.

Definition heap_init : heap :=
  mkHeap (error <$> (apps ++ pars)) [] ineligible_ids.

(** Lines 215-216: input validation of every submission. *)
Definition st_validated : heap :=
  for_each all_objs (λ o, set_error o.1 (apply_input_validation o.2)) heap_init.

(** Line 219 *)
Definition all_partner_ids : gset str :=
  list_to_set (person_id <$> filter (λ p, person_id p ≠ []) pars).

(** Lines 220-223: a partner form must exist. *)
Definition st_partner_form : heap :=
  let ids := all_partner_ids in
  for_each app_objs
    (λ o h, if is_clean h o && wants_partner o.2
            then (if partner_missing o.2 ids
                  then set_error o.1 (Some E1) h else h)
            else h)
    st_validated.

(** Lines 226-228: already allocated in an earlier term. *)
Definition st_ineligible : heap :=
  for_each all_objs
    (λ o h, if is_clean h o && bool_decide (person_id o.2 ∈ ineligible h)
            then set_error o.1 (Some E2) h else h)
    st_partner_form.

(** Line 231 *)
Definition candidates : list obj :=
  let h := st_ineligible in filter (λ o, is_clean h o) all_objs.

(** Lines 234-236: keep the latest submission of each person. *)
Definition kept : list obj := (choose_latest_by_person candidates).1.
Definition dropped : list obj := (choose_latest_by_person candidates).2.

Definition st_dedup : heap :=
  for_each dropped (λ o, set_error o.1 (Some E3)) st_ineligible.

(** Lines 238-240 *)
Definition candidates' : list obj :=
  let h := st_dedup in filter (λ o, is_clean h o) kept.
Definition app_candidates : list obj := filter (λ o : obj, role o.2 = App) candidates'.
Definition par_candidates : list obj := filter (λ o : obj, role o.2 = Par) candidates'.

(** Line 243: a later entry replaces an earlier one with the same key. *)
Definition partner_by_id : gmap str obj :=
  foldl (λ m (o : obj), <[person_id o.2 := o]> m) ∅ par_candidates.


(** Lines 247-250: the partner must be a surviving candidate. *)
Definition st_unmatched : heap :=
  let index := partner_by_id in
  for_each app_candidates
    (λ o h, if wants_partner o.2 && bool_decide (lookup_partner index o.2 = None)
            then set_error o.1 (Some E3) h else h)
    st_dedup.

(** Lines 253-258 *)
Definition applicants_by_partner : list (option str * list obj) :=
  let h := st_unmatched in
  group_by (λ o : obj, partner_id o.2)
    (filter (λ o, is_clean h o && wants_partner o.2) app_candidates).

(** Lines 260-267: the earliest applicant keeps the partner. *)
Definition st_conflicts : heap :=
  for_each applicants_by_partner
    (λ '(_, apps_for_partner) h,
       if bool_decide (length apps_for_partner ≤ 1)%nat then h
       else for_each (drop 1 (sorted_by obj_key_lt apps_for_partner))
              (λ s, set_error s.1 (Some E3)) h)
    st_unmatched.

(** Lines 272-299: one iteration of the loop over [app_candidates]. *)
Definition pairing_step (index : gmap str obj) (st : pairing_state) (a : obj)
    : pairing_state :=
  let '(h, paired, rows) := st in
  if negb (is_clean h a) then st
  else if wants_partner a.2 then
    match lookup_partner index a.2 with
    | None => (set_error a.1 (Some E3) h, paired, rows)
    | Some partner =>
        if negb (is_clean h partner) then (set_error a.1 (Some E3) h, paired, rows)
        else (h, paired ∪ {[person_id partner.2]},
              rows ++ [(person_id a.2, person_name a.2,
                        person_id partner.2, person_name partner.2, floor_or_0 a.2)])
    end
  else (h, paired, rows ++ [(person_id a.2, person_name a.2, [], [], floor_or_0 a.2)]).

Definition pairing : pairing_state :=
  foldl (pairing_step partner_by_id) (st_conflicts, ∅, []) app_candidates.

Definition st_paired : heap := pairing.1.1.
Definition paired_partner_ids : gset str := pairing.1.2.
Definition valid_rows : list alloc_row := pairing.2.

(** Lines 302-304: a partner nobody paired with. *)
Definition st_unpaired : heap :=
  let paired := paired_partner_ids in
  for_each par_candidates
    (λ o h, if is_clean h o && bool_decide (person_id o.2 ∉ paired)
            then set_error o.1 (Some E3) h else h)
    st_paired.

(** Lines 307-308 *)
Definition valid_app_ids : gset str := list_to_set (row_app_id <$> valid_rows).
Definition valid_par_ids : gset str :=
  list_to_set (row_par_id <$> filter (λ r, row_par_id r ≠ []) valid_rows).

(** Lines 309-318: [S0] for the members of a row, [E3] for what is left. *)
Definition classify (ids : gset str) (o : obj) (h : heap) : heap :=
  if is_clean h o && bool_decide (person_id o.2 ∈ ids) then set_error o.1 (Some S0) h
  else if is_clean h o then set_error o.1 (Some E3) h
  else h.

Definition st_apps_classified : heap := for_each app_objs (classify valid_app_ids) st_unpaired.
Definition st_final : heap := for_each par_objs (classify valid_par_ids) st_apps_classified.

(** The lists handed back: the same objects, read from the final heap. *)
Definition read_back (objs : list obj) : list Submission :=
  let h := st_final in (λ o : obj, with_error (get_error h o.1) o.2) <$> objs.

Definition process_term_result : list Submission * list Submission * list alloc_row :=
  (read_back app_objs, read_back par_objs, valid_rows).
End process_term.

(** [process_term(term, apps, pars, ineligible_ids)]; [term] is not used. *)
Definition process_term (term : Z) (apps pars : list Submission) (ineligible_ids : gset str)
    : list Submission * list Submission * list alloc_row :=
  process_term_result apps pars ineligible_ids.

(** ** [main] *)

(** Lines 391-394: the members of the rows become ineligible. *)
Definition add_winners (rows : list alloc_row) (ids : gset str) : gset str :=
  foldl (λ ids r,
           let ids := ids ∪ {[row_app_id r]} in
           if bool_decide (row_par_id r ≠ []) then ids ∪ {[row_par_id r]} else ids)
        ids rows.

(** What one iteration of the loop over the terms leaves behind. *)
Record term_result := mkTermResult
  { tr_term : Z;
    tr_before : gset str;            (* [ineligible_ids] when the term starts *)
    tr_returned : gset str;          (* [ineligible_ids] when [process_term] returns *)
    tr_apps : list Submission;       (* [processed_apps] *)
    tr_pars : list Submission;       (* [processed_pars] *)
    tr_rows : list alloc_row;        (* [valid_rows] *)
    tr_after : gset str }.           (* [ineligible_ids] when the iteration ends *)

(** Lines 383-394 for one [term]. *)
Definition run_term (apps pars : list Submission) (ids : gset str) (t : Z) : term_result :=
  let term_apps := filter (λ s, term s = t) apps in
  let term_pars := filter (λ s, term s = t) pars in
  let '(processed_apps, processed_pars, rows) := process_term t term_apps term_pars ids in
  let returned := ineligible (st_final term_apps term_pars ids) in
  mkTermResult t ids returned processed_apps processed_pars rows (add_winners rows returned).

(** [range(n)] *)
Definition py_range (n : Z) : list Z := Z.of_nat <$> seq 0 (Z.to_nat n).

(** Lines 377-394: the terms in increasing order, [ineligible_ids] carried
    from each one to the next. *)
Definition run_terms (apps pars : list Submission) (terms : list Z) : list term_result :=
  (foldl (λ '(ids, acc) t,
            let r := run_term apps pars ids t in (tr_after r, acc ++ [r]))
         (∅, []) terms).2.

Definition main_loop (apps pars : list Submission) : option (list term_result) :=
  max_term ← py_max (term <$> (apps ++ pars));
  Some (run_terms apps pars (py_range (max_term + 1))).

Section main.
(** [parse_timestamp], that is [datetime.strptime] with the format
    ["%Y-%m-%d %H:%M:%S"]; [None] is its [ValueError]. *)
Variable parse_timestamp : str → option datetime.

(** [parse_timestamp(row["タイムスタンプ"].strip())] *)
Definition row_timestamp (r : Row) : option datetime :=
  raw ← r !! COL_TIMESTAMP; parse_timestamp (strip raw).

Definition build_app (start : datetime) (i : nat) (r : Row) : option Submission :=
  ts ← row_timestamp r;
  Some (mkSubmission App (Z.of_nat i) r ts (term_index ts start)
          (strip (row_get r COL_APP_ID)) (strip (row_get r COL_APP_NAME))
          (strip (row_get r COL_APP_PHOTO)) (strip (row_get r COL_CONSENT))
          (Some (strip (row_get r COL_PAR_ID))) (Some (strip (row_get r COL_PAR_NAME)))
          (Some (strip (row_get r COL_HAS_PARTNER))) (parse_floor r) None).

Definition build_par (start : datetime) (i : nat) (r : Row) : option Submission :=
  ts ← row_timestamp r;
  Some (mkSubmission Par (Z.of_nat i) r ts (term_index ts start)
          (strip (row_get r COL_PAR_ID)) (strip (row_get r COL_PAR_NAME))
          (strip (row_get r COL_PAR_PHOTO)) (strip (row_get r COL_CONSENT))
          None None None None None).

Definition build_submissions (app_rows par_rows : list Row) (start : datetime)
    : option (list Submission * list Submission) :=
  apps ← mapM id (imap (build_app start) app_rows);
  pars ← mapM id (imap (build_par start) par_rows);
  Some (apps, pars).

(** Lines 369-375: the timestamps, the anchor and the submissions. *)
Definition main_build (app_rows par_rows : list Row)
    : option (datetime * list Submission * list Submission) :=
  all_ts ← mapM row_timestamp (app_rows ++ par_rows);
  earliest ← py_min all_ts;
  start ← term_start_from_timestamp earliest;
  '(apps, pars) ← build_submissions app_rows par_rows start;
  Some (start, apps, pars).

(** Lines 369-394, without the files. *)
Definition main (app_rows par_rows : list Row) : option (list term_result) :=
  '(_, apps, pars) ← main_build app_rows par_rows;
  main_loop apps pars.
End main.

(** A parser for the canonical spelling [YYYY-MM-DD HH:MM:SS] with ASCII
    digits, on which [strptime] gives the same [datetime]; used to run
    [main] on concrete records. *)
Definition ascii_number (s : str) : option Z :=
  foldl (λ acc c, n ← acc;
                   if bool_decide (48 ≤ c ∧ c ≤ 57)%N then Some (10 * n + (Z.of_N c - 48)) else None)
        (Some 0) s.

Definition strptime_canonical (s : str) : option datetime :=
  match s with
  | [y1; y2; y3; y4; a; m1; m2; b; d1; d2; c; H1; H2; e; M1; M2; f; S1; S2] =>
      if bool_decide ([a; b; c; e; f] = [45; 45; 32; 58; 58]%N) then
        y ← ascii_number [y1; y2; y3; y4];
        m ← ascii_number [m1; m2];
        d ← ascii_number [d1; d2];
        hh ← ascii_number [H1; H2];
        mm ← ascii_number [M1; M2];
        ss ← ascii_number [S1; S2];
        new_datetime y m d hh mm ss
      else None
  | _ => None
  end.

(** ** Vocabulary of the statements *)

(** An ASCII literal as a [str]. *)
Definition lit (x : string) : str :=
  Ascii.N_of_ascii <$> String.list_ascii_of_string x.

(** The two leading characters that [STUDENT_ID_RE] admits: ["15"], or
    ['4'] or ['8'] followed by one of ['1'] to ['6']. *)
Definition id_head_ok (c1 c2 : N) : Prop :=
  (c1 = 49 ∧ c2 = 53)%N ∨ ((c1 = 52 ∨ c1 = 56) ∧ 49 ≤ c2 ∧ c2 ≤ 54)%N.

(** Seven characters: an admitted head and five decimal digits. *)
Definition id_shape (s : str) : Prop :=
  ∃ c1 c2 d1 d2 d3 d4 d5, s = [c1; c2; d1; d2; d3; d4; d5] ∧ id_head_ok c1 c2 ∧
    Forall (λ d, is_decimal d = true) [d1; d2; d3; d4; d5].

(** The format as the specification words it: six digits, beginning with
    ["15"], or with one of ['4'], ['5'], ['6'], ['1'] followed by one of
    ['1'] to ['6']. *)
Definition six_digit_format (s : str) : Prop :=
  length s = 6%nat ∧ Forall (λ d, is_decimal d = true) s ∧
  ∃ c1 c2 rest, s = c1 :: c2 :: rest ∧
    ((c1 = 49 ∧ c2 = 53)%N ∨ (c1 ∈ [52; 53; 54; 49]%N ∧ 49 ≤ c2 ∧ c2 ≤ 54)%N).

(** The sort key as one flat tuple. *)
Definition key_fields (k : datetime * Z) : list Z := dt_fields k.1 ++ [k.2].

(** [x] may stand in front of [y] in a list sorted by [lt]. *)
Definition not_after {A} (lt : A → A → bool) (x y : A) : Prop := lt y x = false.

(** The values written to one address, oldest first. *)
Definition writes_to (a : nat) (log : list (nat * option outcome)) : list (option outcome) :=
  (filter (λ w, w.1 = a) log).*2.

(** A code, once assigned to an object, is never assigned over again. *)
Definition codes_final (log : list (nat * option outcome)) : Prop :=
  ∀ pre a c post, log = pre ++ (a, Some c) :: post → a ∉ post.*1.

(** The slots agree with the log, and codes are final. *)
Definition heap_wf (h : heap) : Prop :=
  (∀ a v, last (writes_to a (writes h)) = Some v → get_error h a = v) ∧
  codes_final (writes h).

(** A loop body that only looks at, and only assigns, the [error] of its
    own object: [f o cur] is the value assigned, if any, when the slot
    holds [cur].  [ids] is the content of [ineligible_ids]. *)
Definition own_update (ids : gset str)
    (f : obj → option outcome → option (option outcome))
    (body : obj → heap → heap) : Prop :=
  ∀ o h, ineligible h = ids →
    body o h = match f o (get_error h o.1) with
               | Some e => set_error o.1 e h
               | None => h
               end.

(** The row of an applicant that comes through the pairing loop. *)
Definition row_of (index : gmap str obj) (a : obj) : alloc_row :=
  match (if wants_partner a.2 then lookup_partner index a.2 else None) with
  | Some p => (person_id a.2, person_name a.2, person_id p.2, person_name p.2, floor_or_0 a.2)
  | None => (person_id a.2, person_name a.2, [], [], floor_or_0 a.2)
  end.

(** The partner id that such an applicant marks as paired. *)
Definition paired_id (index : gmap str obj) (a : obj) : option str :=
  if wants_partner a.2 then (λ p : obj, person_id p.2) <$> lookup_partner index a.2 else None.

(** What such a loop assigns to [o], given the heap before the loop. *)
Definition own_write (f : obj → option outcome → option (option outcome))
    (h : heap) (o : obj) : option (nat * option outcome) :=
  (λ e, (o.1, e)) <$> f o (get_error h o.1).

(** The kept and the dropped submissions of one group of [by_person]. *)
Definition latest_of (items : list obj) : list obj :=
  option_list (last (sorted_by obj_key_lt items)).
Definition earlier_of (items : list obj) : list obj :=
  take (length (sorted_by obj_key_lt items) - 1) (sorted_by obj_key_lt items).

(** What one loop of [process_term] does to the heap [h], giving [h']:
    the loop runs over [objs], assigns by [f], and assigns only to slots
    that hold [None]. *)
Record stage (ids : gset str) (n : nat)
    (f : obj → option outcome → option (option outcome))
    (objs : list obj) (h h' : heap) : Prop := mkStage
  { stage_ids : ineligible h' = ids;
    stage_len : length (errs h') = n;
    stage_wf : heap_wf h';
    stage_in : ∀ o, o ∈ objs →
      get_error h' o.1 = default (get_error h o.1) (f o (get_error h o.1));
    stage_out : ∀ a, a ∉ objs.*1 → get_error h' a = get_error h a;
    stage_log : writes h' = writes h ++ omap (own_write f h) objs;
    stage_guard : ∀ o e, o ∈ objs → f o (get_error h o.1) = Some e →
      get_error h o.1 = None ∧ e ≠ None }.

(** The heap between two loops. *)
Definition good (ids : gset str) (n : nat) (h : heap) : Prop :=
  ineligible h = ids ∧ length (errs h) = n ∧ heap_wf h.

(** What each loop of [process_term] assigns, as a function of the slot. *)
Definition f_partner_form (pids : gset str) (o : obj) (cur : option outcome)
    : option (option outcome) :=
  if bool_decide (cur = None) && wants_partner o.2 && partner_missing o.2 pids
  then Some (Some E1) else None.

Definition f_ineligible (ids : gset str) (o : obj) (cur : option outcome)
    : option (option outcome) :=
  if bool_decide (cur = None) && bool_decide (person_id o.2 ∈ ids)
  then Some (Some E2) else None.

Definition f_assign (c : outcome) (o : obj) (cur : option outcome)
    : option (option outcome) := Some (Some c).

Definition f_unmatched (index : gmap str obj) (o : obj) (cur : option outcome)
    : option (option outcome) :=
  if wants_partner o.2 && bool_decide (lookup_partner index o.2 = None)
  then Some (Some E3) else None.

Definition f_unpaired (paired : gset str) (o : obj) (cur : option outcome)
    : option (option outcome) :=
  if bool_decide (cur = None) && bool_decide (person_id o.2 ∉ paired)
  then Some (Some E3) else None.

Definition f_classify (members : gset str) (o : obj) (cur : option outcome)
    : option (option outcome) :=
  if bool_decide (cur = None)
  then Some (Some (if bool_decide (person_id o.2 ∈ members) then S0 else E3))
  else None.

(** The applicants that lose a conflict over a partner (lines 260-267). *)
Definition losers (groups : list (option str * list obj)) : list obj :=
  groups ≫= (λ g, if bool_decide (length g.2 ≤ 1)%nat then []
                   else drop 1 (sorted_by obj_key_lt g.2)).

(** The applicants that enter [applicants_by_partner] (lines 254-258). *)
Definition claimants (apps pars : list Submission) (ids : gset str) : list obj :=
  filter (λ o, is_clean (st_unmatched apps pars ids) o && wants_partner o.2)
         (app_candidates apps pars ids).

(** The claimants that name the same partner as [o]. *)
Definition rivals (apps pars : list Submission) (ids : gset str) (o : obj) : list obj :=
  filter (λ x : obj, partner_id x.2 = partner_id o.2) (claimants apps pars ids).

(** The applicants that reach the pairing loop clean. *)
Definition survivors (apps pars : list Submission) (ids : gset str) : list obj :=
  filter (λ o, is_clean (st_conflicts apps pars ids) o) (app_candidates apps pars ids).

#[global] Instance datetime_eq_dec : EqDecision datetime.
Proof. solve_decision. Defined.
#[global] Instance Submission_eq_dec : EqDecision Submission.
Proof. solve_decision. Defined.

(** The person ids of the rows of a term: every applicant id, and every
    partner id that is not empty. *)
Definition winners (rows : list alloc_row) : gset str :=
  list_to_set (row_app_id <$> rows) ∪
  list_to_set (filter (λ p, p ≠ []) (row_par_id <$> rows)).

(** [ineligible_ids] after the loop of [main] has run over [terms]. *)
Definition carried (apps pars : list Submission) (terms : list Z) : gset str :=
  (foldl (λ '(ids, acc) t,
            let r := run_term apps pars ids t in (tr_after r, acc ++ [r]))
         (∅, []) terms).1.

(** The verdict of the Validator on a submission of a term whose partner
    forms are [pars]: its own checks, and for an applicant the check that a
    form of the partner exists. *)
Definition validator_outcome (pars : list Submission) (is_applicant : bool)
    (s : Submission) : option outcome :=
  match apply_input_validation s with
  | Some c => Some c
  | None =>
      if is_applicant && wants_partner s && partner_missing s (all_partner_ids pars)
      then Some E1 else None
  end.

(** A floor preference as [parse_floor] gives it. *)
Definition floor_in_range (s : Submission) : Prop :=
  match floor s with
  | Some f => 2 ≤ f ≤ 6
  | None => True
  end.



(** ** A sample run *)

Module Sample.
(** One record of the applicant form and one of the partner form; the
    consent cell is the agreement in both. *)
Definition applicant (ts id name choice partner partner_name solo pair photo : str)
    : Row :=
  list_to_map [(COL_TIMESTAMP, ts); (COL_CONSENT, AGREE); (COL_APP_ID, id);
               (COL_APP_NAME, name); (COL_APP_PHOTO, photo);
               (COL_HAS_PARTNER, choice); (COL_PAR_ID, partner);
               (COL_PAR_NAME, partner_name); (COL_FLOOR_SOLO, solo);
               (COL_FLOOR_PAIR, pair)].

Definition partner (ts id name photo : str) : Row :=
  list_to_map [(COL_TIMESTAMP, ts); (COL_CONSENT, AGREE); (COL_PAR_ID, id);
               (COL_PAR_NAME, name); (COL_PAR_PHOTO, photo)].

(** Week 1: 4112345 applies alone for floor 4; 8212345 and, an hour
    later, 8312345 both name the partner 1500001 for floor 2.
    Week 2: 4112345 applies again, first with a rejected photo, then
    with an accepted one. *)
Definition app_rows : list Row :=
  [applicant (lit "2024-04-01 10:00:00") (lit "4112345") (lit "Taro")
     WITHOUT_PARTNER [] [] (lit "4" ++ [KAI]) [] ACCEPT;
   applicant (lit "2024-04-02 10:00:00") (lit "8212345") (lit "Aki")
     WITH_PARTNER (lit "1500001") (lit "Pat") [] (lit "2" ++ [KAI]) ACCEPT;
   applicant (lit "2024-04-02 11:00:00") (lit "8312345") (lit "Ben")
     WITH_PARTNER (lit "1500001") (lit "Pat") [] (lit "2" ++ [KAI]) ACCEPT;
   applicant (lit "2024-04-08 00:00:00") (lit "4112345") (lit "Taro")
     WITHOUT_PARTNER [] [] (lit "4" ++ [KAI]) [] (lit "reject");
   applicant (lit "2024-04-08 00:00:01") (lit "4112345") (lit "Taro")
     WITHOUT_PARTNER [] [] (lit "4" ++ [KAI]) [] ACCEPT].

Definition par_rows : list Row :=
  [partner (lit "2024-04-02 12:00:00") (lit "1500001") (lit "Pat") ACCEPT;
   partner (lit "2024-04-03 12:00:00") (lit "1500002") (lit "Quin") ACCEPT].

Definition all_ts : list datetime :=
  Eval vm_compute in
    default [] (mapM (row_timestamp strptime_canonical) (app_rows ++ par_rows)).

Definition earliest : datetime := mkDatetime 2024 4 1 10 0 0.

(** The submissions and the results of the run, evaluated. *)
Definition apps : list Submission :=
  Eval vm_compute in
    from_option (λ b, b.1.2) [] (main_build strptime_canonical app_rows par_rows).
Definition pars : list Submission :=
  Eval vm_compute in
    from_option (λ b, b.2) [] (main_build strptime_canonical app_rows par_rows).

Definition results : list term_result :=
  Eval vm_compute in default [] (main strptime_canonical app_rows par_rows).

Definition no_result : term_result := mkTermResult 0 ∅ ∅ [] [] [] ∅.
Definition week1 : term_result := nth 0 results no_result.
Definition week2 : term_result := nth 1 results no_result.

Definition blank : Submission :=
  mkSubmission App 0 ∅ earliest 0 [] [] [] [] None None None None None.

(** The two submissions of 4112345 in week 2, as handed back. *)
Definition resubmitted_bad : Submission := nth 0 (tr_apps week2) blank.
Definition resubmitted_good : Submission := nth 1 (tr_apps week2) blank.

(** The submissions of week 1, and the later of the two rival applicants. *)
Definition apps1 : list Submission := filter (λ s, term s = 0) apps.
Definition pars1 : list Submission := filter (λ s, term s = 0) pars.
Definition ben : obj := nth 2 (app_objs apps1) (0%nat, blank).

(** A record whose solo floor cell is "階4階". *)
Definition odd_floor : Row := {[ COL_FLOOR_SOLO := [KAI; 52%N; KAI] ]}.
End Sample.

#[global] Instance term_result_eq_dec : EqDecision term_result.
Proof. solve_decision. Defined.

Module SampleRows.
(** The row of the pair of week 1 in the sample run. *)
Definition no_row : alloc_row := ([], [], [], [], 0).
Definition pair_row : alloc_row := nth 1 (tr_rows Sample.week1) no_row.
End SampleRows.

(** ** Headers and floor cells *)

(** U+FEFF, the byte order mark *)
Definition BOM : N := 65279%N.

(** [s.lstrip(chars)] *)
Fixpoint lstrip_chars (chars : list N) (s : str) : str :=
  match s with
  | c :: s' => if bool_decide (c ∈ chars) then lstrip_chars chars s' else s
  | [] => []
  end.

Definition normalize_header (name : str) : str := lstrip_chars [BOM] name.

(** Lines 84-88 of [parse_floor]: the one floor cell that is filled in. *)
Definition floor_cell (r : Row) : option str :=
  let a := strip (row_get r COL_FLOOR_SOLO) in
  let b := strip (row_get r COL_FLOOR_PAIR) in
  if bool_decide (a ≠ [] ∧ b ≠ [] ∨ a = [] ∧ b = []) then None
  else Some (if bool_decide (a ≠ []) then a else b).

(** Lines 91-97 of [parse_floor]: [int(value)], kept from 2 to 6. *)
Definition floor_of (value : str) : option Z :=
  match py_int value with
  | None => None
  | Some fl => if bool_decide (fl < 2 ∨ fl > 6) then None else Some fl
  end.

(** A string that neither begins nor ends with whitespace. *)
Definition trimmed (s : str) : Prop :=
  (∀ c, head s = Some c → is_space c = false) ∧
  (∀ c, last s = Some c → is_space c = false).

(** Records for the checks of the floor cells. *)
Module SampleCells.
(** Both floor cells filled in. *)
Definition both_floors : Row := {[ COL_FLOOR_SOLO := lit "4"; COL_FLOOR_PAIR := lit "5" ]}.
(** The choice "５階" in full-width digits, in the cell for pairs. *)
Definition full_width : Row := {[ COL_FLOOR_PAIR := [65301%N; KAI] ]}.
End SampleCells.

(** A term in which 8412345 names the partner 1500003, whose form has a
    rejected photo. *)
Module SampleRejected.
Definition app_rows : list Row :=
  [Sample.applicant (lit "2024-04-01 10:00:00") (lit "8412345") (lit "Cho")
     WITH_PARTNER (lit "1500003") (lit "Rin") [] (lit "3" ++ [KAI]) ACCEPT].
Definition par_rows : list Row :=
  [Sample.partner (lit "2024-04-01 11:00:00") (lit "1500003") (lit "Rin") (lit "reject")].

Definition apps : list Submission :=
  Eval vm_compute in
    from_option (λ b, b.1.2) [] (main_build strptime_canonical app_rows par_rows).
Definition pars : list Submission :=
  Eval vm_compute in
    from_option (λ b, b.2) [] (main_build strptime_canonical app_rows par_rows).

Definition cho : Submission := nth 0 apps Sample.blank.
Definition cho_returned : Submission :=
  Eval vm_compute in nth 0 (process_term 0 apps pars ∅).1.1 Sample.blank.
End SampleRejected.

(** The person ids in rows, with repetitions: the applicant ids, then the
    partner ids that are not empty. *)
Definition members (rows : list alloc_row) : list str :=
  (row_app_id <$> rows) ++ filter (λ p, p ≠ []) (row_par_id <$> rows).

(** ** The files of a term *)

(** What is written to a file: the records handed to the [csv] writer, each
    a list of cells.  The text that the writer makes of a record is the
    library's matter. *)
Definition csv_records : Type := list (list str).

(** The order of [str]: by code point, a proper prefix first. *)
Fixpoint str_lt (a b : str) : bool :=
  match a, b with
  | _, [] => false
  | [], _ :: _ => true
  | x :: a', y :: b' =>
      if bool_decide (x < y)%N then true
      else if bool_decide (x = y) then str_lt a' b' else false
  end.

(** "メールアドレス" *)
Definition COL_EMAIL : str := [12513; 12540; 12523; 12450; 12489; 12524; 12473]%N.

Definition APP_COLUMNS : list str :=
  [COL_TIMESTAMP; COL_EMAIL; COL_CONSENT; COL_APP_ID; COL_APP_NAME; COL_APP_PHOTO;
   COL_HAS_PARTNER; COL_PAR_ID; COL_PAR_NAME; COL_FLOOR_SOLO; COL_FLOOR_PAIR].

Definition PAR_COLUMNS : list str :=
  [COL_TIMESTAMP; COL_EMAIL; COL_CONSENT; COL_PAR_ID; COL_PAR_NAME; COL_PAR_PHOTO].

(** "結果" *)
Definition RESULT : str := [32080; 26524]%N.

(** The codes as the strings that [error] holds. *)
Definition code_str (c : outcome) : str :=
  match c with
  | E1 => lit "E1"
  | E2 => lit "E2"
  | E3 => lit "E3"
  | S0 => lit "S0"
  end.

(** Lines 328-330: the record of one submission.  The dict of the record
    has the cells of [columns], a missing one empty, and then the code
    under "結果" ([sub.error or "E3"]); the writer takes the fields
    [columns + ["結果"]] from it. *)
Definition invalid_record (columns : list str) (sub : Submission) : list str :=
  let code := default (code_str E3) (code_str <$> error sub) in
  ((λ k, if bool_decide (k = RESULT) then code else row_get (row sub) k) <$> columns)
  ++ [code].

(** [write_invalid(path, columns, subs)]: the header, then the submissions
    in the order of [row_index]. *)
Definition write_invalid (columns : list str) (subs : list Submission) : csv_records :=
  (columns ++ [RESULT]) ::
  (invalid_record columns <$>
     sorted_by (λ a b, bool_decide (row_index a < row_index b)) subs).

(** A row without its floor: [(app_id, app_name, par_id, par_name)]. *)
Definition file_row : Type := str * str * str * str.

Definition cells (r : file_row) : list str := [r.1.1.1; r.1.1.2; r.1.2; r.2].

(** Lines 334-337: [by_floor], a dict with the keys 2 to 6 in this order.
    [by_floor[floor].append(r)] on a key that is there is what
    [setdefault_append] does; a row with another floor goes nowhere. *)
Definition by_floor (valid_rows : list alloc_row) : list (Z * list file_row) :=
  foldl (λ d (r : alloc_row),
           if bool_decide (row_floor r ∈ d.*1)
           then setdefault_append (row_floor r) r.1 d else d)
        ((λ i, (i, [])) <$> seqZ 2 5) valid_rows.

(** "申請者学籍番号", "申請者氏名", "共同利用者学籍番号", "共同利用者氏名" *)
Definition VALID_HEADER : list str :=
  [[30003; 35531; 32773; 23398; 31821; 30058; 21495];
   [30003; 35531; 32773; 27663; 21517];
   [20849; 21516; 21033; 29992; 32773; 23398; 31821; 30058; 21495];
   [20849; 21516; 21033; 29992; 32773; 27663; 21517]]%N.

(** [write_valid(term_dir, valid_rows)]: for each floor [f] the records of
    the file [valid_fF.csv], the rows of the floor sorted by applicant id
    under the header. *)
Definition write_valid (valid_rows : list alloc_row) : list (Z * csv_records) :=
  (λ '(floor, rows),
     (floor, VALID_HEADER ::
             (cells <$> sorted_by (λ a b : file_row, str_lt a.1.1.1 b.1.1.1) rows)))
  <$> by_floor valid_rows.

(** ** Dates *)

(** A [datetime] that the constructor accepts; [strptime] gives no other. *)
Definition valid_datetime (d : datetime) : Prop :=
  new_datetime (year d) (month d) (day d) (hour d) (minute d) (second d) = Some d.

(** The seconds since midnight. *)
Definition second_of_day (d : datetime) : Z := second d + minute d * 60 + hour d * 3600.

(** ** Incoming codes *)

(** An object with its [error] field emptied, and a list of submissions
    with theirs emptied. *)
Definition er (o : obj) : obj := (o.1, with_error None o.2).
Definition erased (l : list Submission) : list Submission := with_error None <$> l.

(** A term in which 8412345 names the partner 1500003, who hands in the
    partner form and, an hour later, an application of their own. *)
Module SampleCross.
Definition app_rows : list Row :=
  [Sample.applicant (lit "2024-04-01 10:00:00") (lit "8412345") (lit "Cho")
     WITH_PARTNER (lit "1500003") (lit "Rin") [] (lit "3" ++ [KAI]) ACCEPT;
   Sample.applicant (lit "2024-04-01 12:00:00") (lit "1500003") (lit "Rin")
     WITHOUT_PARTNER [] [] (lit "5" ++ [KAI]) [] ACCEPT].
Definition par_rows : list Row :=
  [Sample.partner (lit "2024-04-01 11:00:00") (lit "1500003") (lit "Rin") ACCEPT].

Definition apps : list Submission :=
  Eval vm_compute in
    from_option (λ b, b.1.2) [] (main_build strptime_canonical app_rows par_rows).
Definition pars : list Submission :=
  Eval vm_compute in
    from_option (λ b, b.2) [] (main_build strptime_canonical app_rows par_rows).

Definition cho : Submission := nth 0 apps Sample.blank.
Definition rin : Submission := nth 1 apps Sample.blank.
Definition cho_returned : Submission :=
  Eval vm_compute in nth 0 (process_term 0 apps pars ∅).1.1 Sample.blank.
End SampleCross.

(** A term with one pair: 8212345 names the partner 1500001, whose form
    has come in. *)
Module SamplePair.
Definition app_rows : list Row :=
  [Sample.applicant (lit "2024-04-02 10:00:00") (lit "8212345") (lit "Aki")
     WITH_PARTNER (lit "1500001") (lit "Pat") [] (lit "2" ++ [KAI]) ACCEPT].
Definition par_rows : list Row :=
  [Sample.partner (lit "2024-04-02 12:00:00") (lit "1500001") (lit "Pat") ACCEPT].

Definition apps : list Submission :=
  Eval vm_compute in
    from_option (λ b, b.1.2) [] (main_build strptime_canonical app_rows par_rows).
Definition pars : list Submission :=
  Eval vm_compute in
    from_option (λ b, b.2) [] (main_build strptime_canonical app_rows par_rows).

Definition aki : Submission := nth 0 apps Sample.blank.
Definition pat : Submission := nth 0 pars Sample.blank.
End SamplePair.

(** * Properties *)

(** ** The student-ID pattern *)

Module ReFacts.
Lemma elem_step_atom a st st' :
  st' ∈ step (Atom a) st ↔
  ∃ c, st.2 = c :: st'.2 ∧ atom_matches a c = true ∧ st'.1 = S st.1.
Proof.
  destruct st as [k s], st' as [k' s']; simpl. destruct s as [|c s].
  - split; [by intros ?%elem_of_nil | by intros (? & ? & _)].
  - destruct (atom_matches a c) eqn:Hm.
    + rewrite list_elem_of_singleton. split.
      * intros [= -> ->]. by exists c.
      * intros (c' & [= <- <-] & _ & ->). done.
    + split; [by intros ?%elem_of_nil|]. intros (c' & [= <- <-] & ? & _). congruence.
Qed.

Lemma elem_step_seq r1 r2 st st' :
  st' ∈ step (Seq r1 r2) st ↔ ∃ m, m ∈ step r1 st ∧ st' ∈ step r2 m.
Proof. simpl. rewrite list_elem_of_bind. naive_solver. Qed.

Lemma elem_step_alt r1 r2 st st' :
  st' ∈ step (Alt r1 r2) st ↔ st' ∈ step r1 st ∨ st' ∈ step r2 st.
Proof. simpl. apply elem_of_app. Qed.

Lemma elem_step_rep_0 r st st' : st' ∈ step (Rep 0 r) st ↔ st' = st.
Proof. simpl. apply list_elem_of_singleton. Qed.

Lemma elem_step_rep_S n r st st' :
  st' ∈ step (Rep (S n) r) st ↔ ∃ m, m ∈ step (Rep n r) st ∧ st' ∈ step r m.
Proof. simpl. rewrite list_elem_of_bind. naive_solver. Qed.

Lemma elem_step_bol st st' : st' ∈ step Bol st ↔ st' = st ∧ st.1 = 0%nat.
Proof.
  simpl. case_bool_decide; rewrite ?list_elem_of_singleton, ?elem_of_nil; naive_solver.
Qed.

Lemma elem_step_eol st st' :
  st' ∈ step Eol st ↔ st' = st ∧ (st.2 = [] ∨ st.2 = [10%N]).
Proof.
  simpl. case_bool_decide; rewrite ?list_elem_of_singleton, ?elem_of_nil; naive_solver.
Qed.

Lemma rmatch_is_Some r s : is_Some (rmatch r s) ↔ ∃ st', st' ∈ step r (0%nat, s).
Proof.
  unfold rmatch. destruct (step r (0%nat, s)) as [|x l]; simpl.
  - split; [by intros [? ?] | by intros [? ?%elem_of_nil]].
  - split; [exists x; left | by eexists].
Qed.

Lemma atom_class_48 c :
  atom_matches (Class [Lit 52; Lit 56]) c = true ↔ (c = 52 ∨ c = 56)%N.
Proof. simpl. repeat case_bool_decide; naive_solver. Qed.

Lemma atom_class_16 c :
  atom_matches (Class [Range 49 54]) c = true ↔ (49 ≤ c ∧ c ≤ 54)%N.
Proof. simpl. repeat case_bool_decide; simpl; split; (done || lia || naive_solver). Qed.

Lemma atom_lit x c : atom_matches (Lit x) c = true ↔ c = x.
Proof. simpl. by rewrite bool_decide_eq_true. Qed.

Lemma step_five_digits k d1 d2 d3 d4 d5 tl :
  Forall (λ d, is_decimal d = true) [d1; d2; d3; d4; d5] →
  step (Rep 5 (Atom Digit)) (k, d1 :: d2 :: d3 :: d4 :: d5 :: tl) = [(5 + k, tl)%nat].
Proof.
  intros H. repeat (apply Forall_cons in H as [? H]).
  cbn -[is_decimal].
  by repeat (cbn -[is_decimal]; rewrite ?H0, ?H1, ?H2, ?H3, ?H4).
Qed.
End ReFacts.

Ltac re_inv :=
  repeat match goal with
    | H : _ ∈ step (Seq _ _) _ |- _ => apply ReFacts.elem_step_seq in H as (? & ? & ?)
    | H : _ ∈ step (Alt _ _) _ |- _ => apply ReFacts.elem_step_alt in H as [?|?]
    | H : _ ∈ step (Rep (S _) _) _ |- _ => apply ReFacts.elem_step_rep_S in H as (? & ? & ?)
    | H : _ ∈ step (Rep 0 _) _ |- _ => apply ReFacts.elem_step_rep_0 in H
    | H : _ ∈ step Bol _ |- _ => apply ReFacts.elem_step_bol in H as [? ?]
    | H : _ ∈ step Eol _ |- _ => apply ReFacts.elem_step_eol in H as [? ?]
    | H : _ ∈ step (Atom _) _ |- _ => apply ReFacts.elem_step_atom in H as (? & ? & ? & ?)
    end.

Lemma is_valid_student_id_intro b tl :
  id_shape b → tl = [] ∨ tl = [10%N] → is_valid_student_id (b ++ tl) = true.
Proof.
  intros (c1 & c2 & d1 & d2 & d3 & d4 & d5 & -> & Hh & Hd) Htl.
  unfold is_valid_student_id. apply bool_decide_eq_true, ReFacts.rmatch_is_Some.
  exists (7%nat, tl). unfold STUDENT_ID_RE.
  apply ReFacts.elem_step_seq. exists (0%nat, [c1; c2; d1; d2; d3; d4; d5] ++ tl).
  split; [by apply ReFacts.elem_step_bol|].
  apply ReFacts.elem_step_seq. exists (7%nat, tl).
  split; [|by apply ReFacts.elem_step_eol].
  apply ReFacts.elem_step_alt.
  destruct Hh as [[-> ->]|[Hc1 Hc2]]; [left|right].
  - apply ReFacts.elem_step_seq. eexists (1%nat, _). split.
    { apply ReFacts.elem_step_atom. eexists. by split. }
    apply ReFacts.elem_step_seq. eexists (2%nat, _). split.
    { apply ReFacts.elem_step_atom. eexists. by split. }
    cbn [List.app]. rewrite ReFacts.step_five_digits by done. by left.
  - apply ReFacts.elem_step_seq. eexists (1%nat, _). split.
    { apply ReFacts.elem_step_atom. eexists. split; [done|].
      split; [|done]. by apply ReFacts.atom_class_48. }
    apply ReFacts.elem_step_seq. eexists (2%nat, _). split.
    { apply ReFacts.elem_step_atom. eexists. split; [done|].
      split; [|done]. by apply ReFacts.atom_class_16. }
    cbn [List.app]. rewrite ReFacts.step_five_digits by done. by left.
Qed.

Lemma is_valid_student_id_inv s :
  is_valid_student_id s = true →
  ∃ b tl, s = b ++ tl ∧ (tl = [] ∨ tl = [10%N]) ∧ id_shape b.
Proof.
  unfold is_valid_student_id. rewrite bool_decide_eq_true, ReFacts.rmatch_is_Some.
  intros [[k' s'] H]. unfold STUDENT_ID_RE in H. re_inv.
  all: repeat match goal with x : mstate |- _ => destruct x end;
    cbn [fst snd] in *; simplify_eq.
  - match goal with H : atom_matches (Lit 49) _ = true |- _ =>
      apply ReFacts.atom_lit in H as -> end.
    match goal with H : atom_matches (Lit 53) _ = true |- _ =>
      apply ReFacts.atom_lit in H as -> end.
    eexists [_;_;_;_;_;_;_], _. split; [done|]. split; [done|].
    do 7 eexists. split; [done|]. split; [by left|]. repeat constructor; done.
  - match goal with H : atom_matches (Class [Lit _; _]) _ = true |- _ =>
      apply ReFacts.atom_class_48 in H end.
    match goal with H : atom_matches (Class [Range _ _]) _ = true |- _ =>
      apply ReFacts.atom_class_16 in H end.
    eexists [_;_;_;_;_;_;_], _. split; [done|]. split; [done|].
    do 7 eexists. split; [done|]. split; [by right|]. repeat constructor; done.
Qed.

(** A valid id is not empty. *)
Lemma is_valid_student_id_nonempty s : is_valid_student_id s = true → s ≠ [].
Proof.
  intros (b & tl & -> & _ & (c1 & ? & ? & ? & ? & ? & ? & -> & _))%is_valid_student_id_inv.
  done.
Qed.

(** C1 (as the code has it): a string passes [is_valid_student_id] exactly
    when it is, possibly followed by one final line feed, a seven-character
    code: ["15"] and five decimal digits, or ['4'] or ['8'], one of ['1'] to
    ['6'], and five decimal digits. *)
Theorem student_id_format_iff (s : str) :
  is_valid_student_id s = true ↔ id_shape s ∨ ∃ b, s = b ++ [10%N] ∧ id_shape b.
Proof.
  split.
  - intros (b & tl & -> & [->| ->] & Hb)%is_valid_student_id_inv.
    + left. by rewrite app_nil_r.
    + right. by exists b.
  - intros [Hs|(b & -> & Hb)].
    + rewrite <- (app_nil_r s). apply is_valid_student_id_intro; auto.
    + apply is_valid_student_id_intro; auto.
Qed.

(** C1 as the specification words it fails in both directions: the
    six-digit code 151234 is rejected, and the seven-character code 8112345,
    which is not of the six-digit format, is accepted. *)
Lemma student_id_six_digits_refuted :
  (six_digit_format (lit "151234") ∧ is_valid_student_id (lit "151234") = false) ∧
  (is_valid_student_id (lit "8112345") = true ∧ ¬ six_digit_format (lit "8112345")).
Proof.
  split; split.
  - split; [done|]. split; [by repeat constructor|].
    eexists _, _, _. split; [done|]. by left.
  - by vm_compute.
  - by vm_compute.
  - intros [Hlen _]. by vm_compute in Hlen.
Qed.

(** ** Tuples, sorting and grouping *)

Lemma tuple_compare_eq a b : tuple_compare a b = Eq → a = b.
Proof.
  revert b; induction a as [|x a IH]; intros [|y b]; simpl; try done.
  destruct (x ?= y) eqn:E; try done.
  apply Z.compare_eq in E as ->. by intros ->%IH.
Qed.


Lemma tuple_compare_antisym a b : tuple_compare b a = CompOpp (tuple_compare a b).
Proof.
  revert b; induction a as [|x a IH]; intros [|y b]; simpl; try done.
  rewrite (Z.compare_antisym x y). destruct (x ?= y); simpl; auto.
Qed.

Lemma tuple_compare_lt_trans a b c :
  tuple_compare a b = Lt → tuple_compare b c = Lt → tuple_compare a c = Lt.
Proof.
  revert b c; induction a as [|x a IH]; intros [|y b] [|z c]; simpl; try done.
  destruct (x ?= y) eqn:E1; try done; destruct (y ?= z) eqn:E2; try done.
  - apply Z.compare_eq in E1 as ->, E2 as ->. rewrite Z.compare_refl. apply IH.
  - apply Z.compare_eq in E1 as ->. by rewrite E2.
  - apply Z.compare_eq in E2 as ->. by rewrite E1.
  - intros _ _. rewrite Z.compare_lt_iff in E1, E2.
    assert (x < z) as H by lia. apply Z.compare_lt_iff in H. by rewrite H.
Qed.

Lemma key_lt_flat k1 k2 :
  key_lt k1 k2 = bool_decide (tuple_compare (key_fields k1) (key_fields k2) = Lt).
Proof.
  destruct k1 as [[y1 m1 d1 H1 M1 S1] i1], k2 as [[y2 m2 d2 H2 M2 S2] i2].
  unfold key_lt, dt_compare, key_fields, dt_fields; simpl.
  repeat match goal with
         | |- context [?a ?= ?b] => destruct (a ?= b) eqn:?; simpl; try done
         end.
  all: repeat match goal with
              | H : (_ ?= _) = _ |- _ =>
                  first [ rewrite Z.compare_lt_iff in H | rewrite Z.compare_eq_iff in H
                        | rewrite Z.compare_gt_iff in H ]
              end.
  all: first [ apply bool_decide_eq_true_2; lia | apply bool_decide_eq_false_2; lia ].
Qed.

Lemma key_lt_asym k1 k2 : key_lt k1 k2 = true → key_lt k2 k1 = false.
Proof.
  rewrite !key_lt_flat, bool_decide_eq_true, bool_decide_eq_false.
  intros H. rewrite tuple_compare_antisym, H. done.
Qed.

Lemma key_lt_negtrans k1 k2 k3 :
  key_lt k1 k3 = true → key_lt k1 k2 = true ∨ key_lt k2 k3 = true.
Proof.
  rewrite !key_lt_flat, !bool_decide_eq_true. intros H13.
  destruct (tuple_compare (key_fields k1) (key_fields k2)) eqn:E; [|by left|].
  - apply tuple_compare_eq in E. right. by rewrite <- E.
  - right. eapply tuple_compare_lt_trans; [|done].
    rewrite tuple_compare_antisym, E. done.
Qed.


Lemma key_lt_earlier d1 d2 i j : dt_lt d1 d2 = true → key_lt (d1, i) (d2, j) = true.
Proof. unfold dt_lt, key_lt; simpl. by intros ->%bool_decide_eq_true. Qed.

Section sorting.
Context {A : Type} (lt : A → A → bool).
Hypothesis lt_asym : ∀ x y, lt x y = true → lt y x = false.
Hypothesis lt_negtrans : ∀ x y z, lt x z = true → lt x y = true ∨ lt y z = true.

Lemma insert_by_perm x l : insert_by lt x l ≡ₚ x :: l.
Proof.
  induction l as [|y l IH]; simpl; [done|].
  destruct (lt y x); [|done]. rewrite IH. apply Permutation_swap.
Qed.

Lemma sorted_by_perm l : sorted_by lt l ≡ₚ l.
Proof.
  induction l as [|x l IH]; simpl; [done|].
  rewrite insert_by_perm. by f_equiv.
Qed.

Lemma sorted_by_length l : length (sorted_by lt l) = length l.
Proof. by rewrite sorted_by_perm. Qed.

Lemma elem_of_sorted_by x l : x ∈ sorted_by lt l ↔ x ∈ l.
Proof. by rewrite sorted_by_perm. Qed.

Local Abbreviation not_after := (not_after lt).

Lemma insert_by_sorted x l :
  StronglySorted not_after l → StronglySorted not_after (insert_by lt x l).
Proof.
  induction l as [|y l IH]; simpl; intros Hs.
  - repeat constructor.
  - apply StronglySorted_inv in Hs as [Hs Hy].
    destruct (lt y x) eqn:E.
    + constructor; [by apply IH|].
      rewrite insert_by_perm. constructor; [|done].
      by apply lt_asym.
    + constructor; [by constructor|].
      constructor; [done|].
      apply Forall_forall. intros z Hz. rewrite Forall_forall in Hy.
      specialize (Hy z Hz). unfold not_after in *.
      destruct (lt z x) eqn:E'; [|done].
      destruct (lt_negtrans _ y _ E'); congruence.
Qed.

Lemma sorted_by_sorted l : StronglySorted not_after (sorted_by lt l).
Proof.
  induction l as [|x l IH]; simpl; [constructor|]. by apply insert_by_sorted.
Qed.

Lemma lt_irrefl x : lt x x = false.
Proof. destruct (lt x x) eqn:E; [|done]. by rewrite (lt_asym _ _ E) in E. Qed.

(** The head of the sorted list is a least element. *)
Lemma sorted_by_head_least l m x :
  head (sorted_by lt l) = Some m → x ∈ l → lt x m = false.
Proof.
  intros Hh Hx. apply elem_of_sorted_by in Hx.
  pose proof (sorted_by_sorted l) as Hs.
  destruct (sorted_by lt l) as [|m' l']; simplify_eq/=.
  apply StronglySorted_inv in Hs as [_ Hm].
  apply elem_of_cons in Hx as [->|Hx]; [apply lt_irrefl|].
  rewrite Forall_forall in Hm. by apply Hm.
Qed.

Lemma StronglySorted_snoc_inv (R : A → A → Prop) l x :
  StronglySorted R (l ++ [x]) → Forall (λ y, R y x) l.
Proof.
  induction l as [|y l IH]; simpl; intros Hs; [constructor|].
  apply StronglySorted_inv in Hs as [Hs Hy].
  constructor; [|by apply IH].
  rewrite Forall_forall in Hy. apply Hy. set_solver.
Qed.

(** The last element of the sorted list is a greatest element. *)
Lemma sorted_by_last_greatest l m x :
  last (sorted_by lt l) = Some m → x ∈ l → lt m x = false.
Proof.
  intros Hl Hx. apply elem_of_sorted_by in Hx.
  pose proof (sorted_by_sorted l) as Hs.
  apply last_Some in Hl as [l' Hl]. rewrite Hl in Hs, Hx.
  apply StronglySorted_snoc_inv in Hs.
  apply elem_of_app in Hx as [Hx|Hx%list_elem_of_singleton].
  - rewrite Forall_forall in Hs. by apply Hs.
  - subst. apply lt_irrefl.
Qed.

Lemma sorted_by_nil_inv l : sorted_by lt l = [] → l = [].
Proof. intros H. apply Permutation_nil_r. by rewrite <- H, sorted_by_perm. Qed.

(** [s[:-1]] and [s[-1]] put together give [s] back. *)
Lemma init_last (l : list A) : take (length l - 1) l ++ option_list (last l) = l.
Proof.
  destruct l as [|x l] using rev_ind; [done|].
  rewrite last_snoc, length_app; simpl.
  replace (length l + 1 - 1)%nat with (length l) by lia.
  by rewrite take_app_length.
Qed.
End sorting.

Section grouping.
Context {K V : Type} `{EqDecision K} (key : V → K).

Lemma setdefault_append_keys k v (d : list (K * list V)) :
  (setdefault_append k v d).*1 = if decide (k ∈ d.*1) then d.*1 else d.*1 ++ [k].
Proof.
  induction d as [|[k' vs] d IH].
  - cbn. case_decide as H; [by apply elem_of_nil in H|done].
  - cbn [setdefault_append]. destruct (decide (k = k')) as [->|Hne].
    + rewrite decide_True; [done|]. rewrite fmap_cons. by left.
    + rewrite !fmap_cons, IH. cbn [fst].
      destruct (decide (k ∈ d.*1)) as [Hin|Hnin].
      * rewrite decide_True; [done|]. by right.
      * rewrite decide_False; [done|]. rewrite not_elem_of_cons. done.
Qed.

Lemma setdefault_append_NoDup k v (d : list (K * list V)) :
  NoDup d.*1 → NoDup (setdefault_append k v d).*1.
Proof.
  intros Hd. rewrite setdefault_append_keys. case_decide; [done|].
  apply NoDup_app. split_and!; [done| |apply NoDup_singleton].
  intros x Hx ->%list_elem_of_singleton. done.
Qed.

Lemma elem_of_fst_2 (d : list (K * list V)) k vs : (k, vs) ∈ d → k ∈ d.*1.
Proof. intros H. apply list_elem_of_fmap. by exists (k, vs). Qed.

Lemma elem_of_setdefault_append k v (d : list (K * list V)) k' vs' :
  NoDup d.*1 →
  (k', vs') ∈ setdefault_append k v d ↔
    (k' ≠ k ∧ (k', vs') ∈ d) ∨
    (k' = k ∧ ∃ vs, vs' = vs ++ [v] ∧ ((k, vs) ∈ d ∨ (vs = [] ∧ k ∉ d.*1))).
Proof.
  induction d as [|[k0 vs0] d IH]; intros Hd.
  - cbn. rewrite list_elem_of_singleton. split.
    + intros [= -> ->]. right. split; [done|]. exists []. split; [done|].
      right. split; [done|]. apply not_elem_of_nil.
    + intros [[_ H]|[-> (vs & -> & [H|[-> _]])]]; [by apply elem_of_nil in H..|done].
  - rewrite fmap_cons in Hd. apply NoDup_cons in Hd as [Hk0 Hd]. specialize (IH Hd).
    assert (∀ vs, (k0, vs) ∉ d) as Hk0'.
    { intros vs Hin. apply Hk0. by eapply elem_of_fst_2. }
    cbn [setdefault_append]. rewrite fmap_cons. cbn [fst].
    destruct (decide (k = k0)) as [->|Hne].
    + rewrite !elem_of_cons. split.
      * intros [Heq|Hin].
        { simplify_eq. right. split; [done|]. exists vs0. split; [done|]. left. by left. }
        left. split; [|by right]. intros ->. by eapply Hk0'.
      * intros [[Hne [Heq|Hin]]|[-> (vs & -> & [Hin|[-> Hnin]])]].
        -- by simplify_eq.
        -- by right.
        -- apply elem_of_cons in Hin as [Heq|Hin]; [simplify_eq; by left|].
           by apply Hk0' in Hin.
        -- exfalso. apply Hnin. by left.
    + rewrite elem_of_cons, IH, !elem_of_cons. split.
      * intros [Heq|[[Hne' Hin]|[-> (vs & -> & [Hin|[-> Hnin]])]]].
        -- simplify_eq. left. split; [done|]. by left.
        -- left. split; [done|]. by right.
        -- right. split; [done|]. exists vs. split; [done|]. left. by right.
        -- right. split; [done|]. exists []. split; [done|]. right.
           split; [done|]. rewrite not_elem_of_cons. done.
      * intros [[Hne' [Heq|Hin]]|[-> (vs & -> & [Hin|[-> Hnin]])]].
        -- simplify_eq. by left.
        -- right. left. done.
        -- apply elem_of_cons in Hin as [Heq|Hin]; [by simplify_eq|].
           right. right. split; [done|]. exists vs. split; [done|]. by left.
        -- right. right. split; [done|]. exists []. split; [done|]. right.
           split; [done|]. rewrite not_elem_of_cons in Hnin. tauto.
Qed.

Lemma setdefault_append_concat k v (d : list (K * list V)) :
  concat (setdefault_append k v d).*2 ≡ₚ v :: concat d.*2.
Proof.
  induction d as [|[k' vs] d IH]; [done|].
  cbn [setdefault_append]. destruct (decide (k = k')).
  - rewrite !fmap_cons. cbn [snd concat]. rewrite <- app_assoc.
    symmetry. apply Permutation_middle.
  - rewrite !fmap_cons. cbn [snd concat]. rewrite IH.
    symmetry. apply Permutation_middle.
Qed.

Lemma group_by_snoc l v :
  group_by key (l ++ [v]) = setdefault_append (key v) v (group_by key l).
Proof. unfold group_by. by rewrite foldl_app. Qed.

Lemma group_by_NoDup l : NoDup (group_by key l).*1.
Proof.
  induction l as [|v l IH] using rev_ind; [constructor|].
  rewrite group_by_snoc. by apply setdefault_append_NoDup.
Qed.

Lemma group_by_concat l : concat (group_by key l).*2 ≡ₚ l.
Proof.
  induction l as [|v l IH] using rev_ind; [done|].
  rewrite group_by_snoc, setdefault_append_concat, IH.
  by rewrite Permutation_app_comm.
Qed.

(** A group is the input filtered by its key, in the order of the input. *)
Lemma group_by_elem l k vs :
  (k, vs) ∈ group_by key l ↔ vs = filter (λ v, key v = k) l ∧ vs ≠ [].
Proof.
  revert k vs. induction l as [|v l IH] using rev_ind; intros k vs.
  - simpl. rewrite elem_of_nil. split; [done|]. by intros [-> ?].
  - rewrite group_by_snoc, elem_of_setdefault_append by apply group_by_NoDup.
    rewrite filter_app, filter_cons, filter_nil. split.
    + intros [[Hne Hin]|[-> (vs0 & -> & [Hin|[-> Hnin]])]].
      * apply IH in Hin as [-> Hnn]. rewrite decide_False by done.
        by rewrite app_nil_r.
      * apply IH in Hin as [-> Hnn]. rewrite decide_True by done.
        split; [done|]. by intros [? ?]%app_eq_nil.
      * rewrite decide_True by done. split; [|done]. f_equal.
        destruct (filter (λ v0, key v0 = key v) l) as [|w ws] eqn:E; [done|].
        exfalso. apply Hnin. apply list_elem_of_fmap. eexists (_, _).
        split; [done|]. apply IH. split; [reflexivity|by rewrite E].
    + intros [-> Hnn]. destruct (decide (key v = k)) as [<-|Hne].
      * right. split; [done|]. eexists. split; [done|].
        destruct (filter (λ v0, key v0 = key v) l) as [|w ws] eqn:E.
        -- right. split; [done|]. intros ([k' vs'] & Hk & Hin)%list_elem_of_fmap.
           simpl in Hk. subst k'. apply IH in Hin as [-> Hin]. by rewrite E in Hin.
        -- left. apply IH. by rewrite E.
      * left. split; [done|]. apply IH. rewrite app_nil_r in Hnn |- *. done.
Qed.

Lemma group_by_elem_key l k vs v : (k, vs) ∈ group_by key l → v ∈ vs → key v = k ∧ v ∈ l.
Proof.
  intros [-> _]%group_by_elem Hv. by apply list_elem_of_filter in Hv.
Qed.

Lemma group_by_covers l v : v ∈ l → ∃ vs, (key v, vs) ∈ group_by key l ∧ v ∈ vs.
Proof.
  intros Hv. exists (filter (λ w, key w = key v) l).
  assert (v ∈ filter (λ w, key w = key v) l) as Hin by by apply list_elem_of_filter.
  split; [|done]. apply group_by_elem. split; [done|]. by intros E; rewrite E in Hin;
    apply elem_of_nil in Hin.
Qed.
End grouping.

(** ** The heap and its loops *)

Lemma get_error_set_error_eq a e h :
  (a < length (errs h))%nat → get_error (set_error a e h) a = e.
Proof. intros Ha. unfold get_error; simpl. by rewrite list_lookup_insert_eq. Qed.

Lemma get_error_set_error_ne a b e h : a ≠ b → get_error (set_error a e h) b = get_error h b.
Proof. intros Hne. unfold get_error; simpl. by rewrite list_lookup_insert_ne. Qed.

Lemma length_set_error a e h : length (errs (set_error a e h)) = length (errs h).
Proof. simpl. apply length_insert. Qed.

Lemma writes_to_snoc a b e log :
  writes_to a (log ++ [(b, e)]) = writes_to a log ++ (if decide (b = a) then [e] else []).
Proof.
  unfold writes_to. rewrite filter_app, fmap_app, filter_cons, filter_nil. simpl.
  by destruct (decide (b = a)).
Qed.

Lemma writes_to_nil_iff a log : writes_to a log = [] ↔ a ∉ log.*1.
Proof.
  unfold writes_to. induction log as [|[b e] log IH]; simpl.
  - split; [intros _; apply not_elem_of_nil|done].
  - rewrite filter_cons. simpl. rewrite not_elem_of_cons.
    destruct (decide (b = a)) as [->|Hne]; simpl; [split; [done|tauto]|].
    rewrite IH. split; [intros ?; split; [congruence|done]|tauto].
Qed.

Lemma heap_wf_empty es ids : heap_wf (mkHeap es [] ids).
Proof.
  split; simpl; [done|]. intros pre a c post H. by destruct pre.
Qed.

(** An assignment to a slot that holds [None], or was never assigned. *)
Lemma heap_wf_set_error a e h :
  heap_wf h → (a < length (errs h))%nat →
  get_error h a = None ∨ writes_to a (writes h) = [] →
  heap_wf (set_error a e h).
Proof.
  intros [Hlast Hfin] Ha Hguard. split.
  - intros a' v. simpl. rewrite writes_to_snoc.
    destruct (decide (a = a')) as [<-|Hne].
    + rewrite last_snoc. intros [= <-]. by apply get_error_set_error_eq.
    + rewrite app_nil_r, get_error_set_error_ne by done. apply Hlast.
  - intros pre a' c post. simpl. intros Heq.
    destruct post as [|w post _] using rev_ind; [apply not_elem_of_nil|].
    rewrite app_comm_cons, app_assoc in Heq.
    apply app_inj_tail in Heq as [Hlog <-].
    pose proof (Hfin _ _ _ _ Hlog) as Hnin.
    rewrite fmap_app, not_elem_of_app. split; [done|]. simpl.
    intros ->%list_elem_of_singleton.
    assert (last (writes_to a (writes h)) = Some (Some c)) as Hl.
    { rewrite Hlog. unfold writes_to. rewrite filter_app, filter_cons. simpl.
      rewrite decide_True by done.
      apply writes_to_nil_iff in Hnin. unfold writes_to in Hnin.
      apply fmap_nil_inv in Hnin. rewrite Hnin, fmap_app. simpl. apply last_snoc. }
    destruct Hguard as [Hg|Hg].
    + apply Hlast in Hl. congruence.
    + by rewrite Hg in Hl.
Qed.

Lemma for_each_nil {A} (body : A → heap → heap) h : for_each [] body h = h.
Proof. done. Qed.

Lemma for_each_cons {A} (body : A → heap → heap) x l h :
  for_each (x :: l) body h = for_each l body (body x h).
Proof. done. Qed.

Lemma for_each_app {A} (body : A → heap → heap) l1 l2 h :
  for_each (l1 ++ l2) body h = for_each l2 body (for_each l1 body h).
Proof. unfold for_each. apply foldl_app. Qed.

(** A loop over the lists [g x] of a loop over [l] is one loop. *)
Lemma for_each_bind {A B} (g : A → list B) (body : B → heap → heap) l h :
  for_each l (λ x h, for_each (g x) body h) h = for_each (l ≫= g) body h.
Proof.
  revert h; induction l as [|x l IH]; intros h; [done|].
  rewrite for_each_cons, bind_cons, for_each_app. apply IH.
Qed.

Section own_update.
Context (ids : gset str) (f : obj → option outcome → option (option outcome))
        (body : obj → heap → heap).
Hypothesis Hbody : own_update ids f body.

Local Abbreviation own_write := (own_write f).

Lemma for_each_own (objs : list obj) h :
  ineligible h = ids → NoDup objs.*1 →
  (∀ o, o ∈ objs → (o.1 < length (errs h))%nat) →
  ineligible (for_each objs body h) = ids ∧
  length (errs (for_each objs body h)) = length (errs h) ∧
  (∀ o, o ∈ objs →
     get_error (for_each objs body h) o.1 = default (get_error h o.1) (f o (get_error h o.1))) ∧
  (∀ a, a ∉ objs.*1 → get_error (for_each objs body h) a = get_error h a) ∧
  writes (for_each objs body h) = writes h ++ omap (own_write h) objs ∧
  (heap_wf h →
   (∀ o e, o ∈ objs → f o (get_error h o.1) = Some e →
      get_error h o.1 = None ∨ writes_to o.1 (writes h) = []) →
   heap_wf (for_each objs body h)).
Proof.
  revert h. induction objs as [|o objs IH]; intros h Hids Hnd Hlen.
  { rewrite for_each_nil. simpl. rewrite app_nil_r. split_and!; auto.
    intros ? []%elem_of_nil. }
  rewrite fmap_cons in Hnd. apply NoDup_cons in Hnd as [Ho Hnd].
  rewrite for_each_cons.
  assert (ineligible (body o h) = ids ∧ length (errs (body o h)) = length (errs h) ∧
          (∀ a, a ≠ o.1 → get_error (body o h) a = get_error h a) ∧
          get_error (body o h) o.1 = default (get_error h o.1) (f o (get_error h o.1)) ∧
          writes (body o h) = writes h ++ option_list (own_write h o)) as (Hi1 & Hl1 & Hne1 & Heq1 & Hw1).
  { pose proof (Hbody o h Hids) as Hb. unfold own_write.
    destruct (f o (get_error h o.1)) as [e|]; rewrite Hb; simpl.
    - split_and!; [done|apply length_insert| |apply get_error_set_error_eq|done].
      + intros a Ha. by apply get_error_set_error_ne.
      + apply Hlen. by left.
    - rewrite app_nil_r. done. }
  destruct (IH (body o h)) as (Hi2 & Hl2 & Hin2 & Hout2 & Hw2 & Hwf2); [done..| |].
  { intros o' Ho'. rewrite Hl1. apply Hlen. by right. }
  assert (∀ o', o' ∈ objs → o'.1 ≠ o.1) as Hdiff.
  { intros o' Ho' E. apply Ho. rewrite <- E. by apply list_elem_of_fmap_2. }
  split_and!.
  - done.
  - congruence.
  - intros o' [->|Ho']%elem_of_cons.
    + rewrite Hout2 by done. done.
    + rewrite Hin2 by done. rewrite Hne1 by by apply Hdiff. done.
  - intros a Ha. rewrite fmap_cons, not_elem_of_cons in Ha. destruct Ha as [Ha1 Ha2].
    rewrite Hout2 by done. by apply Hne1.
  - rewrite Hw2, Hw1, <- app_assoc. f_equal.
    cbn [omap list_omap]. 
    assert (omap (own_write (body o h)) objs = omap (own_write h) objs) as ->.
    { apply list_omap_ext, Forall2_same_length_lookup_2; [done|].
      intros i o1 o2 E1 E2. simplify_eq.
      unfold own_write. rewrite Hne1; [done|]. apply Hdiff. by eapply list_elem_of_lookup_2. }
    by destruct (own_write h o).
  - intros Hwf Hguard. apply Hwf2.
    + rewrite Hbody by done. destruct (f o (get_error h o.1)) as [e|] eqn:E; [|done].
      apply heap_wf_set_error; [done|apply Hlen; by left|].
      eapply Hguard; [by left|done].
    + intros o' e Ho' Hf. rewrite Hne1 in Hf |- * by by apply Hdiff.
      destruct (Hguard o' e) as [Hg|Hg]; [by right|done|by left|].
      right. rewrite Hw1. unfold own_write.
      destruct (f o (get_error h o.1)); simpl; [|by rewrite app_nil_r].
      rewrite writes_to_snoc, decide_False, app_nil_r; [done|].
      intros E. by eapply Hdiff.
Qed.
End own_update.

(** ** [choose_latest_by_person] *)

Lemma obj_key_lt_asym a b : obj_key_lt a b = true → obj_key_lt b a = false.
Proof. apply key_lt_asym. Qed.

Lemma obj_key_lt_negtrans a b c :
  obj_key_lt a c = true → obj_key_lt a b = true ∨ obj_key_lt b c = true.
Proof. apply key_lt_negtrans. Qed.

Lemma foldl_pair_app {A B C} (F : A → list B) (G : A → list C) l k d :
  foldl (λ '(k, d) x, (k ++ F x, d ++ G x)) (k, d) l = (k ++ (l ≫= F), d ++ (l ≫= G)).
Proof.
  revert k d; induction l as [|x l IH]; intros k d.
  - cbn. by rewrite !app_nil_r.
  - cbn [foldl]. rewrite IH, !bind_cons, <- !app_assoc. done.
Qed.

Lemma foldl_ext_eq {A B} (f g : A → B → A) a l :
  (∀ a x, f a x = g a x) → foldl f a l = foldl g a l.
Proof.
  intros H. revert a; induction l as [|x l IH]; intros a; [done|].
  simpl. by rewrite H, IH.
Qed.

Lemma choose_latest_by_person_eq subs :
  choose_latest_by_person subs =
    (group_by (λ o : obj, person_id o.2) subs ≫= (λ g, latest_of g.2),
     group_by (λ o : obj, person_id o.2) subs ≫= (λ g, earlier_of g.2)).
Proof.
  unfold choose_latest_by_person.
  rewrite <- (app_nil_l (_ ≫= (λ g, latest_of g.2))).
  rewrite <- (app_nil_l (_ ≫= (λ g, earlier_of g.2))).
  rewrite <- foldl_pair_app. apply foldl_ext_eq. by intros [k d] [key items].
Qed.

Lemma earlier_latest_perm items : earlier_of items ++ latest_of items ≡ₚ items.
Proof.
  unfold earlier_of, latest_of. rewrite init_last. apply sorted_by_perm.
Qed.

Lemma bind_app_perm {A B} (F G : A → list B) l :
  (l ≫= F) ++ (l ≫= G) ≡ₚ l ≫= (λ x, F x ++ G x).
Proof.
  induction l as [|x l IH]; [done|].
  rewrite !bind_cons, <- IH.
  rewrite <- !app_assoc. f_equiv. rewrite !app_assoc. f_equiv.
  apply Permutation_app_comm.
Qed.

Lemma bind_perm_ext {A B} (F G : A → list B) l :
  (∀ x, x ∈ l → F x ≡ₚ G x) → l ≫= F ≡ₚ l ≫= G.
Proof.
  induction l as [|x l IH]; intros H; [done|].
  rewrite !bind_cons. f_equiv; [apply H; by left|]. apply IH. intros y Hy. apply H. by right.
Qed.

Lemma choose_latest_by_person_perm subs :
  (choose_latest_by_person subs).1 ++ (choose_latest_by_person subs).2 ≡ₚ subs.
Proof.
  rewrite choose_latest_by_person_eq. simpl.
  rewrite bind_app_perm.
  rewrite (bind_perm_ext _ snd).
  - rewrite <- (group_by_concat (λ o : obj, person_id o.2) subs) at 2.
    generalize (group_by (λ o : obj, person_id o.2) subs). intros l.
    induction l as [|x l IH]; [done|]. rewrite bind_cons, fmap_cons. simpl. by f_equiv.
  - intros [k items] _. simpl. rewrite Permutation_app_comm. apply earlier_latest_perm.
Qed.

Lemma elem_of_kept subs o :
  o ∈ (choose_latest_by_person subs).1 ↔
  ∃ items, (person_id o.2, items) ∈ group_by (λ o : obj, person_id o.2) subs ∧
           last (sorted_by obj_key_lt items) = Some o.
Proof.
  rewrite choose_latest_by_person_eq. simpl. rewrite list_elem_of_bind. split.
  - intros ([k items] & Ho & Hg). unfold latest_of in Ho. simpl in Ho.
    destruct (last (sorted_by obj_key_lt items)) as [o'|] eqn:E; simpl in Ho;
      [|by apply elem_of_nil in Ho].
    apply list_elem_of_singleton in Ho as ->.
    exists items. split; [|done].
    assert (o' ∈ items) as Hin.
    { apply (elem_of_sorted_by obj_key_lt). apply last_Some in E as [l' ->].
      apply elem_of_app. right. by left. }
    by destruct (group_by_elem_key _ _ _ _ _ Hg Hin) as [-> _].
  - intros (items & Hg & Hl). eexists (_, items). split; [|done].
    unfold latest_of. simpl. rewrite Hl. by left.
Qed.

Lemma elem_of_dropped subs o :
  o ∈ (choose_latest_by_person subs).2 → o ∈ subs.
Proof.
  intros H. rewrite <- (choose_latest_by_person_perm subs). apply elem_of_app. by right.
Qed.

Lemma elem_of_kept_subs subs o :
  o ∈ (choose_latest_by_person subs).1 → o ∈ subs.
Proof.
  intros H. rewrite <- (choose_latest_by_person_perm subs). apply elem_of_app. by left.
Qed.

(** The kept submission of a person is a latest one of that person. *)
Lemma kept_greatest subs o o' :
  o ∈ (choose_latest_by_person subs).1 → o' ∈ subs → person_id o'.2 = person_id o.2 →
  obj_key_lt o o' = false.
Proof.
  intros (items & Hg & Hl)%elem_of_kept Ho' Hp.
  apply (sorted_by_last_greatest obj_key_lt obj_key_lt_asym obj_key_lt_negtrans items o o' Hl).
  apply group_by_elem in Hg as [-> _]. by apply list_elem_of_filter.
Qed.

(** One submission is kept for each person of the input, and no more. *)
Lemma kept_person_ids subs :
  (λ o : obj, person_id o.2) <$> (choose_latest_by_person subs).1 =
  (group_by (λ o : obj, person_id o.2) subs).*1.
Proof.
  rewrite choose_latest_by_person_eq. simpl.
  pose proof (λ k items, proj1 (group_by_elem (λ o : obj, person_id o.2) subs k items)) as Hg.
  revert Hg. generalize (group_by (λ o : obj, person_id o.2) subs). intros l Hl.
  induction l as [|[k items] l IH]; [done|].
  rewrite bind_cons, fmap_app, fmap_cons, IH by (intros ???; apply Hl; by right).
  simpl. destruct (Hl k items) as [Hf Hnn]; [by left|].
  unfold latest_of.
  destruct (last (sorted_by obj_key_lt items)) as [o|] eqn:E.
  - simpl. f_equal.
    assert (o ∈ items) as Hin.
    { apply (elem_of_sorted_by obj_key_lt). apply last_Some in E as [l' ->].
      apply elem_of_app. right. by left. }
    rewrite Hf in Hin. by apply list_elem_of_filter in Hin as [? _].
  - apply last_None in E. by apply sorted_by_nil_inv in E.
Qed.

Lemma kept_person_ids_NoDup subs :
  NoDup ((λ o : obj, person_id o.2) <$> (choose_latest_by_person subs).1).
Proof. rewrite kept_person_ids. apply group_by_NoDup. Qed.

Lemma kept_covers subs o :
  o ∈ subs → ∃ k, k ∈ (choose_latest_by_person subs).1 ∧ person_id k.2 = person_id o.2.
Proof.
  intros Ho. apply (list_elem_of_fmap_2 (λ o : obj, person_id o.2)) in Ho as Hp.
  assert (person_id o.2 ∈ (group_by (λ o : obj, person_id o.2) subs).*1) as Hk.
  { destruct (group_by_covers (λ o : obj, person_id o.2) subs o Ho) as (vs & Hvs & _).
    apply list_elem_of_fmap. by exists (person_id o.2, vs). }
  rewrite <- kept_person_ids in Hk. apply list_elem_of_fmap in Hk as (k & Hk1 & Hk2).
  by exists k.
Qed.

Lemma kept_dropped_NoDup subs :
  NoDup subs.*1 →
  NoDup ((choose_latest_by_person subs).1 ++ (choose_latest_by_person subs).2).*1.
Proof. intros H. by rewrite choose_latest_by_person_perm. Qed.

(** ** The stages of [process_term] *)

Lemma stage_intro ids n f body (objs : list obj) h :
  good ids n h → own_update ids f body → NoDup objs.*1 →
  (∀ o, o ∈ objs → (o.1 < n)%nat) →
  (∀ o e, o ∈ objs → f o (get_error h o.1) = Some e → get_error h o.1 = None ∧ e ≠ None) →
  stage ids n f objs h (for_each objs body h).
Proof.
  intros (Hids & Hlen & Hwf) Hbody Hnd Hbound Hguard.
  destruct (for_each_own ids f body Hbody objs h) as (H1 & H2 & H3 & H4 & H5 & H6);
    [done..|by rewrite Hlen|].
  split; try done; [congruence|].
  apply H6; [done|]. intros o e Ho Hf. left. by eapply Hguard.
Qed.

Lemma stage_good ids n f objs h h' : stage ids n f objs h h' → good ids n h'.
Proof. intros []. by split_and!. Qed.

(** A slot that holds a code keeps it through the loop. *)
Lemma stage_sticky ids n f objs h h' a c :
  stage ids n f objs h h' → get_error h a = Some c → get_error h' a = Some c.
Proof.
  intros Hs Ha. destruct (decide (a ∈ objs.*1)) as [Hin|Hnin].
  - apply list_elem_of_fmap in Hin as (o & -> & Ho).
    rewrite (stage_in _ _ _ _ _ _ Hs) by done.
    destruct (f o (get_error h o.1)) as [e|] eqn:E; [|done].
    destruct (stage_guard _ _ _ _ _ _ Hs o e Ho E). congruence.
  - by rewrite (stage_out _ _ _ _ _ _ Hs).
Qed.

(** A slot that is clean after the loop was clean before it. *)
Lemma stage_clean_back ids n f objs h h' a :
  stage ids n f objs h h' → get_error h' a = None → get_error h a = None.
Proof.
  intros Hs Ha. destruct (decide (a ∈ objs.*1)) as [Hin|Hnin].
  - apply list_elem_of_fmap in Hin as (o & -> & Ho).
    rewrite (stage_in _ _ _ _ _ _ Hs) in Ha by done.
    destruct (f o (get_error h o.1)) as [e|] eqn:E; [|done].
    destruct (stage_guard _ _ _ _ _ _ Hs o e Ho E). simpl in Ha. congruence.
  - by rewrite (stage_out _ _ _ _ _ _ Hs) in Ha.
Qed.

(** The loop changes a slot only from [None] to a code. *)
Lemma stage_change ids n f objs h h' a :
  stage ids n f objs h h' →
  get_error h' a = get_error h a ∨
  (get_error h a = None ∧ ∃ o e, o ∈ objs ∧ o.1 = a ∧ f o None = Some (Some e) ∧
     get_error h' a = Some e).
Proof.
  intros Hs. destruct (decide (a ∈ objs.*1)) as [Hin|Hnin].
  - apply list_elem_of_fmap in Hin as (o & -> & Ho).
    rewrite (stage_in _ _ _ _ _ _ Hs) by done.
    destruct (f o (get_error h o.1)) as [e|] eqn:E; [|by left].
    destruct (stage_guard _ _ _ _ _ _ Hs o e Ho E) as [Hn He].
    destruct e as [e|]; [|done]. right. split; [done|].
    exists o, e. rewrite Hn in E. done.
  - left. by rewrite (stage_out _ _ _ _ _ _ Hs).
Qed.

Lemma imap_offset_fst {A} (l : list A) n :
  (imap (λ i s, ((n + i)%nat, s)) l).*1 = seq n (length l).
Proof.
  revert n; induction l as [|x l IH]; intros n; [done|].
  rewrite imap_cons, fmap_cons. cbn [fst length seq]. f_equal; [lia|].
  rewrite <- (IH (S n)). f_equal. apply imap_ext. intros i y _. simpl. f_equal. lia.
Qed.

Lemma imap_offset_snd {A} (l : list A) n :
  (imap (λ i s, ((n + i)%nat, s)) l).*2 = l.
Proof.
  revert n; induction l as [|x l IH]; intros n; [done|].
  rewrite imap_cons, fmap_cons. cbn [snd]. f_equal.
  rewrite <- (IH (S n)) at 2. f_equal. apply imap_ext. intros i y _. simpl. f_equal. lia.
Qed.

Section objects.
Context (apps pars : list Submission).

Lemma app_objs_fst : (app_objs apps).*1 = seq 0 (length apps).
Proof. apply (imap_offset_fst apps 0). Qed.

Lemma par_objs_fst : (par_objs apps pars).*1 = seq (length apps) (length pars).
Proof. apply imap_offset_fst. Qed.

Lemma all_objs_fst : (all_objs apps pars).*1 = seq 0 (length (apps ++ pars)).
Proof.
  unfold all_objs. rewrite fmap_app, app_objs_fst, par_objs_fst, length_app.
  symmetry. apply seq_app.
Qed.

Lemma all_objs_snd : (all_objs apps pars).*2 = apps ++ pars.
Proof.
  unfold all_objs. rewrite fmap_app. f_equal.
  - apply (imap_offset_snd apps 0).
  - apply imap_offset_snd.
Qed.

Lemma all_objs_NoDup : NoDup (all_objs apps pars).*1.
Proof. rewrite all_objs_fst. apply NoDup_seq. Qed.

Lemma app_objs_NoDup : NoDup (app_objs apps).*1.
Proof. rewrite app_objs_fst. apply NoDup_seq. Qed.

Lemma par_objs_NoDup : NoDup (par_objs apps pars).*1.
Proof. rewrite par_objs_fst. apply NoDup_seq. Qed.

Lemma all_objs_bound o :
  o ∈ all_objs apps pars → (o.1 < length (apps ++ pars))%nat.
Proof.
  intros Ho. apply (list_elem_of_fmap_2 fst) in Ho.
  rewrite all_objs_fst in Ho. apply elem_of_seq in Ho. lia.
Qed.

Lemma elem_of_app_objs a s : (a, s) ∈ app_objs apps ↔ apps !! a = Some s.
Proof.
  unfold app_objs. rewrite elem_of_lookup_imap. split.
  - by intros (i & y & [= -> ->] & H).
  - intros H. by exists a, s.
Qed.

Lemma elem_of_par_objs a s :
  (a, s) ∈ par_objs apps pars ↔ ∃ i, a = (length apps + i)%nat ∧ pars !! i = Some s.
Proof.
  unfold par_objs. rewrite elem_of_lookup_imap. split.
  - intros (i & y & [= -> ->] & H). by exists i.
  - intros (i & -> & H). by exists i, s.
Qed.

Lemma app_objs_all o : o ∈ app_objs apps → o ∈ all_objs apps pars.
Proof. intros. apply elem_of_app. by left. Qed.

Lemma par_objs_all o : o ∈ par_objs apps pars → o ∈ all_objs apps pars.
Proof. intros. apply elem_of_app. by right. Qed.

Lemma app_par_objs_disjoint o o' :
  o ∈ app_objs apps → o' ∈ par_objs apps pars → o.1 ≠ o'.1.
Proof.
  intros H H'. apply (list_elem_of_fmap_2 fst) in H, H'.
  rewrite app_objs_fst in H. rewrite par_objs_fst in H'.
  apply elem_of_seq in H, H'. lia.
Qed.

(** An address names one object. *)
Lemma all_objs_inj o o' :
  o ∈ all_objs apps pars → o' ∈ all_objs apps pars → o.1 = o'.1 → o = o'.
Proof.
  intros H H' E. pose proof all_objs_NoDup as Hnd.
  apply list_elem_of_lookup in H as [i Hi]. apply list_elem_of_lookup in H' as [j Hj].
  assert (i = j) as ->.
  { eapply NoDup_lookup; [done|by rewrite list_lookup_fmap, Hi|].
    rewrite list_lookup_fmap, Hj. simpl. by rewrite E. }
  congruence.
Qed.
End objects.

Lemma submseteq_NoDup {A} (l k : list A) : l ⊆+ k → NoDup k → NoDup l.
Proof.
  intros [k' Hk]%submseteq_Permutation Hnd. rewrite Hk in Hnd.
  by apply NoDup_app in Hnd as [? _].
Qed.

Lemma filter_fst_NoDup {A B} (P : A * B → Prop) `{∀ x, Decision (P x)} (l : list (A * B)) :
  NoDup l.*1 → NoDup (filter P l).*1.
Proof.
  intros Hnd. eapply sublist_NoDup; [done|]. apply fmap_sublist, sublist_filter.
Qed.

Lemma NoDup_fmap_inj {A B} (f : A → B) (l : list A) x y :
  NoDup (f <$> l) → x ∈ l → y ∈ l → f x = f y → x = y.
Proof.
  intros Hnd [i Hi]%list_elem_of_lookup [j Hj]%list_elem_of_lookup E.
  assert (i = j) as ->; [|congruence].
  eapply NoDup_lookup; [done|by rewrite list_lookup_fmap, Hi|].
  rewrite list_lookup_fmap, Hj. simpl. by rewrite E.
Qed.

(** In a list without two objects at one address, membership is by address. *)
Lemma NoDup_fst_inj {A B} (l : list (A * B)) x y :
  NoDup l.*1 → x ∈ l → y ∈ l → x.1 = y.1 → x = y.
Proof. apply NoDup_fmap_inj. Qed.

Lemma filter_fmap_NoDup {A B} (f : A → B) (P : A → Prop) `{∀ x, Decision (P x)} (l : list A) :
  NoDup (f <$> l) → NoDup (f <$> filter P l).
Proof.
  intros Hnd. eapply sublist_NoDup; [done|]. apply fmap_sublist, sublist_filter.
Qed.

(** A dict built by successive insertions, when the keys are distinct. *)
Lemma foldl_insert_lookup {V} (key : V → str) (l : list V) (m : gmap str V) k v :
  NoDup (key <$> l) →
  foldl (λ m x, <[key x := x]> m) m l !! k = Some v ↔
  (v ∈ l ∧ key v = k) ∨ ((k ∉ (key <$> l)) ∧ m !! k = Some v).
Proof.
  revert m. induction l as [|x l IH]; intros m Hnd.
  - simpl. split; [intros; right; split; [apply not_elem_of_nil|done]|].
    intros [[H _]|[_ H]]; [by apply elem_of_nil in H|done].
  - rewrite fmap_cons in Hnd. apply NoDup_cons in Hnd as [Hx Hnd].
    cbn [foldl]. rewrite (IH _ Hnd), fmap_cons, not_elem_of_cons, elem_of_cons.
    destruct (decide (key x = k)) as [<-|Hne].
    + rewrite lookup_insert_eq. split.
      * intros [[Hv Hk]|[_ [= <-]]]; [|left; split; [by left|done]].
        exfalso. apply Hx. rewrite <- Hk. by apply list_elem_of_fmap_2.
      * intros [[[->|Hv] Hk]|[[Hk _] _]]; [right; done| |done].
        exfalso. apply Hx. rewrite <- Hk. by apply list_elem_of_fmap_2.
    + rewrite lookup_insert_ne by done. split.
      * intros [[Hv Hk]|[Hk Hm]]; [left; split; [by right|done]|].
        right. split; [split; [congruence|done]|done].
      * intros [[[->|Hv] Hk]|[[_ Hk] Hm]]; [done|by left|by right].
  Qed.

Lemma filter_all {A} (P : A → Prop) `{∀ x, Decision (P x)} (l : list A) :
  (∀ x, x ∈ l → P x) → filter P l = l.
Proof.
  induction l as [|x l IH]; intros Hall; [done|].
  rewrite filter_cons, decide_True by (apply Hall; by left).
  f_equal. apply IH. intros y Hy. apply Hall. by right.
Qed.

Section stages.
Context (apps pars : list Submission) (ids : gset str).

Local Abbreviation n := (length (apps ++ pars)).
Local Abbreviation all := (all_objs apps pars).
Local Abbreviation h_val := (st_validated apps pars ids).
Local Abbreviation h_form := (st_partner_form apps pars ids).
Local Abbreviation h_inel := (st_ineligible apps pars ids).
Local Abbreviation h_dedup := (st_dedup apps pars ids).
Local Abbreviation cands := (candidates apps pars ids).
Local Abbreviation keep := (kept apps pars ids).
Local Abbreviation drop_ := (dropped apps pars ids).

(** *** Validation *)

Lemma validated_spec :
  good ids n h_val ∧
  (∀ o, o ∈ all → get_error h_val o.1 = apply_input_validation o.2) ∧
  (∀ a, a ∉ all.*1 → get_error h_val a = None) ∧
  writes h_val = (λ o : obj, (o.1, apply_input_validation o.2)) <$> all.
Proof.
  unfold st_validated.
  destruct (for_each_own ids (λ o _, Some (apply_input_validation o.2))
              (λ o, set_error o.1 (apply_input_validation o.2))
              (λ o h _, eq_refl) all (heap_init apps pars ids))
    as (H1 & H2 & H3 & H4 & H5 & H6).
  { done. }
  { apply all_objs_NoDup. }
  { intros o Ho. simpl. rewrite length_fmap. by apply all_objs_bound. }
  split_and!.
  - split_and!; [done| |].
    + rewrite H2. simpl. apply length_fmap.
    + apply H6; [apply heap_wf_empty|]. intros. by right.
  - intros o Ho. by rewrite H3.
  - intros a Ha. rewrite H4 by done. unfold get_error. simpl.
    rewrite lookup_ge_None_2; [done|]. rewrite length_fmap.
    rewrite all_objs_fst, elem_of_seq in Ha. lia.
  - rewrite H5. simpl. symmetry. apply list_fmap_alt.
Qed.

Lemma validated_good : good ids n h_val.
Proof. apply validated_spec. Qed.

(** *** The partner form *)

Lemma partner_form_stage :
  stage ids n (f_partner_form (all_partner_ids pars)) (app_objs apps) h_val h_form.
Proof.
  unfold st_partner_form. cbv zeta. apply stage_intro.
  - apply validated_good.
  - intros o h _. unfold f_partner_form, is_clean.
    by repeat (destruct (bool_decide _) || destruct (wants_partner _)
               || destruct (partner_missing _ _)).
  - apply app_objs_NoDup.
  - intros o Ho. by apply all_objs_bound, app_objs_all.
  - intros o e _. unfold f_partner_form.
    case_bool_decide; simpl; [|done].
    destruct (_ && _); [|done]. by intros [= <-].
Qed.

(** *** Ineligibility *)

Lemma ineligible_stage : stage ids n (f_ineligible ids) all h_form h_inel.
Proof.
  unfold st_ineligible. apply stage_intro.
  - eapply stage_good, partner_form_stage.
  - intros o h ->. unfold f_ineligible, is_clean.
    by repeat (destruct (bool_decide _)).
  - apply all_objs_NoDup.
  - intros o Ho. by apply all_objs_bound.
  - intros o e _. unfold f_ineligible.
    case_bool_decide; simpl; [|done].
    case_bool_decide; [|done]. by intros [= <-].
Qed.

(** *** Candidates and deduplication *)

Lemma elem_of_candidates o : o ∈ cands ↔ o ∈ all ∧ get_error h_inel o.1 = None.
Proof.
  unfold candidates. cbv zeta. rewrite list_elem_of_filter. unfold is_clean.
  rewrite bool_decide_spec. tauto.
Qed.

Lemma candidates_NoDup : NoDup cands.*1.
Proof. apply filter_fst_NoDup, all_objs_NoDup. Qed.

Lemma kept_dropped_perm : keep ++ drop_ ≡ₚ cands.
Proof. apply choose_latest_by_person_perm. Qed.

Lemma kept_dropped_fst_NoDup : NoDup (keep ++ drop_).*1.
Proof. rewrite kept_dropped_perm. apply candidates_NoDup. Qed.

Lemma kept_candidates o : o ∈ keep → o ∈ cands.
Proof. apply elem_of_kept_subs. Qed.

Lemma dropped_candidates o : o ∈ drop_ → o ∈ cands.
Proof. apply elem_of_dropped. Qed.

Lemma candidates_kept_or_dropped o : o ∈ cands → o ∈ keep ∨ o ∈ drop_.
Proof. rewrite <- kept_dropped_perm. apply elem_of_app. Qed.

Lemma kept_not_dropped o : o ∈ keep → o.1 ∉ drop_.*1.
Proof.
  intros Ho Hd. pose proof kept_dropped_fst_NoDup as Hnd.
  rewrite fmap_app in Hnd. apply NoDup_app in Hnd as (_ & Hdisj & _).
  eapply Hdisj; [|done]. by apply list_elem_of_fmap_2.
Qed.

Lemma kept_NoDup : NoDup keep.*1.
Proof.
  pose proof kept_dropped_fst_NoDup as Hnd.
  rewrite fmap_app in Hnd. by apply NoDup_app in Hnd as (? & _ & _).
Qed.

Lemma dropped_NoDup : NoDup drop_.*1.
Proof.
  pose proof kept_dropped_fst_NoDup as Hnd.
  rewrite fmap_app in Hnd. by apply NoDup_app in Hnd as (_ & _ & ?).
Qed.

Lemma dedup_stage : stage ids n (f_assign E3) drop_ h_inel h_dedup.
Proof.
  unfold st_dedup. apply stage_intro.
  - eapply stage_good, ineligible_stage.
  - by intros o h _.
  - apply dropped_NoDup.
  - intros o Ho. by apply all_objs_bound, elem_of_candidates, dropped_candidates.
  - intros o e Ho [= <-]. split; [|done].
    by apply elem_of_candidates, dropped_candidates.
Qed.

Lemma dropped_E3 o : o ∈ drop_ → get_error h_dedup o.1 = Some E3.
Proof. intros Ho. by rewrite (stage_in _ _ _ _ _ _ dedup_stage). Qed.

Lemma kept_clean o : o ∈ keep → get_error h_dedup o.1 = None.
Proof.
  intros Ho. rewrite (stage_out _ _ _ _ _ _ dedup_stage) by by apply kept_not_dropped.
  by apply elem_of_candidates, kept_candidates.
Qed.

Lemma candidates'_eq : candidates' apps pars ids = keep.
Proof.
  unfold candidates'. cbv zeta. apply filter_all.
  intros o Ho. unfold is_clean. apply bool_decide_pack. by apply kept_clean.
Qed.

(** *** The candidates by role, and the partner index *)

Local Abbreviation app_cands := (app_candidates apps pars ids).
Local Abbreviation par_cands := (par_candidates apps pars ids).
Local Abbreviation index := (partner_by_id apps pars ids).
Local Abbreviation h_unm := (st_unmatched apps pars ids).
Local Abbreviation h_conf := (st_conflicts apps pars ids).

Lemma elem_of_app_candidates o : o ∈ app_cands ↔ o ∈ keep ∧ role o.2 = App.
Proof.
  unfold app_candidates. rewrite candidates'_eq, list_elem_of_filter. tauto.
Qed.

Lemma elem_of_par_candidates o : o ∈ par_cands ↔ o ∈ keep ∧ role o.2 = Par.
Proof.
  unfold par_candidates. rewrite candidates'_eq, list_elem_of_filter. tauto.
Qed.

Lemma kept_all o : o ∈ keep → o ∈ all.
Proof. intros Ho. by apply elem_of_candidates, kept_candidates. Qed.

Lemma app_candidates_NoDup : NoDup app_cands.*1.
Proof.
  unfold app_candidates. rewrite candidates'_eq. apply filter_fst_NoDup, kept_NoDup.
Qed.

Lemma par_candidates_NoDup : NoDup par_cands.*1.
Proof.
  unfold par_candidates. rewrite candidates'_eq. apply filter_fst_NoDup, kept_NoDup.
Qed.

Lemma kept_person_id_inj o o' :
  o ∈ keep → o' ∈ keep → person_id o.2 = person_id o'.2 → o = o'.
Proof.
  apply (NoDup_fmap_inj (λ o : obj, person_id o.2)), kept_person_ids_NoDup.
Qed.

Lemma app_par_candidates_disjoint a p : a ∈ app_cands → p ∈ par_cands → a.1 ≠ p.1.
Proof.
  intros [Ha Ra]%elem_of_app_candidates [Hp Rp]%elem_of_par_candidates E.
  assert (a = p) as -> by (by eapply NoDup_fst_inj; [apply kept_NoDup|..]).
  congruence.
Qed.

Lemma partner_by_id_lookup p o :
  index !! p = Some o ↔ o ∈ par_cands ∧ person_id o.2 = p.
Proof.
  unfold partner_by_id.
  rewrite (foldl_insert_lookup (λ o : obj, person_id o.2)).
  - rewrite lookup_empty. split; [intros [?|[_ ?]]; done|by left].
  - unfold par_candidates. rewrite candidates'_eq.
    apply filter_fmap_NoDup, kept_person_ids_NoDup.
Qed.

(** *** Applicants without a surviving partner *)

Lemma unmatched_stage : stage ids n (f_unmatched index) app_cands h_dedup h_unm.
Proof.
  unfold st_unmatched. cbv zeta. apply stage_intro.
  - eapply stage_good, dedup_stage.
  - intros o h _. unfold f_unmatched. by destruct (_ && _).
  - apply app_candidates_NoDup.
  - intros o [Ho _]%elem_of_app_candidates. by apply all_objs_bound, kept_all.
  - intros o e [Ho _]%elem_of_app_candidates. unfold f_unmatched.
    destruct (_ && _); [|done]. intros [= <-]. split; [|done]. by apply kept_clean.
Qed.

(** *** Conflicts over a partner *)

Local Abbreviation claim := (claimants apps pars ids).
Local Abbreviation groups := (applicants_by_partner apps pars ids).

Lemma applicants_by_partner_eq : groups = group_by (λ o : obj, partner_id o.2) claim.
Proof. done. Qed.

Lemma elem_of_claimants o :
  o ∈ claim ↔ o ∈ app_cands ∧ get_error h_unm o.1 = None ∧ wants_partner o.2 = true.
Proof.
  unfold claimants. rewrite list_elem_of_filter. unfold is_clean.
  rewrite andb_True, bool_decide_spec, Is_true_true. tauto.
Qed.

Lemma claimants_NoDup : NoDup claim.*1.
Proof. apply filter_fst_NoDup, app_candidates_NoDup. Qed.

Lemma losers_drop (gs : list (option str * list obj)) :
  losers gs = gs ≫= (λ g, drop 1 (sorted_by obj_key_lt g.2)).
Proof.
  unfold losers. induction gs as [|g gs IH]; [done|].
  rewrite !bind_cons, IH. f_equal. case_bool_decide as Hl; [|done].
  symmetry. apply drop_ge. by rewrite sorted_by_length.
Qed.

Lemma losers_submseteq (gs : list (option str * list obj)) : losers gs ⊆+ concat gs.*2.
Proof.
  rewrite losers_drop. induction gs as [|g gs IH]; [done|].
  rewrite bind_cons, fmap_cons. simpl. apply submseteq_app; [|done].
  etrans; [apply sublist_submseteq, sublist_drop|].
  apply Permutation_submseteq, sorted_by_perm.
Qed.

Lemma losers_claimants o : o ∈ losers groups → o ∈ claim.
Proof.
  intros Ho. eapply elem_of_submseteq in Ho; [|apply losers_submseteq].
  by rewrite applicants_by_partner_eq, group_by_concat in Ho.
Qed.

Lemma losers_NoDup : NoDup (losers groups).*1.
Proof.
  eapply submseteq_NoDup; [apply fmap_submseteq, losers_submseteq|].
  rewrite applicants_by_partner_eq, group_by_concat. apply claimants_NoDup.
Qed.

Lemma st_conflicts_eq :
  h_conf = for_each (losers groups) (λ s, set_error s.1 (Some E3)) h_unm.
Proof.
  unfold st_conflicts, losers. rewrite <- for_each_bind.
  unfold for_each. apply foldl_ext_eq. intros h [k g]. simpl.
  by case_bool_decide.
Qed.

Lemma conflicts_stage : stage ids n (f_assign E3) (losers groups) h_unm h_conf.
Proof.
  rewrite st_conflicts_eq. apply stage_intro.
  - eapply stage_good, unmatched_stage.
  - by intros o h _.
  - apply losers_NoDup.
  - intros o [[Ho _]%elem_of_app_candidates _]%losers_claimants%elem_of_claimants.
    by apply all_objs_bound, kept_all.
  - intros o e (_ & Ho & _)%losers_claimants%elem_of_claimants [= <-]. done.
Qed.

Lemma elem_of_rivals o x :
  x ∈ rivals apps pars ids o ↔ x ∈ claim ∧ partner_id x.2 = partner_id o.2.
Proof. unfold rivals. rewrite list_elem_of_filter. tauto. Qed.

Lemma rivals_group o : o ∈ claim → (partner_id o.2, rivals apps pars ids o) ∈ groups.
Proof.
  intros Ho. rewrite applicants_by_partner_eq. apply group_by_elem. split; [done|].
  intros E. assert (o ∈ rivals apps pars ids o) as Hin by by apply elem_of_rivals.
  rewrite E in Hin. by apply elem_of_nil in Hin.
Qed.

Lemma claimants_objs_NoDup : NoDup claim.
Proof. eapply NoDup_fmap_1, claimants_NoDup. Qed.

(** A claimant loses exactly when it is not the first of its rivals in
    the sorted order. *)
Lemma loser_iff o :
  o ∈ claim →
  o ∈ losers groups ↔ head (sorted_by obj_key_lt (rivals apps pars ids o)) ≠ Some o.
Proof.
  intros Ho. rewrite losers_drop, list_elem_of_bind.
  assert (NoDup (sorted_by obj_key_lt (rivals apps pars ids o))) as Hnd.
  { rewrite sorted_by_perm. apply NoDup_filter, claimants_objs_NoDup. }
  assert (o ∈ sorted_by obj_key_lt (rivals apps pars ids o)) as Hin.
  { rewrite elem_of_sorted_by. by apply elem_of_rivals. }
  split.
  - intros ([k g] & Hdrop & Hg). simpl in Hdrop.
    assert (o ∈ g) as Hog.
    { apply (elem_of_sorted_by obj_key_lt). eapply elem_of_sublist; [done|apply sublist_drop]. }
    rewrite applicants_by_partner_eq in Hg.
    destruct (group_by_elem_key _ _ _ _ _ Hg Hog) as [<- _].
    apply group_by_elem in Hg as [-> _]. fold (rivals apps pars ids o) in *.
    destruct (sorted_by obj_key_lt (rivals apps pars ids o)) as [|x t]; [done|].
    simpl in *. rewrite drop_0 in Hdrop. apply NoDup_cons in Hnd as [Hx _].
    intros [= ->]. done.
  - intros Hh. exists (partner_id o.2, rivals apps pars ids o).
    split; [|by apply rivals_group]. simpl.
    destruct (sorted_by obj_key_lt (rivals apps pars ids o)) as [|x t]; [done|].
    simpl in *. rewrite drop_0. apply elem_of_cons in Hin as [->|Hin]; [done|done].
Qed.

(** *** Pairing *)

Lemma pairing_fold (m : gmap str obj) (l : list obj) (h : heap) (pd : gset str)
    (rows : list alloc_row) :
  (∀ a, a ∈ l → is_clean h a = true → wants_partner a.2 = true →
     ∃ p, lookup_partner m a.2 = Some p ∧ is_clean h p = true) →
  foldl (pairing_step m) (h, pd, rows) l =
    (h, pd ∪ list_to_set (omap (paired_id m) (filter (λ a, is_clean h a) l)),
     rows ++ (row_of m <$> filter (λ a, is_clean h a) l)).
Proof.
  revert pd rows. induction l as [|a l IH]; intros pd rows Hpre.
  - simpl. rewrite app_nil_r. f_equal. f_equal. set_solver.
  - cbn [foldl]. rewrite filter_cons.
    assert (∀ a', a' ∈ l → is_clean h a' = true → wants_partner a'.2 = true →
              ∃ p, lookup_partner m a'.2 = Some p ∧ is_clean h p = true) as Hpre'.
    { intros a' Ha'. apply Hpre. by right. }
    unfold pairing_step at 2. destruct (is_clean h a) eqn:Hc; cbn [negb].
    + rewrite decide_True by done.
      destruct (wants_partner a.2) eqn:Hw.
      * destruct (Hpre a) as (p & Hp & Hcp); [by left|done..|].
        rewrite Hp, Hcp. simpl. rewrite IH by done.
        cbn [omap list_omap fmap list_fmap]. unfold paired_id at 2, row_of at 2.
        rewrite Hw, Hp. simpl. rewrite <- app_assoc. f_equal. f_equal. set_solver.
      * rewrite IH by done.
        cbn [omap list_omap fmap list_fmap]. unfold paired_id at 2, row_of at 2.
        rewrite Hw. simpl. rewrite <- app_assoc. done.
    + rewrite decide_False by (simpl; tauto). by apply IH.
Qed.

Lemma lookup_partner_Some (a p : obj) :
  lookup_partner index a.2 = Some p ↔
  p ∈ par_cands ∧ partner_id a.2 = Some (person_id p.2).
Proof.
  unfold lookup_partner. destruct (partner_id a.2) as [q|]; simpl.
  - rewrite partner_by_id_lookup. split; [intros [? ->]; done|].
    intros [? [= ->]]. done.
  - split; [done|]. by intros [_ ?].
Qed.

Lemma par_candidates_clean_unm p : p ∈ par_cands → get_error h_unm p.1 = None.
Proof.
  intros Hp. rewrite (stage_out _ _ _ _ _ _ unmatched_stage).
  - apply kept_clean. by apply elem_of_par_candidates in Hp as [? _].
  - intros (a & E & Ha)%list_elem_of_fmap.
    by eapply app_par_candidates_disjoint.
Qed.

Lemma par_candidates_clean_conf p : p ∈ par_cands → get_error h_conf p.1 = None.
Proof.
  intros Hp. rewrite (stage_out _ _ _ _ _ _ conflicts_stage).
  - by apply par_candidates_clean_unm.
  - intros (a & E & Ha)%list_elem_of_fmap.
    apply losers_claimants, elem_of_claimants in Ha as [Ha _].
    by eapply app_par_candidates_disjoint.
Qed.

(** A candidate applicant is clean after the partner check exactly when
    it wants no partner or its partner is indexed. *)
Lemma app_candidates_unm a :
  a ∈ app_cands →
  get_error h_unm a.1 = None ↔
  ¬ (wants_partner a.2 = true ∧ lookup_partner index a.2 = None).
Proof.
  intros Ha. rewrite (stage_in _ _ _ _ _ _ unmatched_stage) by done.
  apply elem_of_app_candidates in Ha as [Ha _].
  rewrite (kept_clean _ Ha). unfold f_unmatched.
  destruct (wants_partner a.2); simpl; [|naive_solver].
  case_bool_decide; simpl; naive_solver.
Qed.

Lemma pairing_spec :
  pairing apps pars ids =
    (h_conf, list_to_set (omap (paired_id index) (survivors apps pars ids)),
     row_of index <$> survivors apps pars ids).
Proof.
  unfold pairing. rewrite pairing_fold.
  - unfold survivors. f_equal. f_equal. set_solver.
  - intros a Ha Hc Hw. unfold is_clean in Hc. apply bool_decide_eq_true in Hc.
    apply (stage_clean_back _ _ _ _ _ _ _ conflicts_stage) in Hc.
    apply app_candidates_unm in Hc; [|done].
    destruct (lookup_partner index a.2) as [p|] eqn:Hp; [|naive_solver].
    exists p. split; [done|]. unfold is_clean. apply bool_decide_eq_true.
    apply par_candidates_clean_conf. by apply lookup_partner_Some in Hp as [? _].
Qed.

Lemma st_paired_eq : st_paired apps pars ids = h_conf.
Proof. unfold st_paired. by rewrite pairing_spec. Qed.

Lemma valid_rows_eq :
  valid_rows apps pars ids = row_of index <$> survivors apps pars ids.
Proof. unfold valid_rows. by rewrite pairing_spec. Qed.

Lemma paired_partner_ids_eq :
  paired_partner_ids apps pars ids =
  list_to_set (omap (paired_id index) (survivors apps pars ids)).
Proof. unfold paired_partner_ids. by rewrite pairing_spec. Qed.

(** *** Unpaired partners and the final classification *)

Local Abbreviation h_unp := (st_unpaired apps pars ids).
Local Abbreviation h_appc := (st_apps_classified apps pars ids).
Local Abbreviation h_fin := (st_final apps pars ids).

Lemma unpaired_stage :
  stage ids n (f_unpaired (paired_partner_ids apps pars ids)) par_cands h_conf h_unp.
Proof.
  unfold st_unpaired. cbv zeta. rewrite st_paired_eq. apply stage_intro.
  - eapply stage_good, conflicts_stage.
  - intros o h _. unfold f_unpaired, is_clean. by destruct (_ && _).
  - apply par_candidates_NoDup.
  - intros o [Ho _]%elem_of_par_candidates. by apply all_objs_bound, kept_all.
  - intros o e _. unfold f_unpaired. case_bool_decide; simpl; [|done].
    case_bool_decide; [|done]. by intros [= <-].
Qed.

Lemma classify_own members : own_update ids (f_classify members) (classify members).
Proof.
  intros o h _. unfold classify, f_classify, is_clean.
  case_bool_decide; simpl; [|done]. by case_bool_decide.
Qed.

Lemma f_classify_guard members o cur e :
  f_classify members o cur = Some e → cur = None ∧ e ≠ None.
Proof. unfold f_classify. case_bool_decide; [|done]. by intros [= <-]. Qed.

Lemma apps_classified_stage :
  stage ids n (f_classify (valid_app_ids apps pars ids)) (app_objs apps) h_unp h_appc.
Proof.
  unfold st_apps_classified. apply stage_intro.
  - eapply stage_good, unpaired_stage.
  - apply classify_own.
  - apply app_objs_NoDup.
  - intros o Ho. by apply all_objs_bound, app_objs_all.
  - intros o e _. apply f_classify_guard.
Qed.

Lemma final_stage :
  stage ids n (f_classify (valid_par_ids apps pars ids)) (par_objs apps pars) h_appc h_fin.
Proof.
  unfold st_final. apply stage_intro.
  - eapply stage_good, apps_classified_stage.
  - apply classify_own.
  - apply par_objs_NoDup.
  - intros o Ho. by apply all_objs_bound, par_objs_all.
  - intros o e _. apply f_classify_guard.
Qed.

(** *** From stage to stage *)

Lemma apply_input_validation_codes s :
  apply_input_validation s = None ∨ apply_input_validation s = Some E1.
Proof.
  unfold apply_input_validation.
  repeat match goal with
         | |- context [if ?b then _ else _] => destruct b; auto
         | |- context [match role s with _ => _ end] => destruct (role s); auto
         end.
Qed.

(** The stages in program order, each with the loop that leads to it. *)
Lemma sticky_appc_fin a c : get_error h_appc a = Some c → get_error h_fin a = Some c.
Proof. apply stage_sticky with (1 := final_stage). Qed.
Lemma sticky_unp_fin a c : get_error h_unp a = Some c → get_error h_fin a = Some c.
Proof. intros. by apply sticky_appc_fin, (stage_sticky _ _ _ _ _ _ _ _ apps_classified_stage). Qed.
Lemma sticky_conf_fin a c : get_error h_conf a = Some c → get_error h_fin a = Some c.
Proof. intros. by apply sticky_unp_fin, (stage_sticky _ _ _ _ _ _ _ _ unpaired_stage). Qed.
Lemma sticky_unm_fin a c : get_error h_unm a = Some c → get_error h_fin a = Some c.
Proof. intros. by apply sticky_conf_fin, (stage_sticky _ _ _ _ _ _ _ _ conflicts_stage). Qed.
Lemma sticky_dedup_fin a c : get_error h_dedup a = Some c → get_error h_fin a = Some c.
Proof. intros. by apply sticky_unm_fin, (stage_sticky _ _ _ _ _ _ _ _ unmatched_stage). Qed.
Lemma sticky_inel_fin a c : get_error h_inel a = Some c → get_error h_fin a = Some c.
Proof. intros. by apply sticky_dedup_fin, (stage_sticky _ _ _ _ _ _ _ _ dedup_stage). Qed.
Lemma sticky_form_fin a c : get_error h_form a = Some c → get_error h_fin a = Some c.
Proof. intros. by apply sticky_inel_fin, (stage_sticky _ _ _ _ _ _ _ _ ineligible_stage). Qed.
Lemma sticky_val_fin a c : get_error h_val a = Some c → get_error h_fin a = Some c.
Proof. intros. by apply sticky_form_fin, (stage_sticky _ _ _ _ _ _ _ _ partner_form_stage). Qed.

Lemma clean_unp_conf a : get_error h_unp a = None → get_error h_conf a = None.
Proof. apply stage_clean_back with (1 := unpaired_stage). Qed.
Lemma clean_unp_unm a : get_error h_unp a = None → get_error h_unm a = None.
Proof. intros. by apply (stage_clean_back _ _ _ _ _ _ _ conflicts_stage), clean_unp_conf. Qed.
Lemma clean_unm_dedup a : get_error h_unm a = None → get_error h_dedup a = None.
Proof. apply stage_clean_back with (1 := unmatched_stage). Qed.
Lemma clean_dedup_inel a : get_error h_dedup a = None → get_error h_inel a = None.
Proof. apply stage_clean_back with (1 := dedup_stage). Qed.
Lemma clean_inel_form a : get_error h_inel a = None → get_error h_form a = None.
Proof. apply stage_clean_back with (1 := ineligible_stage). Qed.
Lemma clean_form_val a : get_error h_form a = None → get_error h_val a = None.
Proof. apply stage_clean_back with (1 := partner_form_stage). Qed.
Lemma clean_unp_inel a : get_error h_unp a = None → get_error h_inel a = None.
Proof. intros. by apply clean_dedup_inel, clean_unm_dedup, clean_unp_unm. Qed.
Lemma clean_conf_inel a : get_error h_conf a = None → get_error h_inel a = None.
Proof.
  intros. by apply clean_dedup_inel, clean_unm_dedup,
    (stage_clean_back _ _ _ _ _ _ _ conflicts_stage).
Qed.
Lemma clean_inel_val a : get_error h_inel a = None → get_error h_val a = None.
Proof. intros. by apply clean_form_val, clean_inel_form. Qed.

(** An object that is clean when the dedup loop has run was kept. *)
Lemma clean_dedup_kept o : o ∈ all → get_error h_dedup o.1 = None → o ∈ keep.
Proof.
  intros Ho Hc.
  destruct (candidates_kept_or_dropped o) as [?|Hd]; [|done|].
  - apply elem_of_candidates. split; [done|]. by apply clean_dedup_inel.
  - apply dropped_E3 in Hd. congruence.
Qed.

(** Before the classification there is no [S0]. *)
Lemma no_S0_before_classification a : get_error h_unp a ≠ Some S0.
Proof.
  assert (get_error h_val a ≠ Some S0) as H0.
  { destruct validated_spec as (_ & Hin & Hout & _).
    destruct (decide (a ∈ all.*1)) as [(o & -> & Ho)%list_elem_of_fmap|Hn].
    - rewrite Hin by done. by destruct (apply_input_validation_codes o.2) as [-> | ->].
    - by rewrite Hout. }
  assert (get_error h_form a ≠ Some S0) as H1.
  { destruct (stage_change _ _ _ _ _ _ a partner_form_stage)
      as [->|(_ & o & e & _ & _ & Hf & ->)]; [done|].
    unfold f_partner_form in Hf. destruct (_ && _); simplify_eq. done. }
  assert (get_error h_inel a ≠ Some S0) as H2.
  { destruct (stage_change _ _ _ _ _ _ a ineligible_stage)
      as [->|(_ & o & e & _ & _ & Hf & ->)]; [done|].
    unfold f_ineligible in Hf. destruct (_ && _); simplify_eq. done. }
  assert (get_error h_dedup a ≠ Some S0) as H3.
  { destruct (stage_change _ _ _ _ _ _ a dedup_stage)
      as [->|(_ & o & e & _ & _ & Hf & ->)]; [done|].
    unfold f_assign in Hf. simplify_eq. done. }
  assert (get_error h_unm a ≠ Some S0) as H4.
  { destruct (stage_change _ _ _ _ _ _ a unmatched_stage)
      as [->|(_ & o & e & _ & _ & Hf & ->)]; [done|].
    unfold f_unmatched in Hf. destruct (_ && _); simplify_eq. done. }
  assert (get_error h_conf a ≠ Some S0) as H5.
  { destruct (stage_change _ _ _ _ _ _ a conflicts_stage)
      as [->|(_ & o & e & _ & _ & Hf & ->)]; [done|].
    unfold f_assign in Hf. simplify_eq. done. }
  destruct (stage_change _ _ _ _ _ _ a unpaired_stage)
    as [->|(_ & o & e & _ & _ & Hf & ->)]; [done|].
  unfold f_unpaired in Hf. destruct (_ && _); simplify_eq. done.
Qed.

(** Every object ends with a code. *)
Lemma final_coded o : o ∈ all → ∃ c, get_error h_fin o.1 = Some c.
Proof.
  intros [Ho|Ho]%elem_of_app.
  - assert (∃ c, get_error h_appc o.1 = Some c) as [c Hc].
    { rewrite (stage_in _ _ _ _ _ _ apps_classified_stage) by done.
      unfold f_classify. destruct (get_error h_unp o.1) as [c|]; simpl; eauto. }
    exists c. by apply sticky_appc_fin.
  - rewrite (stage_in _ _ _ _ _ _ final_stage) by done.
    unfold f_classify. destruct (get_error h_appc o.1) as [c|]; simpl; eauto.
Qed.

(** Where an [S0] comes from. *)
Lemma final_S0_inv o :
  o ∈ all → get_error h_fin o.1 = Some S0 →
  get_error h_unp o.1 = None ∧
  ((o ∈ app_objs apps ∧ person_id o.2 ∈ valid_app_ids apps pars ids) ∨
   (o ∈ par_objs apps pars ∧ person_id o.2 ∈ valid_par_ids apps pars ids)).
Proof.
  intros [Ho|Ho]%elem_of_app HS.
  - assert (get_error h_appc o.1 = Some S0) as HS'.
    { rewrite (stage_out _ _ _ _ _ _ final_stage) in HS; [done|].
      intros (p & E & Hp)%list_elem_of_fmap. by eapply app_par_objs_disjoint. }
    rewrite (stage_in _ _ _ _ _ _ apps_classified_stage) in HS' by done.
    unfold f_classify in HS'.
    destruct (get_error h_unp o.1) as [c|] eqn:E; simpl in HS'.
    { simplify_eq. by apply no_S0_before_classification in E. }
    split; [done|]. left. split; [done|]. by case_bool_decide.
  - rewrite (stage_in _ _ _ _ _ _ final_stage) in HS by done.
    unfold f_classify in HS.
    destruct (get_error h_appc o.1) as [c|] eqn:E; simpl in HS.
    + simplify_eq. rewrite (stage_out _ _ _ _ _ _ apps_classified_stage) in E.
      * by apply no_S0_before_classification in E.
      * intros (a & E' & Ha)%list_elem_of_fmap. by eapply app_par_objs_disjoint.
    + split.
      * by apply (stage_clean_back _ _ _ _ _ _ _ apps_classified_stage).
      * right. split; [done|]. by case_bool_decide.
Qed.

(** [process_term] leaves [ineligible_ids] alone. *)
Lemma final_ineligible : ineligible h_fin = ids.
Proof. apply (stage_ids _ _ _ _ _ _ final_stage). Qed.

Lemma final_wf : heap_wf h_fin.
Proof. apply (stage_wf _ _ _ _ _ _ final_stage). Qed.

(** *** The log *)

Lemma final_log_extends : ∃ rest, writes h_fin = writes h_val ++ rest.
Proof.
  rewrite (stage_log _ _ _ _ _ _ final_stage), (stage_log _ _ _ _ _ _ apps_classified_stage),
    (stage_log _ _ _ _ _ _ unpaired_stage), (stage_log _ _ _ _ _ _ conflicts_stage),
    (stage_log _ _ _ _ _ _ unmatched_stage), (stage_log _ _ _ _ _ _ dedup_stage),
    (stage_log _ _ _ _ _ _ ineligible_stage), (stage_log _ _ _ _ _ _ partner_form_stage).
  rewrite <- !app_assoc. eauto.
Qed.

(** The code of an object is the last value assigned to it. *)
Lemma final_last_write o :
  o ∈ all → last (writes_to o.1 (writes h_fin)) = Some (get_error h_fin o.1).
Proof.
  intros Ho. destruct final_log_extends as [rest Hlog].
  destruct validated_spec as (_ & _ & _ & Hval).
  destruct (last (writes_to o.1 (writes h_fin))) as [v|] eqn:E.
  - f_equal. symmetry. by apply final_wf.
  - apply last_None, writes_to_nil_iff in E. exfalso. apply E.
    rewrite Hlog, Hval, fmap_app, elem_of_app. left.
    rewrite <- list_fmap_compose.
    by apply (list_elem_of_fmap_2 (fst ∘ (λ o : obj, (o.1, apply_input_validation o.2)))) in Ho.
Qed.

(** *** Outcomes of the deduplication and of the conflicts *)

Lemma dropped_final o : o ∈ drop_ → get_error h_fin o.1 = Some E3.
Proof. intros Ho. by apply sticky_dedup_fin, dropped_E3. Qed.

Lemma elem_of_survivors o :
  o ∈ survivors apps pars ids ↔ o ∈ app_cands ∧ get_error h_conf o.1 = None.
Proof.
  unfold survivors. rewrite list_elem_of_filter. unfold is_clean.
  rewrite bool_decide_spec. tauto.
Qed.

Lemma loser_E3 o : o ∈ losers groups → get_error h_conf o.1 = Some E3.
Proof. intros Ho. by rewrite (stage_in _ _ _ _ _ _ conflicts_stage). Qed.

Lemma not_loser_conf (o : obj) :
  o.1 ∉ (losers groups).*1 → get_error h_conf o.1 = get_error h_unm o.1.
Proof. apply (stage_out _ _ _ _ _ _ conflicts_stage). Qed.

Lemma losers_by_address o : o ∈ claim → o.1 ∈ (losers groups).*1 → o ∈ losers groups.
Proof.
  intros Ho (x & E & Hx)%list_elem_of_fmap.
  assert (o = x) as ->; [|done].
  eapply NoDup_fst_inj; [apply claimants_NoDup|done|by apply losers_claimants|done].
Qed.

(** A surviving applicant that wants a partner is the first of its rivals. *)
Lemma survivor_first o :
  o ∈ survivors apps pars ids → wants_partner o.2 = true →
  o ∈ claim ∧ head (sorted_by obj_key_lt (rivals apps pars ids o)) = Some o.
Proof.
  intros [Ho Hc]%elem_of_survivors Hw.
  assert (o ∈ claim) as Hcl.
  { apply elem_of_claimants. split_and!; [done| |done].
    by apply (stage_clean_back _ _ _ _ _ _ _ conflicts_stage). }
  split; [done|].
  destruct (decide (head (sorted_by obj_key_lt (rivals apps pars ids o)) = Some o))
    as [|Hne]; [done|].
  apply loser_iff in Hne; [|done]. apply loser_E3 in Hne. congruence.
Qed.

Lemma rivals_same (o o' : obj) :
  partner_id o.2 = partner_id o'.2 → rivals apps pars ids o = rivals apps pars ids o'.
Proof. unfold rivals. by intros ->. Qed.

Lemma survivor_partner_unique a b :
  a ∈ survivors apps pars ids → b ∈ survivors apps pars ids →
  wants_partner a.2 = true → wants_partner b.2 = true →
  partner_id a.2 = partner_id b.2 → a = b.
Proof.
  intros Ha Hb Hwa Hwb E.
  destruct (survivor_first a Ha Hwa) as [_ H1].
  destruct (survivor_first b Hb Hwb) as [_ H2].
  rewrite (rivals_same a b E) in H1. congruence.
Qed.

(** The first of the rivals: it is a least one, and it survives. *)
Lemma first_rival o :
  o ∈ claim →
  ∃ w, head (sorted_by obj_key_lt (rivals apps pars ids o)) = Some w ∧
       w ∈ rivals apps pars ids o ∧
       (∀ x, x ∈ rivals apps pars ids o → obj_key_lt x w = false) ∧
       w ∈ survivors apps pars ids.
Proof.
  intros Ho.
  assert (o ∈ rivals apps pars ids o) as Hin by by apply elem_of_rivals.
  destruct (sorted_by obj_key_lt (rivals apps pars ids o)) as [|w t] eqn:E.
  { apply sorted_by_nil_inv in E. rewrite E in Hin. by apply elem_of_nil in Hin. }
  exists w.
  assert (w ∈ rivals apps pars ids o) as Hw.
  { apply (elem_of_sorted_by obj_key_lt). rewrite E. by left. }
  split_and!; [done|done| |].
  - intros x Hx.
    apply (sorted_by_head_least obj_key_lt obj_key_lt_asym obj_key_lt_negtrans
             (rivals apps pars ids o)); [by rewrite E|done].
  - apply elem_of_rivals in Hw as [Hwc Hwp].
    pose proof Hwc as (Hwa & Hwu & _)%elem_of_claimants.
    apply elem_of_survivors. split; [done|].
    rewrite not_loser_conf; [done|]. intros Hl%losers_by_address; [|done].
    apply loser_iff in Hl; [|done]. apply Hl.
    rewrite (rivals_same w o Hwp), E. done.
Qed.

(** Every other rival gets [E3]. *)
Lemma other_rival_E3 o w x :
  o ∈ claim → head (sorted_by obj_key_lt (rivals apps pars ids o)) = Some w →
  x ∈ rivals apps pars ids o → x ≠ w →
  get_error h_conf x.1 = Some E3 ∧ get_error h_fin x.1 = Some E3.
Proof.
  intros Ho Hw [Hx Hp]%elem_of_rivals Hne.
  assert (get_error h_conf x.1 = Some E3) as H.
  { apply loser_E3, loser_iff; [done|].
    rewrite (rivals_same x o Hp), Hw. congruence. }
  split; [done|]. by apply sticky_conf_fin.
Qed.

(** The row of a survivor is emitted. *)
Lemma survivor_row o : o ∈ survivors apps pars ids → row_of index o ∈ valid_rows apps pars ids.
Proof. intros Ho. rewrite valid_rows_eq. by apply list_elem_of_fmap_2. Qed.
End stages.

(** ** The loop over the terms *)

Section run.
Context (apps pars : list Submission).

Lemma add_winners_eq (rows : list alloc_row) (ids : gset str) : add_winners rows ids = ids ∪ winners rows.
Proof.
  unfold add_winners, winners. revert ids.
  induction rows as [|r rows IH]; intros ids.
  - simpl. set_solver.
  - cbn [foldl]. rewrite IH. rewrite !fmap_cons, filter_cons.
    case_bool_decide; case_decide; try done; simpl; set_solver.
Qed.

Lemma run_fold terms :
  foldl (λ '(ids, acc) t,
           let r := run_term apps pars ids t in (tr_after r, acc ++ [r]))
        (∅, []) terms = (carried apps pars terms, run_terms apps pars terms).
Proof. unfold carried, run_terms. by destruct (foldl _ _ _). Qed.

Lemma run_terms_snoc terms t :
  run_terms apps pars (terms ++ [t]) =
  run_terms apps pars terms ++ [run_term apps pars (carried apps pars terms) t].
Proof.
  unfold run_terms at 1. rewrite foldl_app, run_fold. done.
Qed.

Lemma carried_snoc terms t :
  carried apps pars (terms ++ [t]) =
  tr_after (run_term apps pars (carried apps pars terms) t).
Proof.
  unfold carried at 1. rewrite foldl_app, run_fold. done.
Qed.

Lemma carried_nil : carried apps pars [] = ∅.
Proof. done. Qed.

Lemma run_terms_length terms : length (run_terms apps pars terms) = length terms.
Proof.
  induction terms as [|t terms IH] using rev_ind; [done|].
  rewrite run_terms_snoc, !length_app, IH. done.
Qed.

(** The [i]-th iteration runs on what the iterations before it left. *)
Lemma run_terms_lookup terms i r :
  run_terms apps pars terms !! i = Some r ↔
  ∃ t, terms !! i = Some t ∧ r = run_term apps pars (carried apps pars (take i terms)) t.
Proof.
  revert i r. induction terms as [|t terms IH] using rev_ind; intros i r.
  - change (run_terms apps pars []) with (@nil term_result).
    rewrite lookup_nil. split; [done|]. by intros (t & H & _).
  - rewrite run_terms_snoc.
    destruct (decide (i < length terms)%nat) as [Hlt|Hge].
    + rewrite lookup_app_l by by rewrite run_terms_length.
      rewrite IH, lookup_app_l by done. rewrite take_app_le by lia. done.
    + rewrite lookup_app_r by (rewrite run_terms_length; lia).
      rewrite lookup_app_r by lia. rewrite run_terms_length.
      destruct (i - length terms)%nat as [|k] eqn:E; simpl.
      * assert (i = length terms) as -> by lia.
        rewrite take_app_length. split.
        -- intros [= <-]. by exists t.
        -- intros (t' & [= <-] & ->). done.
      * rewrite !lookup_nil. split; [done|]. by intros (? & ? & _).
Qed.

Lemma run_term_before ids t : tr_before (run_term apps pars ids t) = ids.
Proof. unfold run_term, process_term. done. Qed.

Lemma run_term_term ids t : tr_term (run_term apps pars ids t) = t.
Proof. unfold run_term, process_term. done. Qed.

Lemma run_term_returned ids t : tr_returned (run_term apps pars ids t) = ids.
Proof. unfold run_term, process_term. simpl. apply final_ineligible. Qed.

Lemma run_term_after ids t :
  tr_after (run_term apps pars ids t) = ids ∪ winners (tr_rows (run_term apps pars ids t)).
Proof.
  unfold run_term, process_term. simpl. rewrite add_winners_eq, final_ineligible. done.
Qed.

Lemma run_term_outputs ids t :
  (tr_apps (run_term apps pars ids t), tr_pars (run_term apps pars ids t),
   tr_rows (run_term apps pars ids t)) =
  process_term t (filter (λ s, term s = t) apps) (filter (λ s, term s = t) pars) ids.
Proof. unfold run_term, process_term. done. Qed.

(** The set only grows along the run. *)
Lemma carried_mono terms i j :
  (i ≤ j)%nat → carried apps pars (take i terms) ⊆ carried apps pars (take j terms).
Proof.
  induction 1 as [|j Hle IH]; [done|].
  destruct (terms !! j) as [t|] eqn:E.
  - rewrite (take_S_r _ _ _ E), carried_snoc, run_term_after. set_solver.
  - rewrite (take_ge terms (S j)) by (apply lookup_ge_None in E; lia).
    rewrite (take_ge terms j) in IH by (by apply lookup_ge_None in E). done.
Qed.
End run.

Lemma py_range_lookup n i t : py_range n !! i = Some t → t = Z.of_nat i.
Proof.
  unfold py_range. rewrite list_lookup_fmap. intros H.
  destruct (seq 0 (Z.to_nat n) !! i) as [k|] eqn:E; simplify_eq/=.
  apply lookup_seq in E as [-> _]. done.
Qed.

(** ** Rows *)

Lemma filter_fmap {A B} (f : A → B) (P : B → Prop) `{∀ x, Decision (P x)} (l : list A) :
  filter P (f <$> l) = f <$> filter (λ x, P (f x)) l.
Proof.
  induction l as [|x l IH]; [done|].
  rewrite fmap_cons, !filter_cons, IH. by destruct (decide (P (f x))).
Qed.

Section rows.
Context (apps pars : list Submission) (ids : gset str).

Local Abbreviation index := (partner_by_id apps pars ids).
Local Abbreviation surv := (survivors apps pars ids).

Lemma row_of_app_id (a : obj) : row_app_id (row_of index a) = person_id a.2.
Proof. unfold row_of. by destruct (if wants_partner a.2 then _ else _). Qed.

Lemma row_of_floor (a : obj) : row_floor (row_of index a) = floor_or_0 a.2.
Proof. unfold row_of. by destruct (if wants_partner a.2 then _ else _). Qed.

(** The row of a survivor that wants a partner names an indexed partner. *)
Lemma survivor_partner a :
  a ∈ surv → wants_partner a.2 = true →
  ∃ p, p ∈ par_candidates apps pars ids ∧ partner_id a.2 = Some (person_id p.2) ∧
       row_of index a =
         (person_id a.2, person_name a.2, person_id p.2, person_name p.2, floor_or_0 a.2).
Proof.
  intros Ha Hw. destruct (survivor_first _ _ _ _ Ha Hw) as [Hc _].
  apply elem_of_claimants in Hc as (Hac & Hu & _).
  apply (app_candidates_unm apps pars ids) in Hu; [|done].
  destruct (lookup_partner index a.2) as [p|] eqn:Hp; [|naive_solver].
  exists p. pose proof Hp as [? ?]%lookup_partner_Some.
  split_and!; [done..|]. unfold row_of. by rewrite Hw, Hp.
Qed.

Lemma survivor_solo a :
  wants_partner a.2 = false →
  row_of index a = (person_id a.2, person_name a.2, [], [], floor_or_0 a.2).
Proof. intros Hw. unfold row_of. by rewrite Hw. Qed.

Lemma survivor_kept a : a ∈ surv → a ∈ kept apps pars ids ∧ role a.2 = App.
Proof. by intros [?%elem_of_app_candidates _]%elem_of_survivors. Qed.

Lemma survivor_validated a : a ∈ surv → apply_input_validation a.2 = None.
Proof.
  intros Ha. pose proof Ha as [Hk _]%survivor_kept.
  destruct (validated_spec apps pars ids) as (_ & Hin & _).
  rewrite <- Hin by by apply (kept_all apps pars ids).
  apply clean_inel_val. by apply elem_of_candidates, kept_candidates.
Qed.

Lemma par_candidate_validated p :
  p ∈ par_candidates apps pars ids → apply_input_validation p.2 = None.
Proof.
  intros [Hk _]%elem_of_par_candidates.
  destruct (validated_spec apps pars ids) as (_ & Hin & _).
  rewrite <- Hin by by apply (kept_all apps pars ids).
  apply clean_inel_val. by apply elem_of_candidates, kept_candidates.
Qed.

Lemma validated_person s :
  apply_input_validation s = None →
  person_id s ≠ [] ∧ person_name s ≠ [] ∧ is_valid_student_id (person_id s) = true.
Proof.
  unfold apply_input_validation.
  case_bool_decide as H1; [done|]. case_bool_decide as H2; [done|]. simpl.
  destruct (is_valid_student_id (person_id s)); [|done]. done.
Qed.

Lemma survivors_NoDup : NoDup surv.
Proof.
  eapply NoDup_fmap_1. apply filter_fst_NoDup, app_candidates_NoDup.
Qed.

Lemma survivors_person_id_inj a b :
  a ∈ surv → b ∈ surv → person_id a.2 = person_id b.2 → a = b.
Proof.
  intros [Ha _]%survivor_kept [Hb _]%survivor_kept. by apply (kept_person_id_inj apps pars ids).
Qed.

(** No person is named twice by the rows. *)
Lemma valid_rows_NoDup :
  NoDup ((row_app_id <$> valid_rows apps pars ids) ++
         filter (λ p, p ≠ []) (row_par_id <$> valid_rows apps pars ids)).
Proof.
  rewrite valid_rows_eq, <- !list_fmap_compose, filter_fmap.
  apply NoDup_app. split_and!.
  - apply NoDup_fmap_2_strong; [|apply survivors_NoDup].
    intros a b Ha Hb. simpl. rewrite !row_of_app_id. by apply survivors_person_id_inj.
  - intros x (a & -> & Ha)%list_elem_of_fmap (b & E & [Hne Hb]%list_elem_of_filter)%list_elem_of_fmap.
    simpl in *. rewrite row_of_app_id in E.
    destruct (wants_partner b.2) eqn:Hw.
    + destruct (survivor_partner b Hb Hw) as (p & Hp & _ & Hrow).
      rewrite Hrow in E. unfold row_par_id in E. simpl in E.
      apply elem_of_par_candidates in Hp as [Hp Rp].
      pose proof Ha as [Hak Ra]%survivor_kept.
      assert (a = p) as -> by by apply (kept_person_id_inj apps pars ids).
      congruence.
    + rewrite (survivor_solo b Hw) in Hne. by unfold row_par_id in Hne.
  - apply NoDup_fmap_2_strong; [|apply NoDup_filter, survivors_NoDup].
    intros a b [Hna Ha]%list_elem_of_filter [Hnb Hb]%list_elem_of_filter E. simpl in *.
    destruct (wants_partner a.2) eqn:Hwa;
      [|rewrite (survivor_solo a Hwa) in Hna; by unfold row_par_id in Hna].
    destruct (wants_partner b.2) eqn:Hwb;
      [|rewrite (survivor_solo b Hwb) in Hnb; by unfold row_par_id in Hnb].
    destruct (survivor_partner a Ha Hwa) as (p & _ & Hpa & Hra).
    destruct (survivor_partner b Hb Hwb) as (q & _ & Hpb & Hrb).
    rewrite Hra, Hrb in E. unfold row_par_id in E. simpl in E.
    apply (survivor_partner_unique apps pars ids); [done..|]. congruence.
Qed.

Lemma read_back_lookup (objs : list obj) i s :
  read_back apps pars ids objs !! i = Some s ↔
  ∃ o, objs !! i = Some o ∧ s = with_error (get_error (st_final apps pars ids) o.1) o.2.
Proof.
  unfold read_back. cbv zeta. rewrite list_lookup_fmap.
  destruct (objs !! i) as [o|]; simpl; [|naive_solver].
  split; [intros [= <-]; eauto|]. by intros (? & [= <-] & ->).
Qed.

Lemma read_back_all :
  read_back apps pars ids (app_objs apps) ++ read_back apps pars ids (par_objs apps pars) =
  read_back apps pars ids (all_objs apps pars).
Proof. unfold read_back, all_objs. cbv zeta. by rewrite fmap_app. Qed.

Lemma all_objs_lookup i (o : obj) : all_objs apps pars !! i = Some o → o.1 = i.
Proof.
  intros H. pose proof (list_lookup_fmap fst (all_objs apps pars) i) as H'.
  rewrite H, all_objs_fst in H'. simpl in H'. by apply lookup_seq in H' as [-> _].
Qed.
End rows.

(** ** The outcome of a term *)

Lemma read_back_coded (apps pars : list Submission) (ids : gset str) (l : list Submission) k :
  (∀ i s, l !! i = Some s → ((k + i)%nat, s) ∈ all_objs apps pars) →
  Forall2 (λ s s', ∃ c : outcome, s' = with_error (Some c) s) l
    (read_back apps pars ids (imap (λ i s, ((k + i)%nat, s)) l)).
Proof.
  intros Hall. apply Forall2_same_length_lookup_2.
  { unfold read_back. cbv zeta. by rewrite length_fmap, length_imap. }
  intros i s s' Hs Hs'. apply read_back_lookup in Hs' as (o & Ho & ->).
  rewrite list_lookup_imap, Hs in Ho. simplify_eq/=.
  destruct (final_coded apps pars ids _ (Hall _ _ Hs)) as [c Hc]. simpl in Hc.
  exists c. by rewrite Hc.
Qed.

(** C6: when [process_term] returns, every submission of the term carries
    one code of [S0], [E1], [E2], [E3], which is the last value assigned to
    it; and once a code (so in particular [S0]) has been assigned to a
    submission, nothing is assigned to that submission again. *)
Theorem every_submission_ends_with_one_code
    (t : Z) (apps pars : list Submission) (ids : gset str) :
  Forall2 (λ s s', ∃ c : outcome, s' = with_error (Some c) s)
          apps (process_term t apps pars ids).1.1 ∧
  Forall2 (λ s s', ∃ c : outcome, s' = with_error (Some c) s)
          pars (process_term t apps pars ids).1.2 ∧
  (∀ o : obj, o ∈ all_objs apps pars →
     last (writes_to o.1 (writes (st_final apps pars ids))) =
       Some (get_error (st_final apps pars ids) o.1)) ∧
  (∀ pre a post, writes (st_final apps pars ids) = pre ++ (a, Some S0) :: post →
     a ∉ post.*1) ∧
  codes_final (writes (st_final apps pars ids)).
Proof.
  unfold process_term, process_term_result. simpl. split_and!.
  - apply (read_back_coded apps pars ids apps 0). intros i s Hs. simpl.
    by apply app_objs_all, elem_of_app_objs.
  - apply (read_back_coded apps pars ids pars (length apps)). intros i s Hs.
    apply par_objs_all, elem_of_par_objs. by exists i.
  - apply final_last_write.
  - intros pre a post. apply final_wf.
  - apply final_wf.
Qed.


(** C4: among the surviving applicants that claim one partner (the group of
    [o] in [applicants_by_partner]) there is one, a least one in the order
    (timestamp, sequence index), that keeps the claim: it stays clean and its
    row, with that partner, is emitted; every other member of the group gets
    [E3].  Of two members with different timestamps the later one gets [E3],
    and the earlier one is the one paired when the group has no third
    member. *)
Theorem conflict_keeps_earliest_applicant
    (apps pars : list Submission) (ids : gset str) (o : obj) :
  o ∈ claimants apps pars ids →
  (partner_id o.2, rivals apps pars ids o) ∈ applicants_by_partner apps pars ids ∧
  ∃ w : obj,
    w ∈ rivals apps pars ids o ∧
    (∀ x : obj, x ∈ rivals apps pars ids o → key_lt (sort_key x.2) (sort_key w.2) = false) ∧
    get_error (st_conflicts apps pars ids) w.1 = None ∧
    row_of (partner_by_id apps pars ids) w ∈ valid_rows apps pars ids ∧
    row_app_id (row_of (partner_by_id apps pars ids) w) = person_id w.2 ∧
    partner_id o.2 = Some (row_par_id (row_of (partner_by_id apps pars ids) w)) ∧
    (∀ x : obj, x ∈ rivals apps pars ids o → x ≠ w →
       get_error (st_conflicts apps pars ids) x.1 = Some E3 ∧
       get_error (st_final apps pars ids) x.1 = Some E3) ∧
    (∀ x y : obj, x ∈ rivals apps pars ids o → y ∈ rivals apps pars ids o →
       dt_lt (timestamp x.2) (timestamp y.2) = true →
       get_error (st_final apps pars ids) y.1 = Some E3 ∧
       ((∀ z : obj, z ∈ rivals apps pars ids o → z = x ∨ z = y) → w = x)).
Proof.
  intros Ho. split; [by apply rivals_group|].
  destruct (first_rival apps pars ids o Ho) as (w & Hhead & Hw & Hmin & Hs).
  exists w.
  pose proof Hw as [Hwc Hwp]%elem_of_rivals.
  pose proof Hwc as (_ & _ & Hww)%elem_of_claimants.
  destruct (survivor_partner apps pars ids w Hs Hww) as (p & Hp & Hpid & Hrow).
  split_and!.
  - done.
  - done.
  - by apply elem_of_survivors in Hs as [_ ?].
  - by apply survivor_row.
  - apply row_of_app_id.
  - rewrite Hrow. unfold row_par_id. simpl. congruence.
  - intros x Hx Hne. by apply (other_rival_E3 apps pars ids o w).
  - intros x y Hx Hy Hlt.
    assert (y ≠ w) as Hyw.
    { intros ->. specialize (Hmin x Hx).
      assert (key_lt (sort_key x.2) (sort_key w.2) = true) as Hlt'
        by by apply key_lt_earlier.
      unfold obj_key_lt in Hmin. congruence. }
    split.
    + by apply (other_rival_E3 apps pars ids o w y).
    + intros Honly. by destruct (Honly w Hw) as [->| ->].
Qed.

(** C10: in the rows of a term no person id occurs twice, the applicant
    column and the non-empty entries of the partner column taken together;
    and of the submissions that the term hands back, no two with the same
    person id have [S0]. *)
Theorem one_acceptance_per_person
    (t : Z) (apps pars : list Submission) (ids : gset str) :
  NoDup ((row_app_id <$> (process_term t apps pars ids).2) ++
         filter (λ p, p ≠ []) (row_par_id <$> (process_term t apps pars ids).2)) ∧
  (∀ i j s s',
     ((process_term t apps pars ids).1.1 ++ (process_term t apps pars ids).1.2) !! i = Some s →
     ((process_term t apps pars ids).1.1 ++ (process_term t apps pars ids).1.2) !! j = Some s' →
     error s = Some S0 → error s' = Some S0 → person_id s = person_id s' → i = j).
Proof.
  unfold process_term, process_term_result. cbn [fst snd]. split.
  - apply valid_rows_NoDup.
  - rewrite read_back_all. intros i j s s' Hs Hs' He He' Hp.
    apply read_back_lookup in Hs as (o & Ho & ->), Hs' as (o' & Ho' & ->).
    simpl in *.
    pose proof (list_elem_of_lookup_2 _ _ _ Ho) as Hin.
    pose proof (list_elem_of_lookup_2 _ _ _ Ho') as Hin'.
    destruct (final_S0_inv apps pars ids o Hin He) as [Hc _].
    destruct (final_S0_inv apps pars ids o' Hin' He') as [Hc' _].
    assert (o ∈ kept apps pars ids) as Hk
      by by apply clean_dedup_kept, clean_unm_dedup, clean_unp_unm.
    assert (o' ∈ kept apps pars ids) as Hk'
      by by apply clean_dedup_kept, clean_unm_dedup, clean_unp_unm.
    assert (o = o') as <- by by apply (kept_person_id_inj apps pars ids).
    apply all_objs_lookup in Ho, Ho'. congruence.
Qed.

(** ** Well-formed rows, and the verdict on an ineligible person *)

Lemma truthy_Some (o : option str) : truthy o = true → ∃ s, o = Some s ∧ s ≠ [].
Proof. destruct o as [[|c s]|]; try done. intros _. by eexists. Qed.

(** What a clean applicant has passed. *)
Lemma validated_applicant s :
  apply_input_validation s = None → role s = App →
  floor s ≠ None ∧
  (wants_partner s = true →
     ∃ p, partner_id s = Some p ∧ p ≠ [] ∧ is_valid_student_id p = true).
Proof.
  unfold apply_input_validation, wants_partner. intros H Hr. rewrite Hr in H.
  repeat match type of H with
         | (if ?b then _ else _) = _ => destruct b eqn:?; try done
         end.
  all: split; [by apply bool_decide_eq_false in Heqb4|].
  all: intros Hw; try done.
  all: repeat match goal with
         | H : negb _ = false |- _ => apply negb_false_iff in H
         | H : _ || _ = false |- _ => apply orb_false_iff in H as [? ?]
         end.
  all: match goal with H : truthy (partner_id _) = true |- _ =>
         apply truthy_Some in H as (p & Hp & Hne) end.
  all: exists p; rewrite Hp in *; simpl in *; done.
Qed.

Lemma parse_floor_range r f : parse_floor r = Some f → 2 ≤ f ≤ 6.
Proof.
  unfold parse_floor. case_bool_decide; [done|].
  destruct (py_int _) as [fl|]; [|done].
  case_bool_decide; [done|]. intros [= <-]. lia.
Qed.

Lemma with_error_validation e s :
  apply_input_validation (with_error e s) = apply_input_validation s.
Proof. by destruct s. Qed.

Lemma all_partner_ids_ext (l1 l2 : list Submission) :
  person_id <$> l1 = person_id <$> l2 → all_partner_ids l1 = all_partner_ids l2.
Proof.
  unfold all_partner_ids. revert l2.
  induction l1 as [|x l1 IH]; intros [|y l2]; try done.
  rewrite !fmap_cons. intros [= Hxy Hl]. rewrite !filter_cons, Hxy.
  case_decide; rewrite ?fmap_cons, ?list_to_set_cons, ?Hxy, (IH l2 Hl); done.
Qed.

Section verdicts.
Context (apps pars : list Submission) (ids : gset str).

Lemma valid_rows_well_formed row :
  Forall floor_in_range (apps ++ pars) →
  row ∈ valid_rows apps pars ids →
  2 ≤ row_floor row ≤ 6 ∧
  row_app_id row ≠ [] ∧ is_valid_student_id (row_app_id row) = true ∧
  ((row_par_id row = [] ∧ row_par_name row = []) ∨
   (row_par_id row ≠ [] ∧ row_par_name row ≠ [] ∧
    is_valid_student_id (row_par_id row) = true)).
Proof.
  intros Hfl. rewrite valid_rows_eq. intros (a & -> & Ha)%list_elem_of_fmap.
  pose proof (survivor_validated apps pars ids a Ha) as Hv.
  pose proof (survivor_kept apps pars ids a Ha) as [Hk Hr].
  destruct (validated_person a.2 Hv) as (Hid & _ & Hvalid).
  destruct (validated_applicant a.2 Hv Hr) as [Hf Hwants].
  rewrite row_of_app_id, row_of_floor. split_and!; [..|done|done|].
  - assert (a.2 ∈ apps ++ pars) as Hin.
    { rewrite <- all_objs_snd. apply list_elem_of_fmap_2. apply (kept_all apps pars ids), Hk. }
    rewrite Forall_forall in Hfl. specialize (Hfl _ Hin).
    unfold floor_in_range, floor_or_0 in *. destruct (floor a.2); [simpl; lia|done].
  - assert (a.2 ∈ apps ++ pars) as Hin.
    { rewrite <- all_objs_snd. apply list_elem_of_fmap_2. apply (kept_all apps pars ids), Hk. }
    rewrite Forall_forall in Hfl. specialize (Hfl _ Hin).
    unfold floor_in_range, floor_or_0 in *. destruct (floor a.2); [simpl; lia|done].
  - destruct (wants_partner a.2) eqn:Hw.
    + destruct (survivor_partner apps pars ids a Ha Hw) as (p & Hp & Hpid & ->).
      right. unfold row_par_id, row_par_name. simpl.
      apply par_candidate_validated in Hp.
      by destruct (validated_person p.2 Hp) as (? & ? & ?).
    + left. by rewrite (survivor_solo apps pars ids a Hw).
Qed.

(** The slot after the partner-form check is the verdict of the Validator. *)
Lemma partner_form_verdict (o : obj) :
  (o ∈ app_objs apps →
     get_error (st_partner_form apps pars ids) o.1 = validator_outcome pars true o.2) ∧
  (o ∈ par_objs apps pars →
     get_error (st_partner_form apps pars ids) o.1 = validator_outcome pars false o.2).
Proof.
  destruct (validated_spec apps pars ids) as (_ & Hin & _).
  unfold validator_outcome. split; intros Ho.
  - rewrite (stage_in _ _ _ _ _ _ (partner_form_stage apps pars ids)) by done.
    rewrite Hin by by apply app_objs_all. unfold f_partner_form.
    destruct (apply_input_validation o.2); simpl; [done|].
    by destruct (_ && _).
  - rewrite (stage_out _ _ _ _ _ _ (partner_form_stage apps pars ids)).
    + rewrite Hin by by apply par_objs_all. by destruct (apply_input_validation o.2).
    + intros (a & E & Ha)%list_elem_of_fmap. by eapply app_par_objs_disjoint.
Qed.

(** A submission of a person in [ineligible_ids] ends with the code of the
    Validator, or else with [E2]. *)
Lemma ineligible_verdict (o : obj) :
  o ∈ all_objs apps pars → person_id o.2 ∈ ids →
  get_error (st_final apps pars ids) o.1 =
    Some (default E2 (get_error (st_partner_form apps pars ids) o.1)).
Proof.
  intros Ho Hid. apply sticky_inel_fin.
  rewrite (stage_in _ _ _ _ _ _ (ineligible_stage apps pars ids)) by done.
  unfold f_ineligible. rewrite (bool_decide_eq_true_2 _ Hid).
  by destruct (get_error (st_partner_form apps pars ids) o.1).
Qed.

Lemma read_back_person_ids (objs : list obj) :
  person_id <$> read_back apps pars ids objs = person_id <$> objs.*2.
Proof.
  unfold read_back. cbv zeta. rewrite <- !list_fmap_compose.
  apply list_fmap_ext. by intros i [a []] _.
Qed.

Lemma all_partner_ids_read_back :
  all_partner_ids (read_back apps pars ids (par_objs apps pars)) = all_partner_ids pars.
Proof.
  apply all_partner_ids_ext.
  rewrite read_back_person_ids. unfold par_objs. by rewrite imap_offset_snd.
Qed.
End verdicts.

(** ** The run *)

Lemma run_terms_before apps pars terms i r :
  run_terms apps pars terms !! i = Some r →
  tr_before r = carried apps pars (take i terms).
Proof. intros (t & _ & ->)%run_terms_lookup. apply run_term_before. Qed.

Lemma carried_take_S apps pars terms k r :
  run_terms apps pars terms !! k = Some r →
  carried apps pars (take (S k) terms) = tr_after r.
Proof.
  intros (t & Ht & ->)%run_terms_lookup.
  by rewrite (take_S_r _ _ _ Ht), carried_snoc.
Qed.

Lemma run_terms_after_before apps pars terms i j r r' :
  (i < j)%nat → run_terms apps pars terms !! i = Some r →
  run_terms apps pars terms !! j = Some r' → tr_after r ⊆ tr_before r'.
Proof.
  intros Hlt Hr Hr'. rewrite (run_terms_before _ _ _ _ _ Hr'), <- (carried_take_S _ _ _ _ _ Hr).
  apply carried_mono. lia.
Qed.

Lemma main_loop_results apps pars results :
  main_loop apps pars = Some results →
  ∃ n, results = run_terms apps pars (py_range n).
Proof.
  unfold main_loop. destruct (py_max _) as [m|]; [|done]. intros [= <-]. eauto.
Qed.

(** C8: along the loop of [main], each term starts from the set that the
    term before it left (the first from the empty set); [process_term]
    hands the set back as it got it, so that it decides with the set as it
    stood when the term began; afterwards the set is extended, once, by the
    applicant ids and the non-empty partner ids of the rows of the term; and
    from term to term the set never loses an element. *)
Theorem ineligible_ids_extended_once_per_term
    (apps pars : list Submission) (results : list term_result) :
  main_loop apps pars = Some results →
  (∀ i r, results !! i = Some r →
     tr_term r = Z.of_nat i ∧
     tr_before r = match i with
                   | O => ∅
                   | S k => from_option tr_after ∅ (results !! k)
                   end ∧
     (tr_apps r, tr_pars r, tr_rows r) =
       process_term (tr_term r) (filter (λ s, term s = tr_term r) apps)
                    (filter (λ s, term s = tr_term r) pars) (tr_before r) ∧
     tr_returned r = tr_before r ∧
     tr_after r = tr_before r ∪ winners (tr_rows r)) ∧
  (∀ i j r r', (i ≤ j)%nat → results !! i = Some r → results !! j = Some r' →
     tr_before r ⊆ tr_before r' ∧ tr_after r ⊆ tr_after r').
Proof.
  intros [n ->]%main_loop_results. split.
  - intros i r Hr. pose proof Hr as (t & Ht & ->)%run_terms_lookup.
    rewrite run_term_term, run_term_before, run_term_returned, run_term_outputs,
      run_term_after.
    split_and!; [by apply py_range_lookup in Ht| |done..].
    destruct i as [|k]; [done|].
    destruct (run_terms apps pars (py_range n) !! k) as [r0|] eqn:E.
    + simpl. by apply carried_take_S.
    + apply lookup_ge_None in E. apply lookup_lt_Some in Ht.
      rewrite run_terms_length in E. lia.
  - intros i j r r' Hle Hr Hr'.
    rewrite (run_terms_before _ _ _ _ _ Hr), (run_terms_before _ _ _ _ _ Hr').
    rewrite <- (carried_take_S _ _ _ _ _ Hr), <- (carried_take_S _ _ _ _ _ Hr').
    split; apply carried_mono; lia.
Qed.

Lemma with_error_verdict pars' e is_app s :
  validator_outcome pars' is_app (with_error e s) = validator_outcome pars' is_app s.
Proof. by destruct s. Qed.

Lemma validator_outcome_ext l1 l2 is_app s :
  all_partner_ids l1 = all_partner_ids l2 →
  validator_outcome l1 is_app s = validator_outcome l2 is_app s.
Proof. unfold validator_outcome. by intros ->. Qed.

(** C2 (as the code has it): a person in a row of term [t] who submits again
    in a later term [t'] gets there the code of the Validator when the
    Validator rejects the submission (which is [E1]), and [E2] when it does
    not; so never [E3] or [S0]. *)
Theorem accepted_person_later_gets_E1_or_E2
    (apps pars : list Submission) (results : list term_result)
    (r r' : term_result) (s : Submission) :
  main_loop apps pars = Some results →
  r ∈ results → r' ∈ results → tr_term r < tr_term r' →
  person_id s ∈ winners (tr_rows r) →
  (s ∈ tr_apps r' →
     error s = Some (default E2 (validator_outcome (tr_pars r') true s))) ∧
  (s ∈ tr_pars r' →
     error s = Some (default E2 (validator_outcome (tr_pars r') false s))) ∧
  (s ∈ tr_apps r' ++ tr_pars r' → error s = Some E1 ∨ error s = Some E2).
Proof.
  intros [n ->]%main_loop_results [i Hr]%list_elem_of_lookup [j Hr']%list_elem_of_lookup Hlt Hp.
  assert (person_id s ∈ tr_before r') as Hin.
  { eapply (run_terms_after_before apps pars _ i j); [|done..|].
    - pose proof Hr as (t & Ht%py_range_lookup & ->)%run_terms_lookup.
      pose proof Hr' as (t' & Ht'%py_range_lookup & ->)%run_terms_lookup.
      rewrite !run_term_term in Hlt. lia.
    - pose proof Hr as (t & _ & ->)%run_terms_lookup.
      rewrite run_term_after. set_solver. }
  pose proof Hr' as (t' & _ & Heq)%run_terms_lookup.
  rewrite (run_terms_before _ _ _ _ _ Hr') in Hin.
  set (ids := carried apps pars (take j (py_range n))) in *.
  set (tapps := filter (λ s, term s = t') apps) in *.
  set (tpars := filter (λ s, term s = t') pars) in *.
  assert (tr_apps r' = read_back tapps tpars ids (app_objs tapps)) as Ha by by rewrite Heq.
  assert (tr_pars r' = read_back tapps tpars ids (par_objs tapps tpars)) as Hb by by rewrite Heq.
  assert (s ∈ tr_apps r' →
          error s = Some (default E2 (validator_outcome (tr_pars r') true s))) as H1.
  { rewrite Ha, Hb. intros [k (o & Ho & ->)%read_back_lookup]%list_elem_of_lookup.
    apply list_elem_of_lookup_2 in Ho. simpl in *.
    rewrite with_error_verdict.
    rewrite (validator_outcome_ext _ tpars) by apply all_partner_ids_read_back.
    destruct (partner_form_verdict tapps tpars ids o) as [Hv _]. rewrite <- (Hv Ho).
    apply ineligible_verdict; [by apply app_objs_all|done]. }
  assert (s ∈ tr_pars r' →
          error s = Some (default E2 (validator_outcome (tr_pars r') false s))) as H2.
  { rewrite Hb. intros [k (o & Ho & ->)%read_back_lookup]%list_elem_of_lookup.
    apply list_elem_of_lookup_2 in Ho. simpl in *.
    rewrite with_error_verdict.
    rewrite (validator_outcome_ext _ tpars) by apply all_partner_ids_read_back.
    destruct (partner_form_verdict tapps tpars ids o) as [_ Hv]. rewrite <- (Hv Ho).
    apply ineligible_verdict; [by apply par_objs_all|done]. }
  split_and!; [done..|].
  assert (∀ b, validator_outcome (tr_pars r') b s = None ∨
               validator_outcome (tr_pars r') b s = Some E1) as Hcodes.
  { intros b. unfold validator_outcome.
    destruct (apply_input_validation_codes s) as [-> | ->]; [|by right].
    destruct (_ && _); auto. }
  intros [Hs|Hs]%elem_of_app.
  - rewrite (H1 Hs). destruct (Hcodes true) as [-> | ->]; auto.
  - rewrite (H2 Hs). destruct (Hcodes false) as [-> | ->]; auto.
Qed.

(** ** Building the submissions *)

Lemma dt_lt_asym a b : dt_lt a b = true → dt_lt b a = false.
Proof.
  unfold dt_lt, dt_compare. rewrite bool_decide_eq_true, bool_decide_eq_false.
  intros H. by rewrite tuple_compare_antisym, H.
Qed.

Lemma dt_lt_negtrans a b c : dt_lt a c = true → dt_lt a b = true ∨ dt_lt b c = true.
Proof.
  unfold dt_lt, dt_compare. rewrite !bool_decide_eq_true. intros H.
  destruct (tuple_compare (dt_fields a) (dt_fields b)) eqn:E; [|by left|].
  - apply tuple_compare_eq in E. right. by rewrite <- E.
  - right. eapply tuple_compare_lt_trans; [|done].
    by rewrite tuple_compare_antisym, E.
Qed.

(** [min] returns an element that no element is below. *)
Lemma py_min_spec l m :
  py_min l = Some m → m ∈ l ∧ ∀ d, d ∈ l → dt_lt d m = false.
Proof.
  destruct l as [|d0 l]; [done|]. simpl. intros [= <-].
  assert (∀ (seen : list datetime) m0,
            m0 ∈ seen → (∀ d, d ∈ seen → dt_lt d m0 = false) →
            foldl (λ m x, if dt_lt x m then x else m) m0 l ∈ seen ++ l ∧
            ∀ d, d ∈ seen ++ l →
                 dt_lt d (foldl (λ m x, if dt_lt x m then x else m) m0 l) = false) as H.
  { induction l as [|x l IH]; intros seen m0 Hm0 Hmin.
    - simpl. rewrite app_nil_r. done.
    - cbn [foldl]. replace (seen ++ x :: l) with ((seen ++ [x]) ++ l)
        by by rewrite <- app_assoc.
      apply IH.
      + destruct (dt_lt x m0); set_solver.
      + intros d [Hd| ->%list_elem_of_singleton]%elem_of_app.
        * destruct (dt_lt x m0) eqn:E; [|by apply Hmin].
          destruct (dt_lt d x) eqn:E'; [|done].
          destruct (dt_lt_negtrans d m0 x E') as [H|H].
          -- by rewrite Hmin in H.
          -- apply dt_lt_asym in E. congruence.
        * destruct (dt_lt x m0) eqn:E; [|done].
          destruct (dt_lt x x) eqn:E'; [|done]. pose proof (dt_lt_asym _ _ E'). congruence. }
  apply (H [d0] d0); [by left|].
  intros d ->%list_elem_of_singleton.
  destruct (dt_lt d0 d0) eqn:E; [|done]. apply dt_lt_asym in E as E'. congruence.
Qed.




Section building.
Variable parse_timestamp : str → option datetime.

Lemma build_app_inv start i r s :
  build_app parse_timestamp start i r = Some s →
  row_timestamp parse_timestamp r = Some (timestamp s) ∧
  term s = term_index (timestamp s) start ∧ role s = App ∧
  row_index s = Z.of_nat i ∧ floor s = parse_floor r ∧ error s = None.
Proof.
  unfold build_app. destruct (row_timestamp parse_timestamp r) as [ts|]; [|done].
  intros [= <-]. done.
Qed.

Lemma build_par_inv start i r s :
  build_par parse_timestamp start i r = Some s →
  row_timestamp parse_timestamp r = Some (timestamp s) ∧
  term s = term_index (timestamp s) start ∧ role s = Par ∧
  row_index s = Z.of_nat i ∧ floor s = None ∧ error s = None.
Proof.
  unfold build_par. destruct (row_timestamp parse_timestamp r) as [ts|]; [|done].
  intros [= <-]. done.
Qed.


Lemma built_inv (f : nat → Row → option Submission) (rows : list Row)
    (subs : list Submission) (P : Submission → Prop) :
  (∀ i r s, f i r = Some s → P s) →
  mapM id (imap f rows) = Some subs → Forall P subs.
Proof.
  intros Hf Hm. apply mapM_Some_1 in Hm. apply Forall_lookup. intros i s Hs.
  destruct (Forall2_lookup_r _ _ _ _ _ Hm Hs) as (x & Hx & Hxs).
  apply list_lookup_imap_Some in Hx as (r & _ & ->). by eapply Hf.
Qed.

Lemma main_build_inv (app_rows par_rows : list Row) start apps pars :
  main_build parse_timestamp app_rows par_rows = Some (start, apps, pars) →
  Forall (λ s, term s = term_index (timestamp s) start ∧ role s = App ∧
               floor_in_range s) apps ∧
  Forall (λ s, term s = term_index (timestamp s) start ∧ role s = Par ∧
               floor_in_range s) pars.
Proof.
  unfold main_build, build_submissions.
  destruct (mapM _ (app_rows ++ par_rows)) as [all_ts|]; [|done]. simpl.
  destruct (py_min all_ts) as [m|]; [|done]. simpl.
  destruct (term_start_from_timestamp m) as [st|]; [|done]. simpl.
  destruct (mapM id (imap (build_app parse_timestamp st) app_rows)) as [a|] eqn:Ea; [|done].
  simpl.
  destruct (mapM id (imap (build_par parse_timestamp st) par_rows)) as [p|] eqn:Ep; [|done].
  simpl. intros [= <- <- <-]. split.
  - eapply built_inv; [|done]. intros i r s (_ & Ht & Hr & _ & Hf & _)%build_app_inv.
    split_and!; [done..|]. unfold floor_in_range. rewrite Hf.
    destruct (parse_floor r) eqn:E; [|done]. by apply parse_floor_range in E.
  - eapply built_inv; [|done]. intros i r s (_ & Ht & Hr & _ & Hf & _)%build_par_inv.
    split_and!; [done..|]. unfold floor_in_range. by rewrite Hf.
Qed.
End building.


(** ** The rows of a run *)

(** C9: every row that a term of a run of [main] emits has a floor from 2
    to 6 and a non-empty applicant id of the student-ID format, and its
    partner id and partner name are both empty, or both non-empty with the
    partner id of the student-ID format. *)
Theorem allocation_rows_are_well_formed
    (parse_timestamp : str → option datetime) (app_rows par_rows : list Row)
    (results : list term_result) (r : term_result) (row : alloc_row) :
  main parse_timestamp app_rows par_rows = Some results →
  r ∈ results → row ∈ tr_rows r →
  2 ≤ row_floor row ≤ 6 ∧
  row_app_id row ≠ [] ∧ is_valid_student_id (row_app_id row) = true ∧
  ((row_par_id row = [] ∧ row_par_name row = []) ∨
   (row_par_id row ≠ [] ∧ row_par_name row ≠ [] ∧
    is_valid_student_id (row_par_id row) = true)).
Proof.
  unfold main. intros Hmain Hr Hrow.
  destruct (main_build parse_timestamp app_rows par_rows) as [[[start apps] pars]|] eqn:Hb;
    [|done].
  simpl in Hmain. apply main_loop_results in Hmain as [n ->].
  apply list_elem_of_lookup in Hr as [i (t & _ & ->)%run_terms_lookup].
  destruct (main_build_inv _ _ _ _ _ _ Hb) as [HA HP].
  eapply (valid_rows_well_formed (filter (λ s, term s = t) apps)
            (filter (λ s, term s = t) pars)); [|exact Hrow].
  apply Forall_app. split; apply Forall_forall.
  - intros s [_ Hs]%list_elem_of_filter. rewrite Forall_forall in HA.
    by destruct (HA s Hs) as (_ & _ & ?).
  - intros s [_ Hs]%list_elem_of_filter. rewrite Forall_forall in HP.
    by destruct (HP s Hs) as (_ & _ & ?).
Qed.

(** ** The sample run *)

(** C7: for the solo floor cell "階4階", which ends with the unit,
    [parse_floor] removes every occurrence of the unit and answers 4, while
    the cell without its trailing unit, "階4", is not an integer. *)
Lemma parse_floor_removes_every_unit :
  parse_floor Sample.odd_floor = Some 4 ∧ py_int [KAI; 52%N] = None.
Proof. split; by vm_compute. Qed.

(** A decidable fact about the sample run, by evaluation. *)
Ltac by_evaluation := apply (bool_decide_unpack _); vm_compute; exact I.

(** C2 as the specification words it fails: in the sample run 4112345 is in
    a row of week 1, and the submission with the rejected photo in week 2
    gets [E1], not [E2]. *)
Lemma carryover_gives_E1_on_invalid_resubmission :
  main_loop Sample.apps Sample.pars = Some Sample.results ∧
  Sample.week1 ∈ Sample.results ∧ Sample.week2 ∈ Sample.results ∧
  tr_term Sample.week1 < tr_term Sample.week2 ∧
  person_id Sample.resubmitted_bad ∈ winners (tr_rows Sample.week1) ∧
  Sample.resubmitted_bad ∈ tr_apps Sample.week2 ∧
  error Sample.resubmitted_bad = Some E1 ∧
  error Sample.resubmitted_bad ≠ Some E2.
Proof. split_and!; by_evaluation. Qed.

(** The sample run satisfies the hypotheses of the theorems above. *)

Lemma accepted_person_later_witness :
  (main_loop Sample.apps Sample.pars = Some Sample.results ∧
   Sample.week1 ∈ Sample.results ∧ Sample.week2 ∈ Sample.results ∧
   tr_term Sample.week1 < tr_term Sample.week2 ∧
   person_id Sample.resubmitted_good ∈ winners (tr_rows Sample.week1) ∧
   Sample.resubmitted_good ∈ tr_apps Sample.week2) ∧
  error Sample.resubmitted_good =
    Some (default E2 (validator_outcome (tr_pars Sample.week2) true Sample.resubmitted_good)).
Proof.
  assert (main_loop Sample.apps Sample.pars = Some Sample.results) as H1 by by_evaluation.
  assert (Sample.week1 ∈ Sample.results) as H2 by by_evaluation.
  assert (Sample.week2 ∈ Sample.results) as H3 by by_evaluation.
  assert (tr_term Sample.week1 < tr_term Sample.week2) as H4 by by_evaluation.
  assert (person_id Sample.resubmitted_good ∈ winners (tr_rows Sample.week1)) as H5
    by by_evaluation.
  assert (Sample.resubmitted_good ∈ tr_apps Sample.week2) as H6 by by_evaluation.
  split; [by split_and!|].
  exact (proj1 (accepted_person_later_gets_E1_or_E2 Sample.apps Sample.pars Sample.results
                  Sample.week1 Sample.week2 Sample.resubmitted_good H1 H2 H3 H4 H5) H6).
Defined.

Lemma conflict_keeps_earliest_witness :
  Sample.ben ∈ claimants Sample.apps1 Sample.pars1 ∅ ∧
  (partner_id Sample.ben.2, rivals Sample.apps1 Sample.pars1 ∅ Sample.ben)
    ∈ applicants_by_partner Sample.apps1 Sample.pars1 ∅.
Proof.
  assert (Sample.ben ∈ claimants Sample.apps1 Sample.pars1 ∅) as H by by_evaluation.
  split; [done|].
  exact (proj1 (conflict_keeps_earliest_applicant Sample.apps1 Sample.pars1 ∅ Sample.ben H)).
Defined.


Lemma ineligible_ids_witness :
  main_loop Sample.apps Sample.pars = Some Sample.results ∧
  (∀ i j r r', (i ≤ j)%nat → Sample.results !! i = Some r → Sample.results !! j = Some r' →
     tr_before r ⊆ tr_before r' ∧ tr_after r ⊆ tr_after r').
Proof.
  assert (main_loop Sample.apps Sample.pars = Some Sample.results) as H by by_evaluation.
  split; [done|].
  exact (proj2 (ineligible_ids_extended_once_per_term Sample.apps Sample.pars
                  Sample.results H)).
Defined.

Lemma allocation_rows_witness :
  (main strptime_canonical Sample.app_rows Sample.par_rows = Some Sample.results ∧
   Sample.week1 ∈ Sample.results ∧ SampleRows.pair_row ∈ tr_rows Sample.week1) ∧
  2 ≤ row_floor SampleRows.pair_row ≤ 6.
Proof.
  assert (main strptime_canonical Sample.app_rows Sample.par_rows = Some Sample.results)
    as H1 by by_evaluation.
  assert (Sample.week1 ∈ Sample.results) as H2 by by_evaluation.
  assert (SampleRows.pair_row ∈ tr_rows Sample.week1) as H3 by by_evaluation.
  split; [by split_and!|].
  exact (proj1 (allocation_rows_are_well_formed strptime_canonical Sample.app_rows
                  Sample.par_rows Sample.results Sample.week1 SampleRows.pair_row H1 H2 H3)).
Defined.

(** ** Headers, whitespace and floor cells *)

Lemma lstrip_chars_spec chars s :
  ∃ pre, s = pre ++ lstrip_chars chars s ∧ Forall (λ c, c ∈ chars) pre ∧
         ∀ c, head (lstrip_chars chars s) = Some c → c ∉ chars.
Proof.
  induction s as [|c s (pre & Hs & Hpre & Hhd)]; simpl.
  - exists []. split_and!; [done|constructor|done].
  - case_bool_decide as Hc.
    + exists (c :: pre). split_and!; [by rewrite Hs at 1|by constructor|done].
    + exists []. split_and!; [done|constructor|]. by intros ? [= <-].
Qed.

(** X1: The header mark is removed from the front of a column name as often as
    it stands there, and nowhere else; a second pass changes nothing. *)
Theorem normalize_header_strips_leading_marks (name : str) :
  ∃ k : nat, name = replicate k BOM ++ normalize_header name ∧
    head (normalize_header name) ≠ Some BOM ∧
    normalize_header (normalize_header name) = normalize_header name.
Proof.
  unfold normalize_header.
  destruct (lstrip_chars_spec [BOM] name) as (pre & Hs & Hpre & Hhd).
  exists (length pre). split_and!.
  - rewrite Hs at 1. f_equal. clear -Hpre.
    induction Hpre as [|c pre Hc _ IH]; [done|]. simpl. f_equal; [|done].
    by apply list_elem_of_singleton in Hc.
  - intros H. apply Hhd in H. apply H, list_elem_of_singleton. done.
  - destruct (lstrip_chars [BOM] name) as [|c rest] eqn:E; [done|].
    simpl. rewrite bool_decide_false; [done|]. by apply Hhd.
Qed.

Lemma lstrip_spec s :
  ∃ ws, s = ws ++ lstrip s ∧ Forall (λ c, is_space c = true) ws ∧
        ∀ c, head (lstrip s) = Some c → is_space c = false.
Proof.
  induction s as [|c s (ws & Hs & Hws & Hhd)]; simpl.
  - exists []. split_and!; [done|constructor|done].
  - destruct (is_space c) eqn:Hc.
    + exists (c :: ws). split_and!; [by rewrite Hs at 1|by constructor|done].
    + exists []. split_and!; [done|constructor|]. by intros ? [= <-].
Qed.


Lemma head_reverse {A} (l : list A) : head (reverse l) = last l.
Proof.
  induction l as [|x l IH] using rev_ind; [done|].
  by rewrite reverse_app, last_snoc.
Qed.

(** [strip] takes whitespace away at both ends, and all of it. *)
Lemma strip_spec s :
  ∃ l r, s = l ++ strip s ++ r ∧
    Forall (λ c, is_space c = true) l ∧ Forall (λ c, is_space c = true) r ∧
    trimmed (strip s).
Proof.
  unfold strip.
  destruct (lstrip_spec s) as (l & Hs & Hl & Hhd).
  destruct (lstrip_spec (reverse (lstrip s))) as (r & Hr & Hws & Hhd').
  apply (f_equal reverse) in Hr. rewrite reverse_involutive, reverse_app in Hr.
  exists l, (reverse r). split_and!; [by rewrite <- Hr|done| |].
  { apply Forall_forall. intros c. rewrite elem_of_reverse.
    rewrite Forall_forall in Hws. apply Hws. }
  split.
  - intros c Hc. apply Hhd. rewrite Hr.
    destruct (reverse (lstrip (reverse (lstrip s)))); [done|]. exact Hc.
  - intros c Hc. apply Hhd'. by rewrite <- head_reverse, reverse_involutive in Hc.
Qed.

Lemma strip_trimmed s : trimmed (strip s).
Proof. by destruct (strip_spec s) as (? & ? & _ & _ & _ & ?). Qed.


(** A trimmed string that passes the format check has the seven
    characters and nothing after them. *)
Lemma trimmed_valid_id s :
  trimmed s → is_valid_student_id s = true → id_shape s.
Proof.
  intros [_ Hl] (b & tl & -> & [->| ->] & Hb)%is_valid_student_id_inv.
  - by rewrite app_nil_r.
  - specialize (Hl 10%N). rewrite last_snoc in Hl. by specialize (Hl eq_refl).
Qed.

(** ** [parse_floor] *)

Lemma parse_floor_cell r :
  parse_floor r =
    v ← floor_cell r; floor_of (if endswith v [KAI] then remove_char KAI v else v).
Proof.
  unfold parse_floor, floor_cell, floor_of. cbv zeta.
  by case_bool_decide.
Qed.

Lemma trailing_unit body :
  KAI ∉ body →
  endswith body [KAI] = false ∧ endswith (body ++ [KAI]) [KAI] = true ∧
  remove_char KAI body = body ∧ remove_char KAI (body ++ [KAI]) = body.
Proof.
  intros Hb. unfold endswith, remove_char. split_and!.
  - apply bool_decide_eq_false. intros [k ->]. apply Hb.
    apply elem_of_app. right. by left.
  - apply bool_decide_eq_true. by exists body.
  - apply filter_all. intros x Hx ->. done.
  - rewrite filter_app, filter_all; [|by intros x Hx ->].
    rewrite filter_cons_False, filter_nil, app_nil_r; [done|]. by intros H.
Qed.

(** X2: with both floor cells blank (missing, empty or whitespace only) or
    both filled in, there is no floor. *)
Theorem parse_floor_needs_exactly_one_cell (r : Row) :
  (strip (row_get r COL_FLOOR_SOLO) = [] ↔ strip (row_get r COL_FLOOR_PAIR) = []) →
  parse_floor r = None.
Proof.
  intros H. unfold parse_floor. cbv zeta. rewrite bool_decide_true; [done|].
  destruct (decide (strip (row_get r COL_FLOOR_SOLO) = [])) as [Ha|Ha].
  - right. split; [done|]. by apply H.
  - left. split; [done|]. intros Hb. by apply Ha, H.
Qed.


Lemma floor_of_digit :
  Forall (λ z, Forall (λ f, floor_of [(z + Z.to_N f)%N] = Some f ∧
                            KAI ∉ [(z + Z.to_N f)%N]) [2; 3; 4; 5; 6])
         decimal_zeros.
Proof. apply (bool_decide_unpack _). vm_compute. exact I. Qed.

(** X4: a floor from 2 to 6 written as one decimal digit of any script (so
    also a full-width digit), with or without the unit after it, is read
    as that floor. *)
Theorem parse_floor_reads_any_decimal_digit (r : Row) (v : str) (z : N) (f : Z) :
  floor_cell r = Some v → z ∈ decimal_zeros → 2 ≤ f ≤ 6 →
  v = [(z + Z.to_N f)%N] ∨ v = [(z + Z.to_N f)%N; KAI] →
  parse_floor r = Some f.
Proof.
  intros Hv Hz Hf Hcase. pose proof floor_of_digit as H.
  rewrite Forall_forall in H. specialize (H z Hz). rewrite Forall_forall in H.
  destruct (H f) as [Hfl Hk].
  { assert (f = 2 ∨ f = 3 ∨ f = 4 ∨ f = 5 ∨ f = 6) as Hc by lia.
    rewrite !elem_of_cons. tauto. }
  rewrite parse_floor_cell, Hv. simpl.
  destruct (trailing_unit _ Hk) as (E1 & E2 & E3 & E4).
  destruct Hcase as [-> | ->]; [by rewrite E1|].
  change [(z + Z.to_N f)%N; KAI] with ([(z + Z.to_N f)%N] ++ [KAI]).
  by rewrite E2, E4.
Qed.

Lemma parse_floor_needs_exactly_one_cell_witness :
  (strip (row_get SampleCells.both_floors COL_FLOOR_SOLO) = [] ↔
   strip (row_get SampleCells.both_floors COL_FLOOR_PAIR) = []) ∧
  parse_floor SampleCells.both_floors = None.
Proof.
  assert (strip (row_get SampleCells.both_floors COL_FLOOR_SOLO) = [] ↔
          strip (row_get SampleCells.both_floors COL_FLOOR_PAIR) = []) as H
    by (vm_compute; split; intros [=]).
  split; [exact H|]. exact (parse_floor_needs_exactly_one_cell _ H).
Defined.


Lemma parse_floor_reads_any_decimal_digit_witness :
  (floor_cell SampleCells.full_width = Some [65301%N; KAI] ∧
   65296%N ∈ decimal_zeros ∧ 2 ≤ 5 ≤ 6) ∧
  parse_floor SampleCells.full_width = Some 5.
Proof.
  assert (floor_cell SampleCells.full_width = Some [65301%N; KAI]) as H1
    by (vm_compute; reflexivity).
  assert (65296%N ∈ decimal_zeros) as H2 by (apply (bool_decide_unpack _); vm_compute; exact I).
  assert (2 ≤ 5 ≤ 6) as H3 by lia.
  split; [by split_and!|].
  exact (parse_floor_reads_any_decimal_digit _ _ _ _ H1 H2 H3 (or_intror eq_refl)).
Defined.

(** ** The ids of the rows of a run *)

Section trimmed_ids.
Variable parse_timestamp : str → option datetime.

Lemma main_build_trimmed (app_rows par_rows : list Row) start apps pars :
  main_build parse_timestamp app_rows par_rows = Some (start, apps, pars) →
  Forall (λ s, trimmed (person_id s)) (apps ++ pars).
Proof.
  unfold main_build, build_submissions.
  destruct (mapM _ (app_rows ++ par_rows)) as [all_ts|]; [|done]. simpl.
  destruct (py_min all_ts) as [m|]; [|done]. simpl.
  destruct (term_start_from_timestamp m) as [st|]; [|done]. simpl.
  destruct (mapM id (imap (build_app parse_timestamp st) app_rows)) as [a|] eqn:Ea; [|done].
  simpl.
  destruct (mapM id (imap (build_par parse_timestamp st) par_rows)) as [p|] eqn:Ep; [|done].
  simpl. intros [= <- <- <-]. apply Forall_app. split.
  - eapply built_inv; [|done]. intros i r s. unfold build_app.
    destruct (row_timestamp parse_timestamp r); [|done]. simpl. intros [= <-]. simpl.
    apply strip_trimmed.
  - eapply built_inv; [|done]. intros i r s. unfold build_par.
    destruct (row_timestamp parse_timestamp r); [|done]. simpl. intros [= <-]. simpl.
    apply strip_trimmed.
Qed.
End trimmed_ids.

Lemma valid_rows_id_shape (apps pars : list Submission) (ids : gset str) (row : alloc_row) :
  Forall (λ s, trimmed (person_id s)) (apps ++ pars) →
  row ∈ valid_rows apps pars ids →
  id_shape (row_app_id row) ∧ (row_par_id row = [] ∨ id_shape (row_par_id row)).
Proof.
  intros Htr. rewrite valid_rows_eq. intros (a & -> & Ha)%list_elem_of_fmap.
  rewrite Forall_forall in Htr.
  assert (∀ o : obj, o ∈ kept apps pars ids → apply_input_validation o.2 = None →
            id_shape (person_id o.2)) as Hshape.
  { intros o Ho Hv. destruct (validated_person o.2 Hv) as (_ & _ & Hvalid).
    apply trimmed_valid_id; [|done]. apply Htr. rewrite <- all_objs_snd.
    apply list_elem_of_fmap_2. by apply (kept_all apps pars ids). }
  pose proof (survivor_validated apps pars ids a Ha) as Hv.
  pose proof (survivor_kept apps pars ids a Ha) as [Hk Hr].
  rewrite row_of_app_id. split; [by apply Hshape|].
  destruct (wants_partner a.2) eqn:Hw.
  - destruct (survivor_partner apps pars ids a Ha Hw) as (p & Hp & Hpid & ->).
    right. unfold row_par_id. simpl.
    apply Hshape; [|by apply (par_candidate_validated apps pars ids)].
    by apply elem_of_par_candidates in Hp as [? _].
  - left. by rewrite (survivor_solo apps pars ids a Hw).
Qed.

(** X5: in every row of every term of a run, the applicant id is one of the
    seven-character codes itself, with nothing after it, and so is the
    partner id when the row has one: the cells are trimmed when the
    submissions are built, so the line feed that the format check lets
    through at the end cannot be there. *)
Theorem row_ids_have_seven_characters
    (parse_timestamp : str → option datetime) (app_rows par_rows : list Row)
    (results : list term_result) (r : term_result) (row : alloc_row) :
  main parse_timestamp app_rows par_rows = Some results →
  r ∈ results → row ∈ tr_rows r →
  id_shape (row_app_id row) ∧ (row_par_id row = [] ∨ id_shape (row_par_id row)).
Proof.
  unfold main. intros Hmain Hr Hrow.
  destruct (main_build parse_timestamp app_rows par_rows) as [[[start apps] pars]|] eqn:Hb;
    [|done].
  simpl in Hmain. apply main_loop_results in Hmain as [n ->].
  apply list_elem_of_lookup in Hr as [i (t & _ & ->)%run_terms_lookup].
  pose proof (main_build_trimmed _ _ _ _ _ _ Hb) as Htr.
  apply Forall_app in Htr as [HA HP].
  eapply (valid_rows_id_shape (filter (λ s, term s = t) apps)
            (filter (λ s, term s = t) pars)); [|exact Hrow].
  apply Forall_app. split; apply Forall_forall.
  - intros s [_ Hs]%list_elem_of_filter. rewrite Forall_forall in HA. by apply HA.
  - intros s [_ Hs]%list_elem_of_filter. rewrite Forall_forall in HP. by apply HP.
Qed.

Lemma row_ids_have_seven_characters_witness :
  (main strptime_canonical Sample.app_rows Sample.par_rows = Some Sample.results ∧
   Sample.week1 ∈ Sample.results ∧ SampleRows.pair_row ∈ tr_rows Sample.week1) ∧
  id_shape (row_app_id SampleRows.pair_row).
Proof.
  assert (main strptime_canonical Sample.app_rows Sample.par_rows = Some Sample.results)
    as H1 by by_evaluation.
  assert (Sample.week1 ∈ Sample.results) as H2 by by_evaluation.
  assert (SampleRows.pair_row ∈ tr_rows Sample.week1) as H3 by by_evaluation.
  split; [by split_and!|].
  exact (proj1 (row_ids_have_seven_characters _ _ _ _ _ _ H1 H2 H3)).
Defined.

(** X6: a row without a partner is never on floor 2 or 3, whatever is
    handed to [process_term]. *)
Theorem rows_without_partner_are_on_upper_floors
    (t : Z) (apps pars : list Submission) (ids : gset str) (row : alloc_row) :
  row ∈ (process_term t apps pars ids).2 → row_par_id row = [] →
  row_floor row ≠ 2 ∧ row_floor row ≠ 3.
Proof.
  unfold process_term, process_term_result. simpl.
  rewrite valid_rows_eq. intros (a & -> & Ha)%list_elem_of_fmap.
  pose proof (survivor_validated apps pars ids a Ha) as Hv.
  rewrite row_of_floor.
  destruct (wants_partner a.2) eqn:Hw.
  - destruct (survivor_partner apps pars ids a Ha Hw) as (p & Hp & Hpid & ->).
    unfold row_par_id. simpl. intros Hnil.
    apply (par_candidate_validated apps pars ids) in Hp.
    by destruct (validated_person p.2 Hp) as (? & _).
  - intros _. pose proof (survivor_kept apps pars ids a Ha) as [_ Hr].
    unfold apply_input_validation in Hv. rewrite Hr in Hv.
    unfold wants_partner in Hw. apply bool_decide_eq_false in Hw.
    assert (bool_decide (floor a.2 = Some 2 ∨ floor a.2 = Some 3) = false) as Hn.
    { destruct (bool_decide (floor a.2 = Some 2 ∨ floor a.2 = Some 3)) eqn:E; [|done].
      rewrite (bool_decide_true (has_partner a.2 ≠ Some WITH_PARTNER)) in Hv by done.
      rewrite andb_true_r in Hv. repeat case_match; done. }
    apply bool_decide_eq_false in Hn. unfold floor_or_0.
    destruct (floor a.2) as [f|]; simpl; [|done].
    split; intros ->; apply Hn; auto.
Qed.

Lemma rows_without_partner_witness :
  (nth 0 (tr_rows Sample.week1) SampleRows.no_row ∈ (process_term 0 Sample.apps1 Sample.pars1 ∅).2 ∧
   row_par_id (nth 0 (tr_rows Sample.week1) SampleRows.no_row) = []) ∧
  row_floor (nth 0 (tr_rows Sample.week1) SampleRows.no_row) ≠ 2.
Proof.
  assert (nth 0 (tr_rows Sample.week1) SampleRows.no_row
            ∈ (process_term 0 Sample.apps1 Sample.pars1 ∅).2) as H1 by by_evaluation.
  assert (row_par_id (nth 0 (tr_rows Sample.week1) SampleRows.no_row) = []) as H2
    by by_evaluation.
  split; [by split|].
  exact (proj1 (rows_without_partner_are_on_upper_floors _ _ _ _ _ H1 H2)).
Defined.

(** ** What each code of a term stands for *)

Lemma stage_not_assigned ids n f objs h h' a c :
  stage ids n f objs h h' → (∀ o : obj, f o None ≠ Some (Some c)) →
  get_error h' a = Some c → get_error h a = Some c.
Proof.
  intros Hst Hf Ha.
  destruct (stage_change _ _ _ _ _ _ a Hst) as [E|(Hn & o & e & _ & _ & Hfo & He)].
  - by rewrite <- E.
  - rewrite Ha in He. injection He as <-. by destruct (Hf o).
Qed.

Section outcomes.
Context (apps pars : list Submission) (ids : gset str).

Local Abbreviation all := (all_objs apps pars).
Local Abbreviation h_val := (st_validated apps pars ids).
Local Abbreviation h_form := (st_partner_form apps pars ids).
Local Abbreviation h_inel := (st_ineligible apps pars ids).
Local Abbreviation h_dedup := (st_dedup apps pars ids).
Local Abbreviation h_unm := (st_unmatched apps pars ids).
Local Abbreviation h_conf := (st_conflicts apps pars ids).
Local Abbreviation h_unp := (st_unpaired apps pars ids).
Local Abbreviation h_appc := (st_apps_classified apps pars ids).
Local Abbreviation h_fin := (st_final apps pars ids).
Local Abbreviation index := (partner_by_id apps pars ids).
Local Abbreviation surv := (survivors apps pars ids).

(** Up to the check of the partner forms, the only code is [E1]. *)
Lemma partner_form_codes a c : get_error h_form a = Some c → c = E1.
Proof.
  intros Ha. destruct (validated_spec apps pars ids) as (_ & Hin & Hout & _).
  destruct (stage_change _ _ _ _ _ _ a (partner_form_stage apps pars ids))
    as [E|(_ & o & e & _ & _ & Hfo & He)].
  - rewrite E in Ha. destruct (decide (a ∈ all.*1)) as [Hel|Hel].
    + apply list_elem_of_fmap in Hel as (o & -> & Ho). rewrite Hin in Ha by done.
      destruct (apply_input_validation_codes o.2) as [E'|E']; rewrite E' in Ha; congruence.
    + rewrite Hout in Ha by done. done.
  - rewrite Ha in He. injection He as ->. unfold f_partner_form in Hfo.
    destruct (_ && _); congruence.
Qed.

(** After that check, [E1] is not assigned any more. *)
Lemma final_E1_back a : get_error h_fin a = Some E1 → get_error h_form a = Some E1.
Proof.
  intros H.
  apply (stage_not_assigned _ _ _ _ _ _ _ _ (final_stage apps pars ids)) in H;
    [|intros o; unfold f_classify; repeat case_match; congruence].
  apply (stage_not_assigned _ _ _ _ _ _ _ _ (apps_classified_stage apps pars ids)) in H;
    [|intros o; unfold f_classify; repeat case_match; congruence].
  apply (stage_not_assigned _ _ _ _ _ _ _ _ (unpaired_stage apps pars ids)) in H;
    [|intros o; unfold f_unpaired; repeat case_match; congruence].
  apply (stage_not_assigned _ _ _ _ _ _ _ _ (conflicts_stage apps pars ids)) in H;
    [|intros o; unfold f_assign; congruence].
  apply (stage_not_assigned _ _ _ _ _ _ _ _ (unmatched_stage apps pars ids)) in H;
    [|intros o; unfold f_unmatched; repeat case_match; congruence].
  apply (stage_not_assigned _ _ _ _ _ _ _ _ (dedup_stage apps pars ids)) in H;
    [|intros o; unfold f_assign; congruence].
  apply (stage_not_assigned _ _ _ _ _ _ _ _ (ineligible_stage apps pars ids)) in H;
    [|intros o; unfold f_ineligible; repeat case_match; congruence].
  done.
Qed.

(** [E2] is assigned by the check of [ineligible_ids] only. *)
Lemma final_E2_back a : get_error h_fin a = Some E2 → get_error h_inel a = Some E2.
Proof.
  intros H.
  apply (stage_not_assigned _ _ _ _ _ _ _ _ (final_stage apps pars ids)) in H;
    [|intros o; unfold f_classify; repeat case_match; congruence].
  apply (stage_not_assigned _ _ _ _ _ _ _ _ (apps_classified_stage apps pars ids)) in H;
    [|intros o; unfold f_classify; repeat case_match; congruence].
  apply (stage_not_assigned _ _ _ _ _ _ _ _ (unpaired_stage apps pars ids)) in H;
    [|intros o; unfold f_unpaired; repeat case_match; congruence].
  apply (stage_not_assigned _ _ _ _ _ _ _ _ (conflicts_stage apps pars ids)) in H;
    [|intros o; unfold f_assign; congruence].
  apply (stage_not_assigned _ _ _ _ _ _ _ _ (unmatched_stage apps pars ids)) in H;
    [|intros o; unfold f_unmatched; repeat case_match; congruence].
  apply (stage_not_assigned _ _ _ _ _ _ _ _ (dedup_stage apps pars ids)) in H;
    [|intros o; unfold f_assign; congruence].
  done.
Qed.

Lemma final_E1_iff (o : obj) :
  get_error h_fin o.1 = Some E1 ↔ get_error h_form o.1 = Some E1.
Proof. split; [apply final_E1_back|apply sticky_form_fin]. Qed.

Lemma final_E2_iff (o : obj) :
  o ∈ all →
  get_error h_fin o.1 = Some E2 ↔ get_error h_form o.1 = None ∧ person_id o.2 ∈ ids.
Proof.
  intros Ho. split.
  - intros H%final_E2_back.
    rewrite (stage_in _ _ _ _ _ _ (ineligible_stage apps pars ids)) in H by done.
    unfold f_ineligible in H.
    destruct (get_error h_form o.1) as [c|] eqn:E; simpl in H.
    + apply partner_form_codes in E. congruence.
    + split; [done|]. by case_bool_decide.
  - intros [E Hid]. rewrite (ineligible_verdict apps pars ids o Ho Hid). by rewrite E.
Qed.

(** What [process_term] hands back, position by position. *)
Lemma returned_app t i s :
  apps !! i = Some s →
  (process_term t apps pars ids).1.1 !! i = Some (with_error (get_error h_fin i) s) ∧
  (i, s) ∈ app_objs apps.
Proof.
  intros Hs. split; [|by apply elem_of_app_objs].
  unfold process_term, process_term_result. simpl.
  apply read_back_lookup. exists (i, s). split; [|done].
  unfold app_objs. by rewrite list_lookup_imap, Hs.
Qed.

Lemma returned_par t i s :
  pars !! i = Some s →
  (process_term t apps pars ids).1.2 !! i
    = Some (with_error (get_error h_fin (length apps + i)) s) ∧
  ((length apps + i)%nat, s) ∈ par_objs apps pars.
Proof.
  intros Hs. split; [|apply elem_of_par_objs; by exists i].
  unfold process_term, process_term_result. simpl.
  apply read_back_lookup. exists ((length apps + i)%nat, s). split; [|done].
  unfold par_objs. by rewrite list_lookup_imap, Hs.
Qed.
End outcomes.

(** X7: [E1] and [E2] have one cause each.  A submission comes back with
    [E1] exactly when the Validator rejects it (its own checks, and for an
    applicant with a partner the check that a form of the partner was
    handed in), and with [E2] exactly when the Validator lets it pass and
    its person is in [ineligible_ids]; so nobody gets [E2] while that set
    is empty. *)
Theorem E1_and_E2_have_one_cause
    (t : Z) (apps pars : list Submission) (ids : gset str) :
  (∀ i s s', apps !! i = Some s → (process_term t apps pars ids).1.1 !! i = Some s' →
     (error s' = Some E1 ↔ validator_outcome pars true s = Some E1) ∧
     (error s' = Some E2 ↔ validator_outcome pars true s = None ∧ person_id s ∈ ids)) ∧
  (∀ i s s', pars !! i = Some s → (process_term t apps pars ids).1.2 !! i = Some s' →
     (error s' = Some E1 ↔ validator_outcome pars false s = Some E1) ∧
     (error s' = Some E2 ↔ validator_outcome pars false s = None ∧ person_id s ∈ ids)).
Proof.
  split; intros i s s' Hs Hs'.
  - destruct (returned_app apps pars ids t i s Hs) as [Hret Ho].
    rewrite Hret in Hs'. injection Hs' as <-. simpl.
    pose proof (proj1 (partner_form_verdict apps pars ids (i, s)) Ho) as Hv. simpl in Hv.
    rewrite <- Hv. split.
    + apply (final_E1_iff apps pars ids (i, s)).
    + apply (final_E2_iff apps pars ids (i, s)). by apply app_objs_all.
  - destruct (returned_par apps pars ids t i s Hs) as [Hret Ho].
    rewrite Hret in Hs'. injection Hs' as <-. simpl.
    pose proof (proj2 (partner_form_verdict apps pars ids (_, s)) Ho) as Hv. simpl in Hv.
    rewrite <- Hv. split.
    + apply (final_E1_iff apps pars ids (_, s)).
    + apply (final_E2_iff apps pars ids (_, s)). by apply par_objs_all.
Qed.

(** ** Who is accepted *)

Section acceptance.
Context (apps pars : list Submission) (ids : gset str).

Local Abbreviation all := (all_objs apps pars).
Local Abbreviation h_form := (st_partner_form apps pars ids).
Local Abbreviation h_inel := (st_ineligible apps pars ids).
Local Abbreviation h_dedup := (st_dedup apps pars ids).
Local Abbreviation h_unm := (st_unmatched apps pars ids).
Local Abbreviation h_conf := (st_conflicts apps pars ids).
Local Abbreviation h_unp := (st_unpaired apps pars ids).
Local Abbreviation h_appc := (st_apps_classified apps pars ids).
Local Abbreviation h_fin := (st_final apps pars ids).
Local Abbreviation cands := (candidates apps pars ids).
Local Abbreviation keep := (kept apps pars ids).
Local Abbreviation drop_ := (dropped apps pars ids).
Local Abbreviation app_cands := (app_candidates apps pars ids).
Local Abbreviation par_cands := (par_candidates apps pars ids).
Local Abbreviation index := (partner_by_id apps pars ids).
Local Abbreviation surv := (survivors apps pars ids).
Local Abbreviation rows := (valid_rows apps pars ids).

(** A candidate has passed the Validator and is not in [ineligible_ids]. *)
Lemma candidate_passed (o : obj) :
  o ∈ cands → get_error h_form o.1 = None ∧ person_id o.2 ∉ ids.
Proof.
  intros [Ho Hc]%elem_of_candidates.
  pose proof (clean_inel_form apps pars ids _ Hc) as Hf. split; [done|].
  intros Hid.
  rewrite (stage_in _ _ _ _ _ _ (ineligible_stage apps pars ids)) in Hc by done.
  rewrite Hf in Hc. unfold f_ineligible in Hc.
  by rewrite (bool_decide_eq_true_2 _ Hid) in Hc.
Qed.

Lemma passed_candidate (o : obj) :
  o ∈ all → get_error h_form o.1 = None → person_id o.2 ∉ ids → o ∈ cands.
Proof.
  intros Ho Hf Hid. apply elem_of_candidates. split; [done|].
  rewrite (stage_in _ _ _ _ _ _ (ineligible_stage apps pars ids)) by done.
  rewrite Hf. unfold f_ineligible. by rewrite (bool_decide_eq_false_2 _ Hid).
Qed.

Lemma app_objs_of_role (o : obj) :
  Forall (λ s, role s = Par) pars → o ∈ all → role o.2 = App → o ∈ app_objs apps.
Proof.
  intros HP [Ho|Ho]%elem_of_app Hr; [done|]. destruct o as [a s].
  apply elem_of_par_objs in Ho as (i & _ & Hs%list_elem_of_lookup_2).
  rewrite Forall_forall in HP. specialize (HP _ Hs). simpl in Hr. congruence.
Qed.

Lemma par_objs_of_role (o : obj) :
  Forall (λ s, role s = App) apps → o ∈ all → role o.2 = Par → o ∈ par_objs apps pars.
Proof.
  intros HA [Ho|Ho]%elem_of_app Hr; [|done]. destruct o as [a s].
  apply elem_of_app_objs in Ho. apply list_elem_of_lookup_2 in Ho.
  rewrite Forall_forall in HA. specialize (HA _ Ho). simpl in Hr. congruence.
Qed.

(** An applicant that reaches the pairing loop clean gets [S0]. *)
Lemma survivor_accepted (a : obj) :
  a ∈ surv → a ∈ app_objs apps → get_error h_fin a.1 = Some S0.
Proof.
  intros Ha Hobj. pose proof Ha as [Hc Hconf]%elem_of_survivors.
  assert (get_error h_unp a.1 = None) as Hunp.
  { rewrite (stage_out _ _ _ _ _ _ (unpaired_stage apps pars ids)); [done|].
    intros (p & E & Hp)%list_elem_of_fmap.
    by eapply (app_par_candidates_disjoint apps pars ids). }
  apply sticky_appc_fin.
  rewrite (stage_in _ _ _ _ _ _ (apps_classified_stage apps pars ids)) by done.
  rewrite Hunp. unfold f_classify. simpl. rewrite bool_decide_true; [done|].
  unfold valid_app_ids. apply elem_of_list_to_set, list_elem_of_fmap.
  exists (row_of index a). split; [by rewrite row_of_app_id|]. by apply survivor_row.
Qed.

(** The partner of such an applicant gets [S0]. *)
Lemma paired_partner_accepted (a p : obj) :
  a ∈ surv → wants_partner a.2 = true → lookup_partner index a.2 = Some p →
  p ∈ par_objs apps pars → get_error h_fin p.1 = Some S0.
Proof.
  intros Ha Hw Hl Hobj.
  pose proof Hl as [Hp Hpid]%lookup_partner_Some.
  assert (person_id p.2 ≠ []) as Hne.
  { apply (par_candidate_validated apps pars ids) in Hp.
    by destruct (validated_person p.2 Hp) as (? & _). }
  assert (get_error h_unp p.1 = None) as Hunp.
  { rewrite (stage_in _ _ _ _ _ _ (unpaired_stage apps pars ids)) by done.
    rewrite (par_candidates_clean_conf apps pars ids p Hp). unfold f_unpaired. simpl.
    rewrite bool_decide_false; [done|]. intros Hn. apply Hn.
    rewrite paired_partner_ids_eq. apply elem_of_list_to_set, list_elem_of_omap.
    exists a. split; [done|]. unfold paired_id. by rewrite Hw, Hl. }
  assert (get_error h_appc p.1 = None) as Happc.
  { rewrite (stage_out _ _ _ _ _ _ (apps_classified_stage apps pars ids)); [done|].
    intros (x & E & Hx)%list_elem_of_fmap.
    by eapply (app_par_objs_disjoint apps pars x p). }
  rewrite (stage_in _ _ _ _ _ _ (final_stage apps pars ids)) by done.
  rewrite Happc. unfold f_classify. simpl. rewrite bool_decide_true; [done|].
  unfold valid_par_ids. apply elem_of_list_to_set, list_elem_of_fmap.
  exists (row_of index a).
  assert (row_par_id (row_of index a) = person_id p.2) as E.
  { unfold row_of. by rewrite Hw, Hl. }
  split; [done|]. apply list_elem_of_filter. split; [by rewrite E|].
  by apply survivor_row.
Qed.

(** An object that ends with [S0] was kept, clean, up to the end. *)
Lemma accepted_kept (o : obj) :
  o ∈ all → get_error h_fin o.1 = Some S0 →
  o ∈ keep ∧ get_error h_conf o.1 = None.
Proof.
  intros Ho HS. destruct (final_S0_inv apps pars ids o Ho HS) as [Hunp _].
  split; [|by apply clean_unp_conf].
  apply clean_dedup_kept; [done|]. by apply clean_unm_dedup, clean_unp_unm.
Qed.

(** A kept applicant that does not ask for a partner reaches the pairing
    loop clean. *)
Lemma solo_survives (o : obj) :
  o ∈ keep → role o.2 = App → wants_partner o.2 = false → o ∈ surv.
Proof.
  intros Hk Hr Hw.
  assert (o ∈ app_cands) as Hc by by apply elem_of_app_candidates.
  apply elem_of_survivors. split; [done|].
  rewrite not_loser_conf.
  - apply app_candidates_unm; [done|]. intros [? _]. congruence.
  - intros (l & E & Hl)%list_elem_of_fmap.
    pose proof (losers_claimants apps pars ids l Hl) as Hcl.
    apply elem_of_claimants in Hcl as (Hlc & _ & Hlw).
    assert (l = o) as ->.
    { apply (all_objs_inj apps pars); [| |done].
      - apply (kept_all apps pars ids). by apply elem_of_app_candidates in Hlc as [? _].
      - by apply (kept_all apps pars ids). }
    congruence.
Qed.

(** A dropped candidate has a kept one of the same person that is not
    earlier. *)
Lemma dropped_superseded (o : obj) :
  o ∈ drop_ →
  ∃ k : obj, k ∈ keep ∧ k.1 ≠ o.1 ∧ person_id k.2 = person_id o.2 ∧
             obj_key_lt k o = false.
Proof.
  intros Hd. pose proof (dropped_candidates apps pars ids o Hd) as Hc.
  destruct (kept_covers cands o Hc) as (k & Hk & Hpid).
  exists k. split_and!; [done| |done|].
  - intros E. apply (kept_not_dropped apps pars ids k Hk).
    apply list_elem_of_fmap. by exists o.
  - by apply (kept_greatest cands k o).
Qed.
End acceptance.

Lemma elem_of_read_back (apps pars : list Submission) (ids : gset str)
    (objs : list obj) (s : Submission) :
  s ∈ read_back apps pars ids objs ↔
  ∃ o : obj, o ∈ objs ∧ s = with_error (get_error (st_final apps pars ids) o.1) o.2.
Proof.
  unfold read_back. rewrite list_elem_of_fmap. split; intros (o & ? & ?); by exists o.
Qed.

(** X8: when the two lists hold submissions of their own role, the rows
    of a term and the applicants that get [S0] are the same: every row
    carries the id, the name and the floor of an applicant that comes
    back with [S0], and every applicant that comes back with [S0] has its
    row. *)
Theorem rows_are_the_accepted_applicants
    (t : Z) (apps pars : list Submission) (ids : gset str) :
  Forall (λ s, role s = App) apps → Forall (λ s, role s = Par) pars →
  (∀ row, row ∈ (process_term t apps pars ids).2 →
     ∃ s, s ∈ (process_term t apps pars ids).1.1 ∧ error s = Some S0 ∧
          person_id s = row_app_id row ∧ person_name s = row_app_name row ∧
          floor s = Some (row_floor row)) ∧
  (∀ s, s ∈ (process_term t apps pars ids).1.1 → error s = Some S0 →
     ∃ row, row ∈ (process_term t apps pars ids).2 ∧
          row_app_id row = person_id s ∧ row_app_name row = person_name s ∧
          floor s = Some (row_floor row)).
Proof.
  intros HA HP. unfold process_term, process_term_result. simpl.
  assert (∀ a : obj, a ∈ survivors apps pars ids →
            row_app_name (row_of (partner_by_id apps pars ids) a) = person_name a.2 ∧
            floor a.2 = Some (row_floor (row_of (partner_by_id apps pars ids) a))) as Hrow.
  { intros a Ha. split.
    - unfold row_of. by destruct (if wants_partner a.2 then _ else _).
    - rewrite row_of_floor. unfold floor_or_0.
      pose proof (survivor_validated apps pars ids a Ha) as Hv.
      pose proof (survivor_kept apps pars ids a Ha) as [_ Hr].
      destruct (validated_applicant a.2 Hv Hr) as [Hf _].
      by destruct (floor a.2). }
  split.
  - intros row. rewrite valid_rows_eq. intros (a & -> & Ha)%list_elem_of_fmap.
    pose proof (survivor_kept apps pars ids a Ha) as [Hk Hr].
    assert (a ∈ app_objs apps) as Hobj.
    { apply (app_objs_of_role apps pars); [done| |done]. by apply (kept_all apps pars ids). }
    exists (with_error (Some S0) a.2). split_and!; simpl.
    + apply elem_of_read_back. exists a. split; [done|].
      by rewrite (survivor_accepted apps pars ids a Ha Hobj).
    + done.
    + by rewrite row_of_app_id.
    + symmetry. by apply Hrow.
    + by apply Hrow.
  - intros s (o & Ho & ->)%elem_of_read_back. simpl. intros HS.
    destruct (accepted_kept apps pars ids o (app_objs_all apps pars o Ho) HS) as [Hk Hconf].
    assert (role o.2 = App) as Hr.
    { destruct o as [a s]. apply elem_of_app_objs, list_elem_of_lookup_2 in Ho.
      rewrite Forall_forall in HA. by apply HA. }
    assert (o ∈ survivors apps pars ids) as Hs.
    { apply elem_of_survivors. split; [|done]. by apply elem_of_app_candidates. }
    exists (row_of (partner_by_id apps pars ids) o). split_and!.
    + by apply survivor_row.
    + by rewrite row_of_app_id.
    + by apply Hrow.
    + by apply Hrow.
Qed.

Lemma rows_are_the_accepted_applicants_witness :
  (Forall (λ s, role s = App) Sample.apps1 ∧ Forall (λ s, role s = Par) Sample.pars1) ∧
  ∀ row, row ∈ (process_term 0 Sample.apps1 Sample.pars1 ∅).2 →
    ∃ s, s ∈ (process_term 0 Sample.apps1 Sample.pars1 ∅).1.1 ∧ error s = Some S0 ∧
         person_id s = row_app_id row ∧ person_name s = row_app_name row ∧
         floor s = Some (row_floor row).
Proof.
  assert (Forall (λ s, role s = App) Sample.apps1) as H1 by by_evaluation.
  assert (Forall (λ s, role s = Par) Sample.pars1) as H2 by by_evaluation.
  split; [by split|].
  exact (proj1 (rows_are_the_accepted_applicants 0 Sample.apps1 Sample.pars1 ∅ H1 H2)).
Defined.

(** X9: under the same condition, a partner form comes back with [S0]
    exactly when a row names it: every row with a partner carries the id
    and the name of a partner form that comes back with [S0], and a
    partner form that comes back with [S0] stands in a row whose
    applicant comes back with [S0] and names that partner. *)
Theorem partners_are_accepted_with_their_applicant
    (t : Z) (apps pars : list Submission) (ids : gset str) :
  Forall (λ s, role s = App) apps → Forall (λ s, role s = Par) pars →
  (∀ row, row ∈ (process_term t apps pars ids).2 → row_par_id row ≠ [] →
     ∃ p, p ∈ (process_term t apps pars ids).1.2 ∧ error p = Some S0 ∧
          person_id p = row_par_id row ∧ person_name p = row_par_name row) ∧
  (∀ p, p ∈ (process_term t apps pars ids).1.2 → error p = Some S0 →
     ∃ row a, row ∈ (process_term t apps pars ids).2 ∧
          row_par_id row = person_id p ∧ row_par_name row = person_name p ∧
          a ∈ (process_term t apps pars ids).1.1 ∧ error a = Some S0 ∧
          person_id a = row_app_id row ∧ partner_id a = Some (person_id p)).
Proof.
  intros HA HP. unfold process_term, process_term_result. simpl. split.
  - intros row. rewrite valid_rows_eq. intros (a & -> & Ha)%list_elem_of_fmap Hne.
    destruct (wants_partner a.2) eqn:Hw;
      [|by rewrite (survivor_solo apps pars ids a Hw) in Hne].
    destruct (survivor_partner apps pars ids a Ha Hw) as (p & Hp & Hpid & Hrow).
    assert (lookup_partner (partner_by_id apps pars ids) a.2 = Some p) as Hl
      by by apply lookup_partner_Some.
    assert (p ∈ par_objs apps pars) as Hobj.
    { apply elem_of_par_candidates in Hp as [Hk Hr].
      apply (par_objs_of_role apps pars); [done| |done]. by apply (kept_all apps pars ids). }
    exists (with_error (Some S0) p.2). rewrite Hrow. split_and!; simpl; [|done..].
    apply elem_of_read_back. exists p. split; [done|].
    by rewrite (paired_partner_accepted apps pars ids a p Ha Hw Hl Hobj).
  - intros s (p & Hp & ->)%elem_of_read_back. simpl. intros HS.
    pose proof (par_objs_all apps pars p Hp) as Hall.
    destruct (accepted_kept apps pars ids p Hall HS) as [Hk Hconf].
    destruct (final_S0_inv apps pars ids p Hall HS) as [_ [[Hp' _]|[_ Hin]]].
    { by destruct (app_par_objs_disjoint apps pars p p Hp' Hp). }
    unfold valid_par_ids in Hin.
    apply elem_of_list_to_set, list_elem_of_fmap in Hin as (row & Hid & Hrow).
    apply list_elem_of_filter in Hrow as [Hne Hrow].
    rewrite valid_rows_eq in Hrow. apply list_elem_of_fmap in Hrow as (a & -> & Ha).
    destruct (wants_partner a.2) eqn:Hw;
      [|by rewrite (survivor_solo apps pars ids a Hw) in Hne].
    destruct (survivor_partner apps pars ids a Ha Hw) as (p' & Hp'' & Hpid & Hrow).
    rewrite Hrow in Hid. unfold row_par_id in Hid. simpl in Hid.
    assert (p' = p) as ->.
    { apply (kept_person_id_inj apps pars ids); [|done|done].
      by apply elem_of_par_candidates in Hp'' as [? _]. }
    pose proof (survivor_kept apps pars ids a Ha) as [Hka Hr].
    assert (a ∈ app_objs apps) as Hobj.
    { apply (app_objs_of_role apps pars); [done| |done]. by apply (kept_all apps pars ids). }
    exists (row_of (partner_by_id apps pars ids) a), (with_error (Some S0) a.2).
    split_and!; simpl.
    + by apply survivor_row.
    + by rewrite Hrow.
    + by rewrite Hrow.
    + apply elem_of_read_back. exists a. split; [done|].
      by rewrite (survivor_accepted apps pars ids a Ha Hobj).
    + done.
    + by rewrite row_of_app_id.
    + done.
Qed.

Lemma partners_are_accepted_witness :
  (Forall (λ s, role s = App) Sample.apps1 ∧ Forall (λ s, role s = Par) Sample.pars1) ∧
  ∀ row, row ∈ (process_term 0 Sample.apps1 Sample.pars1 ∅).2 → row_par_id row ≠ [] →
    ∃ p, p ∈ (process_term 0 Sample.apps1 Sample.pars1 ∅).1.2 ∧ error p = Some S0 ∧
         person_id p = row_par_id row ∧ person_name p = row_par_name row.
Proof.
  assert (Forall (λ s, role s = App) Sample.apps1) as H1 by by_evaluation.
  assert (Forall (λ s, role s = Par) Sample.pars1) as H2 by by_evaluation.
  split; [by split|].
  exact (proj1 (partners_are_accepted_with_their_applicant 0 Sample.apps1 Sample.pars1 ∅ H1 H2)).
Defined.

(** A submission that passes the Validator, of a person not in
    [ineligible_ids], is a candidate. *)
Lemma passed_applicant_candidate (apps pars : list Submission) (ids : gset str)
    (i : nat) (s : Submission) :
  apps !! i = Some s → validator_outcome pars true s = None → person_id s ∉ ids →
  (i, s) ∈ candidates apps pars ids.
Proof.
  intros Hs Hv Hid. assert ((i, s) ∈ app_objs apps) as Ho by by apply elem_of_app_objs.
  apply passed_candidate; [by apply app_objs_all| |done].
  by rewrite (proj1 (partner_form_verdict apps pars ids (i, s)) Ho).
Qed.

(** X10: an applicant without a partner who passes the Validator and is not
    in [ineligible_ids] is accepted, with a row of its own, unless another
    submission of the same person in the term, not an earlier one,
    supersedes it; then it gets [E3]. *)
Theorem solo_applicant_is_accepted_unless_superseded
    (t : Z) (apps pars : list Submission) (ids : gset str)
    (i : nat) (s s' : Submission) :
  apps !! i = Some s → (process_term t apps pars ids).1.1 !! i = Some s' →
  role s = App → validator_outcome pars true s = None → person_id s ∉ ids →
  has_partner s ≠ Some WITH_PARTNER →
  (error s' = Some S0 ∧
   (person_id s, person_name s, [], [], floor_or_0 s) ∈ (process_term t apps pars ids).2) ∨
  (error s' = Some E3 ∧
   ∃ j s2, (apps ++ pars) !! j = Some s2 ∧ j ≠ i ∧ person_id s2 = person_id s ∧
           key_lt (sort_key s2) (sort_key s) = false).
Proof.
  intros Hs Hs' Hr Hv Hid Hw.
  destruct (returned_app apps pars ids t i s Hs) as [Hret Ho].
  rewrite Hret in Hs'. injection Hs' as <-. simpl.
  pose proof (passed_applicant_candidate apps pars ids i s Hs Hv Hid) as Hc.
  assert (wants_partner s = false) as Hw' by by apply bool_decide_eq_false.
  destruct (candidates_kept_or_dropped apps pars ids _ Hc) as [Hk|Hd].
  - left. pose proof (solo_survives apps pars ids (i, s) Hk Hr Hw') as Hsurv.
    split; [by apply (survivor_accepted apps pars ids (i, s))|].
    unfold process_term, process_term_result. simpl.
    pose proof (survivor_row apps pars ids (i, s) Hsurv) as Hrow.
    by rewrite (survivor_solo apps pars ids (i, s) Hw') in Hrow.
  - right. split; [by apply (dropped_final apps pars ids (i, s))|].
    destruct (dropped_superseded apps pars ids (i, s) Hd) as (k & Hk & Hne & Hpid & Hlt).
    pose proof (kept_all apps pars ids k Hk) as Hall.
    apply list_elem_of_lookup in Hall as [j Hj].
    pose proof (all_objs_lookup apps pars j k Hj) as Hj1.
    exists j, k.2. split_and!; [|simpl in Hne; congruence|done|done].
    by rewrite <- all_objs_snd, list_lookup_fmap, Hj.
Qed.

Lemma solo_applicant_witness :
  (Sample.apps1 !! 0%nat = Some (nth 0 Sample.apps1 Sample.blank) ∧
   (process_term 0 Sample.apps1 Sample.pars1 ∅).1.1 !! 0%nat
     = Some (nth 0 (tr_apps Sample.week1) Sample.blank) ∧
   role (nth 0 Sample.apps1 Sample.blank) = App ∧
   validator_outcome Sample.pars1 true (nth 0 Sample.apps1 Sample.blank) = None ∧
   (person_id (nth 0 Sample.apps1 Sample.blank) ∉@{gset str} ∅) ∧
   has_partner (nth 0 Sample.apps1 Sample.blank) ≠ Some WITH_PARTNER) ∧
  ((error (nth 0 (tr_apps Sample.week1) Sample.blank) = Some S0 ∧
    (person_id (nth 0 Sample.apps1 Sample.blank),
     person_name (nth 0 Sample.apps1 Sample.blank), [], [],
     floor_or_0 (nth 0 Sample.apps1 Sample.blank))
      ∈ (process_term 0 Sample.apps1 Sample.pars1 ∅).2) ∨
   (error (nth 0 (tr_apps Sample.week1) Sample.blank) = Some E3 ∧
    ∃ j s2, (Sample.apps1 ++ Sample.pars1) !! j = Some s2 ∧ j ≠ 0%nat ∧
            person_id s2 = person_id (nth 0 Sample.apps1 Sample.blank) ∧
            key_lt (sort_key s2) (sort_key (nth 0 Sample.apps1 Sample.blank)) = false)).
Proof.
  assert (Sample.apps1 !! 0%nat = Some (nth 0 Sample.apps1 Sample.blank)) as H1
    by by_evaluation.
  assert ((process_term 0 Sample.apps1 Sample.pars1 ∅).1.1 !! 0%nat
            = Some (nth 0 (tr_apps Sample.week1) Sample.blank)) as H2 by by_evaluation.
  assert (role (nth 0 Sample.apps1 Sample.blank) = App) as H3 by by_evaluation.
  assert (validator_outcome Sample.pars1 true (nth 0 Sample.apps1 Sample.blank) = None)
    as H4 by by_evaluation.
  assert (person_id (nth 0 Sample.apps1 Sample.blank) ∉@{gset str} ∅) as H5
    by by_evaluation.
  assert (has_partner (nth 0 Sample.apps1 Sample.blank) ≠ Some WITH_PARTNER) as H6
    by by_evaluation.
  split; [by split_and!|].
  exact (solo_applicant_is_accepted_unless_superseded 0 Sample.apps1 Sample.pars1 ∅
           0 _ _ H1 H2 H3 H4 H5 H6).
Defined.

(** X11: an applicant who passes the Validator (so that a form of the named
    partner was handed in) and is not in [ineligible_ids], but whose
    partner has no form in the term that passes the Validator with the
    partner not in [ineligible_ids], gets [E3]. *)
Theorem applicant_of_a_rejected_partner_gets_E3
    (t : Z) (apps pars : list Submission) (ids : gset str)
    (i : nat) (s s' : Submission) (q : str) :
  apps !! i = Some s → (process_term t apps pars ids).1.1 !! i = Some s' →
  role s = App → validator_outcome pars true s = None → person_id s ∉ ids →
  has_partner s = Some WITH_PARTNER → partner_id s = Some q →
  (∀ p, p ∈ apps ++ pars → role p = Par → person_id p = q →
        apply_input_validation p ≠ None ∨ q ∈ ids) →
  error s' = Some E3.
Proof.
  intros Hs Hs' Hr Hv Hid Hw Hq Hnone.
  destruct (returned_app apps pars ids t i s Hs) as [Hret Ho].
  rewrite Hret in Hs'. injection Hs' as <-. simpl.
  pose proof (passed_applicant_candidate apps pars ids i s Hs Hv Hid) as Hc.
  assert (wants_partner s = true) as Hw' by by apply bool_decide_eq_true.
  destruct (candidates_kept_or_dropped apps pars ids _ Hc) as [Hk|Hd];
    [|by apply (dropped_final apps pars ids (i, s))].
  assert ((i, s) ∈ app_candidates apps pars ids) as Hac by by apply elem_of_app_candidates.
  assert (lookup_partner (partner_by_id apps pars ids) s = None) as Hl.
  { destruct (lookup_partner (partner_by_id apps pars ids) s) as [p|] eqn:E; [|done].
    apply (lookup_partner_Some apps pars ids (i, s) p) in E as [Hp Hpid]. simpl in Hpid.
    assert (person_id p.2 = q) as Hpq by congruence.
    pose proof (par_candidate_validated apps pars ids p Hp) as Hpv.
    apply elem_of_par_candidates in Hp as [Hpk Hpr].
    pose proof (kept_candidates apps pars ids p Hpk) as Hpc.
    destruct (candidate_passed apps pars ids p Hpc) as [_ Hpid'].
    destruct (Hnone p.2) as [?|?]; [|done|done|done|congruence].
    rewrite <- all_objs_snd. apply list_elem_of_fmap_2. by apply (kept_all apps pars ids). }
  apply sticky_unm_fin.
  pose proof (stage_in _ _ _ _ _ _ (unmatched_stage apps pars ids) (i, s) Hac) as E.
  simpl in E. rewrite E. unfold f_unmatched. simpl. by rewrite Hw', Hl.
Qed.

Lemma applicant_of_a_rejected_partner_witness :
  (SampleRejected.apps !! 0%nat = Some SampleRejected.cho ∧
   (process_term 0 SampleRejected.apps SampleRejected.pars ∅).1.1 !! 0%nat
     = Some SampleRejected.cho_returned ∧
   role SampleRejected.cho = App ∧
   validator_outcome SampleRejected.pars true SampleRejected.cho = None ∧
   (person_id SampleRejected.cho ∉@{gset str} ∅) ∧
   has_partner SampleRejected.cho = Some WITH_PARTNER ∧
   partner_id SampleRejected.cho = Some (lit "1500003") ∧
   Forall (λ p, role p = Par → person_id p = lit "1500003" →
                apply_input_validation p ≠ None ∨ lit "1500003" ∈@{gset str} ∅)
          (SampleRejected.apps ++ SampleRejected.pars)) ∧
  error SampleRejected.cho_returned = Some E3.
Proof.
  assert (SampleRejected.apps !! 0%nat = Some SampleRejected.cho) as H1 by by_evaluation.
  assert ((process_term 0 SampleRejected.apps SampleRejected.pars ∅).1.1 !! 0%nat
            = Some SampleRejected.cho_returned) as H2 by by_evaluation.
  assert (role SampleRejected.cho = App) as H3 by by_evaluation.
  assert (validator_outcome SampleRejected.pars true SampleRejected.cho = None) as H4
    by by_evaluation.
  assert (person_id SampleRejected.cho ∉@{gset str} ∅) as H5 by by_evaluation.
  assert (has_partner SampleRejected.cho = Some WITH_PARTNER) as H6 by by_evaluation.
  assert (partner_id SampleRejected.cho = Some (lit "1500003")) as H7 by by_evaluation.
  assert (Forall (λ p, role p = Par → person_id p = lit "1500003" →
                       apply_input_validation p ≠ None ∨ lit "1500003" ∈@{gset str} ∅)
                 (SampleRejected.apps ++ SampleRejected.pars)) as H8 by by_evaluation.
  split; [by split_and!|].
  exact (applicant_of_a_rejected_partner_gets_E3 0 SampleRejected.apps SampleRejected.pars ∅
           0 _ _ _ H1 H2 H3 H4 H5 H6 H7 (proj1 (Forall_forall _ _) H8)).
Defined.

(** ** Across the terms of a run *)

(** The persons of the rows of a term were not in [ineligible_ids]. *)
Lemma row_members_eligible (apps pars : list Submission) (ids : gset str) (x : str) :
  x ∈ members (valid_rows apps pars ids) → x ∉ ids.
Proof.
  unfold members. rewrite valid_rows_eq, <- !list_fmap_compose.
  intros [Hx|Hx]%elem_of_app.
  - apply list_elem_of_fmap in Hx as (a & -> & Ha). simpl. rewrite row_of_app_id.
    apply (candidate_passed apps pars ids), kept_candidates.
    by apply survivor_kept.
  - apply list_elem_of_filter in Hx as [Hne Hx].
    apply list_elem_of_fmap in Hx as (a & -> & Ha). simpl in *.
    destruct (wants_partner a.2) eqn:Hw;
      [|by rewrite (survivor_solo apps pars ids a Hw) in Hne].
    destruct (survivor_partner apps pars ids a Ha Hw) as (p & Hp & _ & ->).
    unfold row_par_id. simpl.
    apply (candidate_passed apps pars ids), kept_candidates.
    by apply elem_of_par_candidates in Hp as [? _].
Qed.

Lemma elem_of_winners (rows : list alloc_row) (x : str) : x ∈ winners rows ↔ x ∈ members rows.
Proof.
  unfold winners, members. by rewrite elem_of_union, !elem_of_list_to_set, elem_of_app.
Qed.

Lemma run_terms_members (apps pars : list Submission) (terms : list Z) :
  NoDup (run_terms apps pars terms ≫= (λ r, members (tr_rows r))) ∧
  ∀ x, x ∈ run_terms apps pars terms ≫= (λ r, members (tr_rows r)) →
       x ∈ carried apps pars terms.
Proof.
  induction terms as [|t terms [IH1 IH2]] using rev_ind.
  - split; [constructor|]. intros x Hx. by apply elem_of_nil in Hx.
  - rewrite run_terms_snoc, bind_app, bind_singleton, carried_snoc, run_term_after.
    assert (tr_rows (run_term apps pars (carried apps pars terms) t) =
            valid_rows (filter (λ s, term s = t) apps) (filter (λ s, term s = t) pars)
                       (carried apps pars terms)) as E.
    { pose proof (run_term_outputs apps pars (carried apps pars terms) t) as H.
      exact (f_equal snd H). }
    split.
    + apply NoDup_app. split_and!; [done| |].
      * intros x Hx Hx'. rewrite E in Hx'.
        apply row_members_eligible in Hx'. by apply Hx', IH2.
      * rewrite E. apply valid_rows_NoDup.
    + intros x [Hx|Hx]%elem_of_app; apply elem_of_union; [left; by apply IH2|right].
      by apply elem_of_winners.
Qed.

(** X12: in a run, no person stands in two rows, in the same term or in
    different ones, as applicant or as partner. *)
Theorem nobody_is_allocated_twice_in_a_run
    (apps pars : list Submission) (results : list term_result) :
  main_loop apps pars = Some results →
  NoDup (results ≫= (λ r, members (tr_rows r))).
Proof.
  intros [n ->]%main_loop_results. apply run_terms_members.
Qed.

Lemma nobody_is_allocated_twice_witness :
  main_loop Sample.apps Sample.pars = Some Sample.results ∧
  NoDup (Sample.results ≫= (λ r, members (tr_rows r))).
Proof.
  assert (main_loop Sample.apps Sample.pars = Some Sample.results) as H by by_evaluation.
  split; [done|]. exact (nobody_is_allocated_twice_in_a_run _ _ _ H).
Defined.

(** ** The files of the rows *)

Lemma str_lt_asym a b : str_lt a b = true → str_lt b a = false.
Proof.
  revert b. induction a as [|x a IH]; intros [|y b]; simpl; try done.
  repeat case_bool_decide; try done; try lia. apply IH.
Qed.

Lemma str_lt_negtrans a b c : str_lt a c = true → str_lt a b = true ∨ str_lt b c = true.
Proof.
  revert b c. induction a as [|x a IH]; intros [|y b] [|z c]; simpl; try done; auto.
  repeat case_bool_decide; subst; try done; auto; try lia.
Qed.

Lemma setdefault_append_keyed {V} (g : Z → list V) (k : Z) (v : V) (ks : list Z) :
  k ∈ ks → NoDup ks →
  setdefault_append k v ((λ i, (i, g i)) <$> ks) =
  (λ i, (i, if decide (i = k) then g i ++ [v] else g i)) <$> ks.
Proof.
  induction ks as [|i ks IH]; [by intros ?%elem_of_nil|].
  intros Hk [Hi Hnd]%NoDup_cons. simpl. destruct (decide (k = i)) as [->|Hne].
  - rewrite decide_True by done. f_equal.
    apply list_fmap_ext. intros j x Hx%list_elem_of_lookup_2.
    rewrite decide_False; [done|]. by intros ->.
  - rewrite decide_False by done. f_equal. apply IH; [|done].
    by apply elem_of_cons in Hk as [?|?].
Qed.

(** The dict of the floors holds, for each floor from 2 to 6, the rows of
    that floor in the order of [valid_rows]. *)
Lemma by_floor_spec (rows : list alloc_row) :
  by_floor rows = (λ i, (i, fst <$> filter (λ r, row_floor r = i) rows)) <$> seqZ 2 5.
Proof.
  unfold by_floor. induction rows as [|r rows IH] using rev_ind; [done|].
  rewrite foldl_app. cbn [foldl]. rewrite IH. clear IH.
  rewrite <- list_fmap_compose.
  change ((fst ∘ (λ i, (i, fst <$> filter (λ r0, row_floor r0 = i) rows))) <$> seqZ 2 5)
    with (id <$> seqZ 2 5). rewrite list_fmap_id.
  case_bool_decide as Hin.
  - rewrite (setdefault_append_keyed (λ i, fst <$> filter (λ r0, row_floor r0 = i) rows))
      by (done || apply NoDup_seqZ).
    apply list_fmap_ext. intros j i _. f_equal. rewrite filter_app, fmap_app.
    destruct (decide (i = row_floor r)) as [->|Hne].
    + by rewrite filter_cons_True.
    + rewrite filter_cons_False, filter_nil, app_nil_r; [done|]. congruence.
  - apply list_fmap_ext. intros j i Hi%list_elem_of_lookup_2. f_equal.
    rewrite filter_app, filter_cons_False, filter_nil, app_nil_r; [done|].
    intros E. apply Hin. by rewrite E.
Qed.

(** X13: [write_valid] makes five files, for the floors 2 to 6 in this
    order, also when there are no rows.  Each file has the header and
    then the rows of its floor, each once, in the order of their
    applicant ids; a row whose floor is not one of the five is in no
    file. *)
Theorem write_valid_sorts_the_rows_of_each_floor (rows : list alloc_row) :
  (write_valid rows).*1 = [2; 3; 4; 5; 6] ∧
  ∀ fl recs, (fl, recs) ∈ write_valid rows →
    ∃ body : list file_row,
      recs = VALID_HEADER :: (cells <$> body) ∧
      body ≡ₚ fst <$> filter (λ r, row_floor r = fl) rows ∧
      StronglySorted (λ a b : file_row, str_lt b.1.1.1 a.1.1.1 = false) body.
Proof.
  unfold write_valid. rewrite by_floor_spec. split; [by rewrite <- !list_fmap_compose|].
  intros fl recs (x & E & Hx)%list_elem_of_fmap.
  apply list_elem_of_fmap in Hx as (i & -> & _). simpl in E. injection E as -> ->.
  eexists. split; [done|]. split.
  - apply sorted_by_perm.
  - apply (sorted_by_sorted (λ a b : file_row, str_lt a.1.1.1 b.1.1.1)).
    + intros x y. apply str_lt_asym.
    + intros x y z. apply str_lt_negtrans.
Qed.

Lemma floor_counts (rows : list alloc_row) :
  Forall (λ r, 2 ≤ row_floor r ≤ 6) rows →
  length (concat (write_valid rows).*2) = (5 + length rows)%nat.
Proof.
  intros Hfl. unfold write_valid. rewrite by_floor_spec, <- !list_fmap_compose.
  change (seqZ 2 5) with [2; 3; 4; 5; 6]. simpl.
  repeat (rewrite ?length_app; cbn [length]).
  rewrite !length_fmap, !sorted_by_length, !length_fmap.
  induction Hfl as [|r rows Hr _ IH]; [done|].
  rewrite !filter_cons.
  assert (row_floor r = 2 ∨ row_floor r = 3 ∨ row_floor r = 4 ∨ row_floor r = 5 ∨
          row_floor r = 6) as Hc by lia.
  repeat case_decide; simpl; lia.
Qed.

(** X14: in a run, every row of a term is written to the file of its
    floor, and the five files of the term hold their five headers and one
    record for each row, no more: no row is left out, none is written
    twice. *)
Theorem every_row_of_a_run_is_written
    (parse_timestamp : str → option datetime) (app_rows par_rows : list Row)
    (results : list term_result) (r : term_result) :
  main parse_timestamp app_rows par_rows = Some results → r ∈ results →
  (∀ row, row ∈ tr_rows r →
     ∃ recs, (row_floor row, recs) ∈ write_valid (tr_rows r) ∧ cells row.1 ∈ recs) ∧
  length (concat (write_valid (tr_rows r)).*2) = (5 + length (tr_rows r))%nat.
Proof.
  unfold main. intros Hmain Hr.
  destruct (main_build parse_timestamp app_rows par_rows) as [[[start apps] pars]|] eqn:Hb;
    [|done].
  simpl in Hmain. apply main_loop_results in Hmain as [n ->].
  apply list_elem_of_lookup in Hr as [i (t & _ & ->)%run_terms_lookup].
  destruct (main_build_inv _ _ _ _ _ _ Hb) as [HA HP].
  set (r := run_term apps pars (carried apps pars (take i (py_range n))) t).
  assert (Forall (λ row, 2 ≤ row_floor row ≤ 6) (tr_rows r)) as Hfl.
  { apply Forall_forall. intros row Hrow.
    eapply (valid_rows_well_formed (filter (λ s, term s = t) apps)
              (filter (λ s, term s = t) pars)); [|exact Hrow].
    apply Forall_app. split; apply Forall_forall.
    - intros s [_ Hs]%list_elem_of_filter. rewrite Forall_forall in HA.
      by destruct (HA s Hs) as (_ & _ & ?).
    - intros s [_ Hs]%list_elem_of_filter. rewrite Forall_forall in HP.
      by destruct (HP s Hs) as (_ & _ & ?). }
  split; [|by apply floor_counts].
  intros row Hrow. rewrite Forall_forall in Hfl. specialize (Hfl row Hrow).
  unfold write_valid. rewrite by_floor_spec, <- list_fmap_compose.
  eexists. split.
  - apply list_elem_of_fmap. exists (row_floor row). split; [done|].
    apply elem_of_seqZ. lia.
  - right. apply list_elem_of_fmap. exists row.1. split; [done|].
    apply elem_of_sorted_by, list_elem_of_fmap. exists row. split; [done|].
    by apply list_elem_of_filter.
Qed.

Lemma every_row_of_a_run_is_written_witness :
  (main strptime_canonical Sample.app_rows Sample.par_rows = Some Sample.results ∧
   Sample.week1 ∈ Sample.results) ∧
  length (concat (write_valid (tr_rows Sample.week1)).*2)
    = (5 + length (tr_rows Sample.week1))%nat.
Proof.
  assert (main strptime_canonical Sample.app_rows Sample.par_rows = Some Sample.results)
    as H1 by by_evaluation.
  assert (Sample.week1 ∈ Sample.results) as H2 by by_evaluation.
  split; [by split|].
  exact (proj2 (every_row_of_a_run_is_written _ _ _ _ _ H1 H2)).
Defined.

(** ** The files of the submissions *)

Lemma sorted_by_fixed {A} (lt : A → A → bool) (l : list A) :
  StronglySorted (not_after lt) l → sorted_by lt l = l.
Proof.
  induction 1 as [|x l Hs IH Hx]; simpl; [done|]. rewrite IH.
  destruct l as [|y l']; [done|]. simpl.
  apply Forall_inv in Hx. unfold not_after in Hx. by rewrite Hx.
Qed.

Lemma StronglySorted_fmap_inv {A B} (f : A → B) (R1 : relation A) (R2 : relation B)
    (l : list A) :
  (∀ x y, R2 (f x) (f y) → R1 x y) →
  StronglySorted R2 (f <$> l) → StronglySorted R1 l.
Proof.
  intros HR. induction l as [|x l IH]; simpl; intros H; [constructor|].
  apply StronglySorted_inv in H as [H1 H2]. constructor; [by apply IH|].
  rewrite Forall_fmap in H2. eapply Forall_impl; [done|]. intros y Hy. by apply HR.
Qed.

Lemma StronglySorted_sublist {A} (R : relation A) (l k : list A) :
  l `sublist_of` k → StronglySorted R k → StronglySorted R l.
Proof.
  induction 1 as [|x l k Hlk IH|x l k Hlk IH]; intros Hk; [done| |].
  - apply StronglySorted_inv in Hk as [Hk Hx]. constructor; [by apply IH|].
    apply Forall_forall. intros y Hy. rewrite Forall_forall in Hx. apply Hx.
    by eapply elem_of_sublist.
  - apply StronglySorted_inv in Hk as [Hk _]. by apply IH.
Qed.

Lemma seq_increasing (a n : nat) : StronglySorted Z.le (Z.of_nat <$> seq a n).
Proof.
  revert a. induction n as [|n IH]; intros a; simpl; constructor; [apply IH|].
  apply Forall_forall. intros z (k & -> & Hk%elem_of_seq)%list_elem_of_fmap. lia.
Qed.

Lemma built_lookup (f : nat → Row → option Submission) (rows : list Row)
    (subs : list Submission) (i : nat) (s : Submission) :
  mapM id (imap f rows) = Some subs → subs !! i = Some s →
  ∃ r, rows !! i = Some r ∧ f i r = Some s.
Proof.
  intros Hm%mapM_Some_1 Hs.
  destruct (Forall2_lookup_r _ _ _ _ _ Hm Hs) as (x & Hx & Hxs).
  rewrite list_lookup_imap in Hx. destruct (rows !! i) as [r|]; [|done].
  exists r. split; [done|]. simpl in Hx. by simplify_eq.
Qed.

Lemma built_row_index (f : nat → Row → option Submission) (rows : list Row)
    (subs : list Submission) :
  (∀ i r s, f i r = Some s → row_index s = Z.of_nat i) →
  mapM id (imap f rows) = Some subs →
  row_index <$> subs = Z.of_nat <$> seq 0 (length subs).
Proof.
  intros Hf Hm. apply list_eq. intros i. rewrite !list_lookup_fmap.
  destruct (subs !! i) as [s|] eqn:Hs; simpl.
  - destruct (built_lookup f rows subs i s Hm Hs) as (r & _ & Hr).
    rewrite (Hf _ _ _ Hr). apply lookup_lt_Some in Hs.
    by rewrite lookup_seq_lt.
  - apply lookup_ge_None in Hs. by rewrite lookup_seq_ge.
Qed.

Section row_order.
Variable parse_timestamp : str → option datetime.

(** The submissions are built in the order of the records, so their
    [row_index] does not go down along each list. *)
Lemma main_build_increasing (app_rows par_rows : list Row) start apps pars :
  main_build parse_timestamp app_rows par_rows = Some (start, apps, pars) →
  StronglySorted Z.le (row_index <$> apps) ∧ StronglySorted Z.le (row_index <$> pars).
Proof.
  unfold main_build, build_submissions.
  destruct (mapM _ (app_rows ++ par_rows)) as [all_ts|]; [|done]. simpl.
  destruct (py_min all_ts) as [m|]; [|done]. simpl.
  destruct (term_start_from_timestamp m) as [st|]; [|done]. simpl.
  destruct (mapM id (imap (build_app parse_timestamp st) app_rows)) as [a|] eqn:Ea; [|done].
  simpl.
  destruct (mapM id (imap (build_par parse_timestamp st) par_rows)) as [p|] eqn:Ep; [|done].
  simpl. intros [= <- <- <-]. split.
  - rewrite (built_row_index _ _ _ (λ i r s H, proj1 (proj2 (proj2 (proj2
               (build_app_inv parse_timestamp st i r s H))))) Ea).
    apply seq_increasing.
  - rewrite (built_row_index _ _ _ (λ i r s H, proj1 (proj2 (proj2 (proj2
               (build_par_inv parse_timestamp st i r s H))))) Ep).
    apply seq_increasing.
Qed.
End row_order.

Lemma read_back_row_index (apps pars : list Submission) (ids : gset str) (objs : list obj) :
  row_index <$> read_back apps pars ids objs = row_index <$> objs.*2.
Proof.
  unfold read_back. cbv zeta. rewrite <- !list_fmap_compose.
  apply list_fmap_ext. by intros i [a []] _.
Qed.

(** The lists that a term hands back are in the order of [row_index]. *)
Lemma run_term_increasing (apps pars : list Submission) (ids : gset str) (t : Z) :
  StronglySorted Z.le (row_index <$> apps) → StronglySorted Z.le (row_index <$> pars) →
  StronglySorted Z.le (row_index <$> tr_apps (run_term apps pars ids t)) ∧
  StronglySorted Z.le (row_index <$> tr_pars (run_term apps pars ids t)).
Proof.
  intros HA HP.
  unfold run_term, process_term, process_term_result. cbn [tr_apps tr_pars].
  rewrite !read_back_row_index.
  assert (∀ l : list Submission, (app_objs l).*2 = l) as E1
    by (intros l; apply (imap_offset_snd l 0)).
  assert (∀ l k : list Submission, (par_objs l k).*2 = k) as E2
    by (intros l k; apply imap_offset_snd).
  rewrite E1, E2.
  split; [eapply StronglySorted_sublist; [|exact HA]|eapply StronglySorted_sublist; [|exact HP]];
    apply fmap_sublist, sublist_filter.
Qed.

(** A list in the order of [row_index], every element with a code, is
    written as it stands. *)
Lemma write_invalid_in_order (columns : list str) (subs : list Submission) :
  RESULT ∉ columns → StronglySorted Z.le (row_index <$> subs) →
  Forall (λ s, is_Some (error s)) subs →
  write_invalid columns subs =
    (columns ++ [RESULT]) ::
    ((λ s, (row_get (row s) <$> columns) ++ [from_option code_str [] (error s)]) <$> subs).
Proof.
  intros Hres Hs Hcoded. unfold write_invalid. f_equal.
  rewrite sorted_by_fixed.
  - apply list_fmap_ext. intros i s Hi%list_elem_of_lookup_2.
    rewrite Forall_forall in Hcoded. destruct (Hcoded s Hi) as [c Hc].
    unfold invalid_record. rewrite Hc. simpl. f_equal.
    apply list_fmap_ext. intros j k Hk%list_elem_of_lookup_2.
    rewrite bool_decide_false; [done|]. by intros ->.
  - eapply (StronglySorted_fmap_inv row_index); [|done].
    intros x y Hxy. unfold not_after. apply bool_decide_eq_false. lia.
Qed.

Lemma run_term_coded (apps pars : list Submission) (ids : gset str) (t : Z) :
  Forall (λ s, is_Some (error s)) (tr_apps (run_term apps pars ids t)) ∧
  Forall (λ s, is_Some (error s)) (tr_pars (run_term apps pars ids t)).
Proof.
  unfold run_term, process_term, process_term_result. cbn [tr_apps tr_pars].
  split; apply Forall_forall; intros s (o & Ho & ->)%elem_of_read_back; simpl.
  - destruct (final_coded _ _ ids o
                (app_objs_all _ (filter (λ s, term s = t) pars) o Ho)) as [c ->].
    by exists c.
  - destruct (final_coded _ _ ids o (par_objs_all _ _ o Ho)) as [c ->]. by exists c.
Qed.

Lemma written_in_order (columns : list str) (subs : list Submission) :
  RESULT ∉ columns → StronglySorted Z.le (row_index <$> subs) →
  Forall (λ s, is_Some (error s)) subs →
  head (write_invalid columns subs) = Some (columns ++ [RESULT]) ∧
  Forall2 (λ s rec, ∃ c, error s = Some c ∧
                         rec = (row_get (row s) <$> columns) ++ [code_str c])
          subs (tail (write_invalid columns subs)).
Proof.
  intros Hres Hs Hcoded. rewrite write_invalid_in_order by done. simpl.
  split; [done|]. apply Forall2_fmap_r, Forall_Forall2_diag.
  eapply Forall_impl; [exact Hcoded|]. intros s [c Hc]. exists c. by rewrite Hc.
Qed.

(** X15: for every term of a run, the file of the applicants has the
    header (the columns, then "結果") and after it one record for each
    applicant submission that the term hands back, the accepted ones too,
    in their order, which is that of the input records: the cells of the
    columns, a missing one empty, and the code of the submission.  The
    same holds of the file of the partner forms.  The code written when a
    submission has none is never needed. *)
Theorem invalid_files_list_every_submission
    (parse_timestamp : str → option datetime) (app_rows par_rows : list Row)
    (results : list term_result) (r : term_result) :
  main parse_timestamp app_rows par_rows = Some results → r ∈ results →
  (head (write_invalid APP_COLUMNS (tr_apps r)) = Some (APP_COLUMNS ++ [RESULT]) ∧
   Forall2 (λ s rec, ∃ c, error s = Some c ∧
                          rec = (row_get (row s) <$> APP_COLUMNS) ++ [code_str c])
           (tr_apps r) (tail (write_invalid APP_COLUMNS (tr_apps r)))) ∧
  (head (write_invalid PAR_COLUMNS (tr_pars r)) = Some (PAR_COLUMNS ++ [RESULT]) ∧
   Forall2 (λ s rec, ∃ c, error s = Some c ∧
                          rec = (row_get (row s) <$> PAR_COLUMNS) ++ [code_str c])
           (tr_pars r) (tail (write_invalid PAR_COLUMNS (tr_pars r)))).
Proof.
  unfold main. intros Hmain Hr.
  destruct (main_build parse_timestamp app_rows par_rows) as [[[start apps] pars]|] eqn:Hb;
    [|done].
  simpl in Hmain. apply main_loop_results in Hmain as [n ->].
  apply list_elem_of_lookup in Hr as [i (t & _ & ->)%run_terms_lookup].
  destruct (main_build_increasing _ _ _ _ _ _ Hb) as [HA HP].
  destruct (run_term_increasing apps pars (carried apps pars (take i (py_range n))) t HA HP)
    as [HA' HP'].
  destruct (run_term_coded apps pars (carried apps pars (take i (py_range n))) t)
    as [HcA HcP].
  split; apply written_in_order; try done; by_evaluation.
Qed.

Lemma invalid_files_witness :
  (main strptime_canonical Sample.app_rows Sample.par_rows = Some Sample.results ∧
   Sample.week2 ∈ Sample.results) ∧
  head (write_invalid APP_COLUMNS (tr_apps Sample.week2)) = Some (APP_COLUMNS ++ [RESULT]).
Proof.
  assert (main strptime_canonical Sample.app_rows Sample.par_rows = Some Sample.results)
    as H1 by by_evaluation.
  assert (Sample.week2 ∈ Sample.results) as H2 by by_evaluation.
  split; [by split|].
  exact (proj1 (proj1 (invalid_files_list_every_submission _ _ _ _ _ H1 H2))).
Defined.

(** ** The calendar *)

Lemma valid_datetime_fields d :
  valid_datetime d →
  1 ≤ year d ≤ 9999 ∧ 1 ≤ month d ≤ 12 ∧ 1 ≤ day d ≤ days_in_month (year d) (month d) ∧
  0 ≤ hour d ≤ 23 ∧ 0 ≤ minute d ≤ 59 ∧ 0 ≤ second d ≤ 59.
Proof. unfold valid_datetime, new_datetime. by case_bool_decide. Qed.

Lemma new_datetime_valid y m d hh mm ss dt :
  new_datetime y m d hh mm ss = Some dt → valid_datetime dt.
Proof.
  unfold valid_datetime, new_datetime. case_bool_decide as H; [|done].
  intros [= <-]. simpl. by rewrite bool_decide_true.
Qed.

Lemma days_before_year_step y :
  days_before_year (y + 1) = days_before_year y + 365 + (if is_leap y then 1 else 0).
Proof.
  unfold days_before_year, is_leap. cbv zeta.
  replace (y + 1 - 1) with y by lia.
  repeat case_bool_decide; simpl; Z.div_mod_to_equations; lia.
Qed.

Lemma days_before_year_le y y' : y ≤ y' → days_before_year y ≤ days_before_year y'.
Proof. unfold days_before_year. cbv zeta. intros H. Z.div_mod_to_equations. lia. Qed.

(** The table of the months: a month begins after the one before it has
    ended, and the last one ends with the year. *)
Lemma calendar_table (y : Z) :
  Forall (λ m, 0 ≤ days_before_month y m ∧ 1 ≤ days_in_month y m ∧
               days_before_month y m + days_in_month y m
                 ≤ 365 + (if is_leap y then 1 else 0) ∧
               Forall (λ m', m < m' →
                             days_before_month y m + days_in_month y m
                               ≤ days_before_month y m')
                      (seqZ 1 12))
         (seqZ 1 12).
Proof.
  unfold days_before_month, days_in_month. generalize (is_leap y). intros b.
  destruct b; apply (bool_decide_unpack _); vm_compute; exact I.
Qed.

Lemma month_table (y m : Z) :
  1 ≤ m ≤ 12 →
  0 ≤ days_before_month y m ∧ 1 ≤ days_in_month y m ∧
  days_before_month y m + days_in_month y m ≤ 365 + (if is_leap y then 1 else 0) ∧
  ∀ m', m < m' ≤ 12 →
        days_before_month y m + days_in_month y m ≤ days_before_month y m'.
Proof.
  intros Hm. pose proof (calendar_table y) as H. rewrite Forall_forall in H.
  destruct (H m) as (H1 & H2 & H3 & H4); [apply elem_of_seqZ; lia|].
  split_and!; [done..|]. intros m' Hm'. rewrite Forall_forall in H4.
  apply H4; [apply elem_of_seqZ|]; lia.
Qed.

(** The day number of a date lies in the year of the date. *)
Lemma toordinal_bounds d :
  valid_datetime d →
  days_before_year (year d) < toordinal d ≤ days_before_year (year d + 1).
Proof.
  intros (Hy & Hm & Hd & _)%valid_datetime_fields.
  destruct (month_table (year d) (month d) Hm) as (H1 & H2 & H3 & _).
  rewrite days_before_year_step. unfold toordinal. lia.
Qed.

(** An earlier date has a smaller day number. *)
Lemma toordinal_lt a b :
  valid_datetime a → valid_datetime b →
  year a < year b ∨
    (year a = year b ∧
     (month a < month b ∨ (month a = month b ∧ day a < day b))) →
  toordinal a < toordinal b.
Proof.
  intros Ha Hb Hlt.
  pose proof (toordinal_bounds a Ha) as Hba. pose proof (toordinal_bounds b Hb) as Hbb.
  apply valid_datetime_fields in Ha as (_ & Hma & Hda & _).
  apply valid_datetime_fields in Hb as (_ & Hmb & Hdb & _).
  destruct Hlt as [Hy|[Hy [Hm|[Hm Hd]]]].
  - pose proof (days_before_year_le (year a + 1) (year b)). lia.
  - destruct (month_table (year a) (month a) Hma) as (_ & _ & _ & H).
    specialize (H (month b)). unfold toordinal. rewrite <- Hy in *. lia.
  - unfold toordinal. rewrite Hy, Hm. lia.
Qed.

Lemma second_of_day_bounds d : valid_datetime d → 0 ≤ second_of_day d < 86400.
Proof.
  intros (_ & _ & _ & Hh & Hm & Hs)%valid_datetime_fields. unfold second_of_day. lia.
Qed.

Lemma total_seconds_eq ts start :
  total_seconds ts start =
  (toordinal ts - toordinal start) * 86400 + (second_of_day ts - second_of_day start).
Proof. done. Qed.

(** A time that is not before another one is no second before it. *)
Lemma total_seconds_nonneg ts start :
  valid_datetime ts → valid_datetime start → dt_lt ts start = false →
  0 ≤ total_seconds ts start.
Proof.
  intros Hts Hst Hlt. apply bool_decide_eq_false in Hlt.
  rewrite total_seconds_eq.
  pose proof (second_of_day_bounds ts Hts). pose proof (second_of_day_bounds start Hst).
  unfold dt_compare, dt_fields in Hlt. simpl in Hlt.
  destruct (Z.compare_spec (year ts) (year start)) as [Ey|Ey|Ey]; [|done|].
  2:{ pose proof (toordinal_lt start ts Hst Hts). lia. }
  destruct (Z.compare_spec (month ts) (month start)) as [Em|Em|Em]; [|done|].
  2:{ pose proof (toordinal_lt start ts Hst Hts). lia. }
  destruct (Z.compare_spec (day ts) (day start)) as [Ed|Ed|Ed]; [|done|].
  2:{ pose proof (toordinal_lt start ts Hst Hts). lia. }
  assert (toordinal ts = toordinal start) as -> by (unfold toordinal; congruence).
  apply valid_datetime_fields in Hts as (_ & _ & _ & ? & ? & ?).
  apply valid_datetime_fields in Hst as (_ & _ & _ & ? & ? & ?).
  unfold second_of_day.
  destruct (Z.compare_spec (hour ts) (hour start)) as [Eh|Eh|Eh]; [|done|lia].
  destruct (Z.compare_spec (minute ts) (minute start)) as [Emi|Emi|Emi]; [|done|lia].
  destruct (Z.compare_spec (second ts) (second start)) as [Es|Es|Es]; [lia|done|lia].
Qed.

(** The anchor is a date, and the timestamp it is taken from is not
    before it. *)
Lemma term_start_not_after ts start :
  term_start_from_timestamp ts = Some start →
  valid_datetime start ∧ dt_lt ts start = false.
Proof.
  unfold term_start_from_timestamp.
  destruct (new_datetime (year ts) 4 1 0 0 0) as [s0|] eqn:E0; [|done]. simpl.
  destruct (dt_lt ts s0) eqn:Elt.
  - intros E1. split; [by eapply new_datetime_valid|].
    unfold new_datetime in E1. case_bool_decide; [|done]. injection E1 as <-.
    apply bool_decide_eq_false. unfold dt_compare, dt_fields. simpl.
    destruct (Z.compare_spec (year ts) (year ts - 1)); [lia|lia|done].
  - intros [= <-]. split; [by eapply new_datetime_valid|done].
Qed.

(** [max] returns an element that no element is above. *)
Lemma py_max_spec l m : py_max l = Some m → m ∈ l ∧ ∀ x, x ∈ l → x ≤ m.
Proof.
  destruct l as [|x l]; [done|]. simpl. intros [= <-].
  revert x. induction l as [|y l IH]; intros x; simpl.
  - split; [by left|]. by intros z ->%list_elem_of_singleton.
  - destruct (IH (if bool_decide (x < y) then y else x)) as [H1 H2]. split.
    + apply elem_of_cons in H1 as [->|H1].
      * case_bool_decide; [right; by left|by left].
      * by right; right.
    + intros z Hz. pose proof (H2 (if bool_decide (x < y) then y else x)) as Hm.
      specialize (Hm ltac:(by left)).
      apply elem_of_cons in Hz as [->|Hz]; [|apply elem_of_cons in Hz as [->|Hz]].
      * case_bool_decide; lia.
      * case_bool_decide; lia.
      * apply H2. by right.
Qed.

(** ** Every submission has its term *)

Lemma strptime_canonical_valid x d : strptime_canonical x = Some d → valid_datetime d.
Proof.
  unfold strptime_canonical. intros H.
  do 19 (destruct x as [|? x]; [done|]). destruct x; [|done].
  case_bool_decide; [|done].
  repeat match type of H with
         | mbind _ ?o = _ => destruct o; simpl in H; [|done]
         end.
  by eapply new_datetime_valid.
Qed.

Lemma with_error_None_id (l : list Submission) :
  Forall (λ s, error s = None) l → with_error None <$> l = l.
Proof.
  intros H. rewrite <- (list_fmap_id l) at 2. apply list_fmap_ext.
  intros i s Hs%list_elem_of_lookup_2. rewrite Forall_forall in H. specialize (H s Hs).
  destruct s. simpl in H. by subst.
Qed.

Lemma read_back_erased (apps pars : list Submission) (ids : gset str) (objs : list obj) :
  with_error None <$> read_back apps pars ids objs = with_error None <$> objs.*2.
Proof.
  unfold read_back. cbv zeta. rewrite <- !list_fmap_compose.
  apply list_fmap_ext. by intros i [a []] _.
Qed.

(** The terms taken one after the other give each submission once. *)
Lemma terms_bind_filter (l : list Submission) (ts : list Z) :
  NoDup ts → Forall (λ s, term s ∈ ts) l →
  ts ≫= (λ t, filter (λ s, term s = t) l) ≡ₚ l.
Proof.
  intros Hnd Hl. induction Hl as [|x l Hx _ IH].
  - induction ts as [|t ts IHts]; [done|]. rewrite bind_cons.
    apply NoDup_cons in Hnd as [_ Hnd]. by rewrite (IHts Hnd).
  - transitivity (x :: ts ≫= (λ t, filter (λ s, term s = t) l)); [|by f_equiv].
    clear IH. induction ts as [|t ts IHts].
    { by apply elem_of_nil in Hx. }
    apply NoDup_cons in Hnd as [Ht Hnd]. rewrite !bind_cons, filter_cons.
    destruct (decide (term x = t)) as [E|E].
    + assert (ts ≫= (λ t, filter (λ s, term s = t) (x :: l)) =
              ts ≫= (λ t, filter (λ s, term s = t) l)) as ->; [|done].
      apply Forall_bind_ext, Forall_forall. intros t' Ht'.
      rewrite filter_cons_False; [done|]. intros E'. apply Ht. congruence.
    + rewrite IHts; [|done|by apply elem_of_cons in Hx as [?|?]].
      by rewrite Permutation_middle.
Qed.

Lemma run_terms_apps (apps pars : list Submission) (terms : list Z) :
  with_error None <$> (run_terms apps pars terms ≫= tr_apps) =
    with_error None <$> (terms ≫= (λ t, filter (λ s, term s = t) apps)) ∧
  with_error None <$> (run_terms apps pars terms ≫= tr_pars) =
    with_error None <$> (terms ≫= (λ t, filter (λ s, term s = t) pars)).
Proof.
  assert (∀ l : list Submission, (app_objs l).*2 = l) as E1
    by (intros l; apply (imap_offset_snd l 0)).
  assert (∀ l k : list Submission, (par_objs l k).*2 = k) as E2
    by (intros l k; apply imap_offset_snd).
  induction terms as [|t terms [IH1 IH2]] using rev_ind; [done|].
  rewrite run_terms_snoc, !bind_app, !bind_singleton, !fmap_app, IH1, IH2.
  unfold run_term, process_term, process_term_result. cbn [tr_apps tr_pars].
  by rewrite !read_back_erased, E1, E2.
Qed.

Lemma py_range_NoDup n : NoDup (py_range n).
Proof.
  unfold py_range. apply NoDup_fmap_2; [apply Nat2Z.inj'|apply NoDup_seq].
Qed.

Lemma elem_of_py_range n t : t ∈ py_range n ↔ 0 ≤ t < n.
Proof.
  unfold py_range. rewrite list_elem_of_fmap. split.
  - intros (k & -> & Hk%elem_of_seq). lia.
  - intros Ht. exists (Z.to_nat t). split; [lia|]. apply elem_of_seq. lia.
Qed.

Section terms.
Variable parse_timestamp : str → option datetime.
Hypothesis parse_valid : ∀ x d, parse_timestamp x = Some d → valid_datetime d.

Lemma row_timestamp_valid r d :
  row_timestamp parse_timestamp r = Some d → valid_datetime d.
Proof.
  unfold row_timestamp. destruct (r !! COL_TIMESTAMP); [|done]. simpl. apply parse_valid.
Qed.

(** No submission is before the anchor, so no term is negative. *)
Lemma main_build_terms (app_rows par_rows : list Row) start apps pars :
  main_build parse_timestamp app_rows par_rows = Some (start, apps, pars) →
  Forall (λ s, 0 ≤ term s ∧ error s = None) (apps ++ pars).
Proof.
  unfold main_build, build_submissions.
  destruct (mapM _ (app_rows ++ par_rows)) as [all_ts|] eqn:Hts; [|done]. simpl.
  destruct (py_min all_ts) as [m|] eqn:Hm; [|done]. simpl.
  destruct (term_start_from_timestamp m) as [st|] eqn:Hst; [|done]. simpl.
  destruct (mapM id (imap (build_app parse_timestamp st) app_rows)) as [a|] eqn:Ea; [|done].
  simpl.
  destruct (mapM id (imap (build_par parse_timestamp st) par_rows)) as [p|] eqn:Ep; [|done].
  simpl. intros [= <- <- <-].
  apply py_min_spec in Hm as [_ Hmin].
  apply term_start_not_after in Hst as [Hvalid Hnot].
  apply mapM_Some_1 in Hts.
  assert (∀ r s, r ∈ app_rows ++ par_rows →
            row_timestamp parse_timestamp r = Some (timestamp s) →
            term s = term_index (timestamp s) st → 0 ≤ term s) as Hterm.
  { intros r s [j Hj]%list_elem_of_lookup_1 Hr ->.
    destruct (Forall2_lookup_l _ _ _ _ _ Hts Hj) as (d & Hd%list_elem_of_lookup_2 & Hrd).
    assert (d = timestamp s) as -> by congruence.
    unfold term_index. apply Z.div_pos; [|lia].
    apply total_seconds_nonneg; [by eapply row_timestamp_valid|done|].
    destruct (dt_lt (timestamp s) st) eqn:E; [|done].
    destruct (dt_lt_negtrans _ m _ E) as [E'|E']; [|congruence].
    rewrite (Hmin _ Hd) in E'. done. }
  apply Forall_app. split; apply Forall_lookup; intros i s Hs.
  - destruct (built_lookup _ _ _ _ _ Ea Hs) as (r & Hr%list_elem_of_lookup_2 & Hb).
    apply build_app_inv in Hb as (Ht & Hterm' & _ & _ & _ & He).
    split; [|done]. apply (Hterm r); [|done..]. apply elem_of_app. by left.
  - destruct (built_lookup _ _ _ _ _ Ep Hs) as (r & Hr%list_elem_of_lookup_2 & Hb).
    apply build_par_inv in Hb as (Ht & Hterm' & _ & _ & _ & He).
    split; [|done]. apply (Hterm r); [|done..]. apply elem_of_app. by right.
Qed.
End terms.

(** X16: when the parser gives dates only, no term of a run is negative,
    and the loop over the terms takes every submission once: the lists
    that the terms hand back, put together and without their codes, are
    the applicant submissions and the partner forms that were built, each
    once; and a term hands back submissions of that term only. *)
Theorem every_submission_is_processed_once
    (parse_timestamp : str → option datetime) (app_rows par_rows : list Row)
    (start : datetime) (apps pars : list Submission) (results : list term_result) :
  (∀ x d, parse_timestamp x = Some d → valid_datetime d) →
  main_build parse_timestamp app_rows par_rows = Some (start, apps, pars) →
  main_loop apps pars = Some results →
  Forall (λ s, 0 ≤ term s) (apps ++ pars) ∧
  with_error None <$> (results ≫= tr_apps) ≡ₚ apps ∧
  with_error None <$> (results ≫= tr_pars) ≡ₚ pars ∧
  (∀ r s, r ∈ results → s ∈ tr_apps r ++ tr_pars r → term s = tr_term r).
Proof.
  intros Hparse Hb Hloop.
  pose proof (main_build_terms parse_timestamp Hparse _ _ _ _ _ Hb) as Hterms.
  unfold main_loop in Hloop.
  destruct (py_max (term <$> apps ++ pars)) as [mx|] eqn:Hmax; [|done].
  simpl in Hloop. injection Hloop as <-.
  apply py_max_spec in Hmax as [_ Hmax].
  rewrite Forall_forall in Hterms.
  assert (∀ s, s ∈ apps ++ pars → term s ∈ py_range (mx + 1)) as Hin.
  { intros s Hs. apply elem_of_py_range. destruct (Hterms s Hs) as [H0 _].
    specialize (Hmax (term s) (list_elem_of_fmap_2 term _ _ Hs)). lia. }
  destruct (run_terms_apps apps pars (py_range (mx + 1))) as [EA EP].
  split_and!.
  - apply Forall_forall. intros s Hs. by destruct (Hterms s Hs).
  - rewrite EA, terms_bind_filter.
    + rewrite with_error_None_id; [done|]. apply Forall_forall. intros s Hs.
      apply Hterms, elem_of_app. by left.
    + apply py_range_NoDup.
    + apply Forall_forall. intros s Hs. apply Hin, elem_of_app. by left.
  - rewrite EP, terms_bind_filter.
    + rewrite with_error_None_id; [done|]. apply Forall_forall. intros s Hs.
      apply Hterms, elem_of_app. by right.
    + apply py_range_NoDup.
    + apply Forall_forall. intros s Hs. apply Hin, elem_of_app. by right.
  - intros r s [i (t & _ & ->)%run_terms_lookup]%list_elem_of_lookup.
    rewrite run_term_term.
    unfold run_term, process_term, process_term_result. cbn [tr_apps tr_pars].
    intros [Hs|Hs]%elem_of_app; apply elem_of_read_back in Hs as ([a x] & Ho & ->); simpl.
    + apply elem_of_app_objs, list_elem_of_lookup_2 in Ho.
      by apply list_elem_of_filter in Ho as [? _].
    + apply elem_of_par_objs in Ho as (j & _ & Hj%list_elem_of_lookup_2).
      by apply list_elem_of_filter in Hj as [? _].
Qed.

Lemma every_submission_is_processed_once_witness :
  ((∀ x d, strptime_canonical x = Some d → valid_datetime d) ∧
   main_build strptime_canonical Sample.app_rows Sample.par_rows
     = Some (mkDatetime 2024 4 1 0 0 0, Sample.apps, Sample.pars) ∧
   main_loop Sample.apps Sample.pars = Some Sample.results) ∧
  with_error None <$> (Sample.results ≫= tr_apps) ≡ₚ Sample.apps.
Proof.
  assert (main_build strptime_canonical Sample.app_rows Sample.par_rows
            = Some (mkDatetime 2024 4 1 0 0 0, Sample.apps, Sample.pars)) as H1
    by by_evaluation.
  assert (main_loop Sample.apps Sample.pars = Some Sample.results) as H2 by by_evaluation.
  split; [split_and!; [exact strptime_canonical_valid|done|done]|].
  exact (proj1 (proj2 (every_submission_is_processed_once _ _ _ _ _ _ _
                         strptime_canonical_valid H1 H2))).
Defined.

(** ** When a run comes to an end *)

Section completion.
Variable parse_timestamp : str → option datetime.


End completion.



(** ** The codes that come in do not count *)

Lemma heap_eq (h h' : heap) :
  errs h = errs h' → writes h = writes h' → ineligible h = ineligible h' → h = h'.
Proof. destruct h, h'. simpl. congruence. Qed.

Lemma for_each_fmap {A B} (f : A → B) (body : B → heap → heap) (l : list A) (h : heap) :
  for_each (f <$> l) body h = for_each l (λ x, body (f x)) h.
Proof. unfold for_each. by rewrite foldl_fmap. Qed.

Lemma for_each_ext {A} (b1 b2 : A → heap → heap) (l : list A) (h : heap) :
  (∀ x h, b1 x h = b2 x h) → for_each l b1 h = for_each l b2 h.
Proof. intros H. unfold for_each. by apply foldl_ext_eq. Qed.

Lemma insert_by_fmap {A B} (f : A → B) (lt : B → B → bool) (x : A) (l : list A) :
  insert_by lt (f x) (f <$> l) = f <$> insert_by (λ a b, lt (f a) (f b)) x l.
Proof.
  induction l as [|y l IH]; csimpl; [done|]. destruct (lt (f y) (f x)); [|done].
  csimpl. by rewrite IH.
Qed.

Lemma sorted_by_fmap {A B} (f : A → B) (lt : B → B → bool) (l : list A) :
  sorted_by lt (f <$> l) = f <$> sorted_by (λ a b, lt (f a) (f b)) l.
Proof.
  induction l as [|x l IH]; csimpl; [done|]. by rewrite IH, insert_by_fmap.
Qed.

Lemma setdefault_append_fmap {K A B} `{EqDecision K} (f : A → B) (k : K) (v : A)
    (d : list (K * list A)) :
  setdefault_append k (f v) ((λ g : K * list A, (g.1, f <$> g.2)) <$> d) =
  (λ g : K * list A, (g.1, f <$> g.2)) <$> setdefault_append k v d.
Proof.
  induction d as [|[k' vs] d IH]; csimpl; [done|].
  destruct (decide (k = k')); csimpl; [by rewrite fmap_app|]. by rewrite IH.
Qed.

Lemma group_by_fmap {K A B} `{EqDecision K} (f : A → B) (key : B → K) (l : list A) :
  group_by key (f <$> l) =
  (λ g : K * list A, (g.1, f <$> g.2)) <$> group_by (λ x, key (f x)) l.
Proof.
  induction l as [|x l IH] using rev_ind; [done|].
  rewrite fmap_app. simpl. rewrite !group_by_snoc, IH. apply setdefault_append_fmap.
Qed.




Lemma group_by_ext {K V} `{EqDecision K} (k1 k2 : V → K) (l : list V) :
  (∀ x, k1 x = k2 x) → group_by k1 l = group_by k2 l.
Proof. intros H. unfold group_by. apply foldl_ext_eq. intros d x. by rewrite H. Qed.

Lemma fmap_bind_list {A B C} (f : B → C) (g : A → list B) (l : list A) :
  f <$> (l ≫= g) = l ≫= (λ x, f <$> g x).
Proof.
  induction l as [|x l IH]; [done|]. by rewrite !bind_cons, fmap_app, IH.
Qed.

Lemma sorted_by_er (items : list obj) :
  sorted_by obj_key_lt (er <$> items) = er <$> sorted_by obj_key_lt items.
Proof.
  by rewrite sorted_by_fmap.
Qed.

Lemma latest_of_er (items : list obj) : latest_of (er <$> items) = er <$> latest_of items.
Proof.
  unfold latest_of. rewrite sorted_by_er, fmap_last.
  by destruct (last (sorted_by obj_key_lt items)).
Qed.

Lemma earlier_of_er (items : list obj) : earlier_of (er <$> items) = er <$> earlier_of items.
Proof. unfold earlier_of. by rewrite sorted_by_er, length_fmap, fmap_take. Qed.

Lemma choose_latest_by_person_er (subs : list obj) :
  choose_latest_by_person (er <$> subs) =
  (er <$> (choose_latest_by_person subs).1, er <$> (choose_latest_by_person subs).2).
Proof.
  rewrite !choose_latest_by_person_eq. simpl.
  rewrite group_by_fmap, !list_fmap_bind, !fmap_bind_list.
  rewrite (group_by_ext (λ x : obj, person_id (er x).2) (λ o : obj, person_id o.2))
    by (by intros [? []]).
  f_equal; apply Forall_bind_ext, Forall_forall; intros [k items] _; simpl.
  - apply latest_of_er.
  - apply earlier_of_er.
Qed.

Lemma lookup_partner_er (index : gmap str obj) (s : Submission) :
  lookup_partner (er <$> index) s = er <$> lookup_partner index s.
Proof.
  unfold lookup_partner. destruct (partner_id s) as [p|]; simpl; [|done].
  apply lookup_fmap.
Qed.

Lemma partner_index_er (l : list obj) (m : gmap str obj) :
  foldl (λ m (o : obj), <[person_id o.2 := o]> m) (er <$> m) (er <$> l) =
  er <$> foldl (λ m (o : obj), <[person_id o.2 := o]> m) m l.
Proof.
  revert m. induction l as [|o l IH]; intros m; csimpl; [done|].
  rewrite <- IH. f_equal. by rewrite fmap_insert.
Qed.

Lemma pairing_step_er (index : gmap str obj) (st : pairing_state) (a : obj) :
  pairing_step (er <$> index) st (er a) = pairing_step index st a.
Proof.
  destruct st as [[h pd] rows]. unfold pairing_step.
  rewrite lookup_partner_er. change (er a).2 with (with_error None a.2).
  destruct a as [i []]. simpl.
  by destruct (lookup_partner index _) as [[? []]|].
Qed.

Section erasure.
Context (apps pars : list Submission) (ids : gset str).

Lemma app_objs_erased : app_objs (erased apps) = er <$> app_objs apps.
Proof. unfold app_objs, erased. by rewrite imap_fmap, fmap_imap. Qed.

Lemma par_objs_erased : par_objs (erased apps) (erased pars) = er <$> par_objs apps pars.
Proof. unfold par_objs, erased. by rewrite imap_fmap, fmap_imap, length_fmap. Qed.

Lemma all_objs_erased :
  all_objs (erased apps) (erased pars) = er <$> all_objs apps pars.
Proof. unfold all_objs. by rewrite app_objs_erased, par_objs_erased, fmap_app. Qed.
End erasure.

(** After the validation every slot holds the verdict on its object. *)
Lemma validated_errs (apps pars : list Submission) (ids : gset str) :
  errs (st_validated apps pars ids) = apply_input_validation <$> (apps ++ pars).
Proof.
  destruct (validated_spec apps pars ids) as ((_ & Hlen & _) & Hin & _).
  apply list_eq. intros i. rewrite list_lookup_fmap.
  destruct ((apps ++ pars) !! i) as [s|] eqn:Hs; simpl.
  - assert ((i, s) ∈ all_objs apps pars) as Ho.
    { apply list_elem_of_lookup. exists i.
      assert (is_Some (all_objs apps pars !! i)) as [o Hoi].
      { apply lookup_lt_is_Some. rewrite <- (length_fmap snd), all_objs_snd.
        by apply lookup_lt_Some in Hs. }
      rewrite Hoi. f_equal. destruct o as [a s'].
      pose proof (all_objs_lookup apps pars i _ Hoi) as E. simpl in E. subst a.
      f_equal. assert ((all_objs apps pars).*2 !! i = Some s') as E'
        by by rewrite list_lookup_fmap, Hoi.
      rewrite all_objs_snd in E'. congruence. }
    specialize (Hin _ Ho). unfold get_error in Hin. simpl in Hin.
    assert (is_Some (errs (st_validated apps pars ids) !! i)) as [e He].
    { apply lookup_lt_is_Some. rewrite Hlen. by apply lookup_lt_Some in Hs. }
    rewrite He in Hin |- *. simpl in Hin. by rewrite Hin.
  - apply lookup_ge_None. rewrite Hlen. by apply lookup_ge_None in Hs.
Qed.

Section erased_stages.
Context (apps pars : list Submission) (ids : gset str).

Local Abbreviation eapps := (erased apps).
Local Abbreviation epars := (erased pars).

Lemma st_validated_erased : st_validated eapps epars ids = st_validated apps pars ids.
Proof.
  apply heap_eq.
  - rewrite !validated_errs. unfold erased. rewrite <- fmap_app, <- list_fmap_compose.
    apply list_fmap_ext. intros i s _. apply with_error_validation.
  - destruct (validated_spec eapps epars ids) as (_ & _ & _ & ->).
    destruct (validated_spec apps pars ids) as (_ & _ & _ & ->).
    rewrite all_objs_erased, <- list_fmap_compose.
    apply list_fmap_ext. intros i [a s] _. simpl. by rewrite with_error_validation.
  - destruct (validated_spec eapps epars ids) as ((-> & _) & _).
    by destruct (validated_spec apps pars ids) as ((-> & _) & _).
Qed.

Lemma all_partner_ids_erased : all_partner_ids epars = all_partner_ids pars.
Proof.
  apply all_partner_ids_ext. unfold erased. rewrite <- list_fmap_compose.
  apply list_fmap_ext. by intros i [] _.
Qed.

Lemma st_partner_form_erased :
  st_partner_form eapps epars ids = st_partner_form apps pars ids.
Proof.
  unfold st_partner_form. cbv zeta.
  rewrite st_validated_erased, app_objs_erased, all_partner_ids_erased, for_each_fmap.
  apply for_each_ext. by intros [a []] h.
Qed.

Lemma st_ineligible_erased : st_ineligible eapps epars ids = st_ineligible apps pars ids.
Proof.
  unfold st_ineligible.
  rewrite st_partner_form_erased, all_objs_erased, for_each_fmap.
  apply for_each_ext. by intros [a []] h.
Qed.

Lemma candidates_erased : candidates eapps epars ids = er <$> candidates apps pars ids.
Proof.
  unfold candidates. cbv zeta.
  by rewrite st_ineligible_erased, all_objs_erased, filter_fmap.
Qed.

Lemma kept_erased : kept eapps epars ids = er <$> kept apps pars ids.
Proof. unfold kept. by rewrite candidates_erased, choose_latest_by_person_er. Qed.

Lemma dropped_erased : dropped eapps epars ids = er <$> dropped apps pars ids.
Proof. unfold dropped. by rewrite candidates_erased, choose_latest_by_person_er. Qed.

Lemma st_dedup_erased : st_dedup eapps epars ids = st_dedup apps pars ids.
Proof.
  unfold st_dedup. by rewrite st_ineligible_erased, dropped_erased, for_each_fmap.
Qed.

Lemma candidates'_erased : candidates' eapps epars ids = er <$> candidates' apps pars ids.
Proof.
  unfold candidates'. cbv zeta. by rewrite st_dedup_erased, kept_erased, filter_fmap.
Qed.

Lemma app_candidates_erased :
  app_candidates eapps epars ids = er <$> app_candidates apps pars ids.
Proof. unfold app_candidates. by rewrite candidates'_erased, filter_fmap. Qed.

Lemma par_candidates_erased :
  par_candidates eapps epars ids = er <$> par_candidates apps pars ids.
Proof. unfold par_candidates. by rewrite candidates'_erased, filter_fmap. Qed.

Lemma partner_by_id_erased :
  partner_by_id eapps epars ids = er <$> partner_by_id apps pars ids.
Proof.
  unfold partner_by_id. rewrite par_candidates_erased, <- partner_index_er.
  by rewrite fmap_empty.
Qed.

Lemma st_unmatched_erased : st_unmatched eapps epars ids = st_unmatched apps pars ids.
Proof.
  unfold st_unmatched. cbv zeta.
  rewrite st_dedup_erased, app_candidates_erased, partner_by_id_erased, for_each_fmap.
  apply for_each_ext. intros o h. rewrite lookup_partner_er.
  assert (bool_decide (er <$> lookup_partner (partner_by_id apps pars ids) (er o).2 = None)
          = bool_decide (lookup_partner (partner_by_id apps pars ids) o.2 = None)) as ->.
  { apply bool_decide_ext. rewrite fmap_None. by destruct o as [a []]. }
  by destruct o as [a []].
Qed.

Lemma applicants_by_partner_erased :
  applicants_by_partner eapps epars ids =
  (λ g : option str * list obj, (g.1, er <$> g.2)) <$> applicants_by_partner apps pars ids.
Proof.
  unfold applicants_by_partner. cbv zeta.
  by rewrite st_unmatched_erased, app_candidates_erased, filter_fmap, group_by_fmap.
Qed.

Lemma st_conflicts_erased : st_conflicts eapps epars ids = st_conflicts apps pars ids.
Proof.
  unfold st_conflicts.
  rewrite applicants_by_partner_erased, st_unmatched_erased, for_each_fmap.
  apply for_each_ext. intros [k l] h. simpl. rewrite length_fmap.
  case_bool_decide; [done|]. by rewrite sorted_by_er, <- fmap_drop, for_each_fmap.
Qed.

Lemma pairing_erased : pairing eapps epars ids = pairing apps pars ids.
Proof.
  unfold pairing.
  rewrite st_conflicts_erased, app_candidates_erased, partner_by_id_erased, foldl_fmap.
  apply foldl_ext_eq. intros st a. apply pairing_step_er.
Qed.

Lemma st_unpaired_erased : st_unpaired eapps epars ids = st_unpaired apps pars ids.
Proof.
  unfold st_unpaired, paired_partner_ids, st_paired. cbv zeta.
  rewrite pairing_erased, par_candidates_erased, for_each_fmap.
  apply for_each_ext. by intros [a []] h.
Qed.

Lemma valid_rows_erased : valid_rows eapps epars ids = valid_rows apps pars ids.
Proof. unfold valid_rows. by rewrite pairing_erased. Qed.

Lemma st_final_erased : st_final eapps epars ids = st_final apps pars ids.
Proof.
  unfold st_final, st_apps_classified, valid_app_ids, valid_par_ids.
  rewrite valid_rows_erased, st_unpaired_erased, app_objs_erased, par_objs_erased,
    !for_each_fmap.
  f_equal.
Qed.

(** [process_term] gives on the emptied submissions what it gives on the
    submissions as they come. *)
Lemma process_term_result_erased :
  process_term_result eapps epars ids = process_term_result apps pars ids.
Proof.
  unfold process_term_result, read_back. cbv zeta.
  rewrite st_final_erased, valid_rows_erased, app_objs_erased, par_objs_erased.
  by rewrite <- !list_fmap_compose.
Qed.
End erased_stages.

Lemma returned_erased (t : Z) (apps pars : list Submission) (ids : gset str) :
  erased (process_term t apps pars ids).1.1 = erased apps ∧
  erased (process_term t apps pars ids).1.2 = erased pars.
Proof.
  assert (∀ l : list Submission, (app_objs l).*2 = l) as E1
    by (intros l; apply (imap_offset_snd l 0)).
  assert (∀ l k : list Submission, (par_objs l k).*2 = k) as E2
    by (intros l k; apply imap_offset_snd).
  unfold process_term, process_term_result, erased. simpl.
  by rewrite !read_back_erased, E1, E2.
Qed.

(** X18: [process_term] does not look at the codes that the submissions
    carry when they come in: two pairs of lists that differ in these codes
    only give the same lists and the same rows.  So a term processed again
    on what it handed back, with the same [ineligible_ids], hands back the
    same once more. *)
Theorem process_term_ignores_incoming_codes
    (t : Z) (apps pars : list Submission) (ids : gset str) :
  (∀ apps' pars', erased apps' = erased apps → erased pars' = erased pars →
     process_term t apps' pars' ids = process_term t apps pars ids) ∧
  process_term t (process_term t apps pars ids).1.1 (process_term t apps pars ids).1.2 ids
    = process_term t apps pars ids.
Proof.
  assert (∀ apps' pars', erased apps' = erased apps → erased pars' = erased pars →
            process_term t apps' pars' ids = process_term t apps pars ids) as H.
  { intros apps' pars' Ha Hp. unfold process_term.
    rewrite <- (process_term_result_erased apps' pars' ids), Ha, Hp.
    apply process_term_result_erased. }
  split; [exact H|]. destruct (returned_erased t apps pars ids) as [Ha Hp].
  by apply H.
Qed.

(** ** Terms and time *)

Lemma total_seconds_split a b start :
  total_seconds a start = total_seconds a b + total_seconds b start.
Proof. unfold total_seconds. lia. Qed.

(** X19: a submission that is not earlier than another one is not in an
    earlier term; this for timestamps that are dates, and whatever the
    anchor. *)
Theorem term_index_is_monotone (a b start : datetime) :
  valid_datetime a → valid_datetime b → dt_lt a b = false →
  term_index b start ≤ term_index a start.
Proof.
  intros Ha Hb Hlt. unfold term_index.
  apply Z.div_le_mono; [lia|].
  rewrite (total_seconds_split a b start).
  pose proof (total_seconds_nonneg a b Ha Hb Hlt). lia.
Qed.

Lemma term_index_is_monotone_witness :
  (valid_datetime (mkDatetime 2024 4 8 0 0 0) ∧ valid_datetime (mkDatetime 2024 4 7 23 59 59) ∧
   dt_lt (mkDatetime 2024 4 8 0 0 0) (mkDatetime 2024 4 7 23 59 59) = false) ∧
  term_index (mkDatetime 2024 4 7 23 59 59) (mkDatetime 2024 4 1 0 0 0)
    ≤ term_index (mkDatetime 2024 4 8 0 0 0) (mkDatetime 2024 4 1 0 0 0).
Proof.
  assert (valid_datetime (mkDatetime 2024 4 8 0 0 0)) as H1 by (vm_compute; reflexivity).
  assert (valid_datetime (mkDatetime 2024 4 7 23 59 59)) as H2 by (vm_compute; reflexivity).
  assert (dt_lt (mkDatetime 2024 4 8 0 0 0) (mkDatetime 2024 4 7 23 59 59) = false) as H3
    by (vm_compute; reflexivity).
  split; [by split_and!|]. exact (term_index_is_monotone _ _ _ H1 H2 H3).
Defined.

Lemma days_before_april y : days_before_month y 4 = 90 + (if is_leap y then 1 else 0).
Proof. unfold days_before_month. simpl. destruct (is_leap y); simpl; lia. Qed.

(** X20: the anchor of a timestamp is the midnight that begins a first of
    April, it is not after the timestamp, and less than 366 days before
    it: so the earliest submission of a run is in one of the terms 0 to
    52. *)
Theorem anchor_is_the_last_first_of_april (ts start : datetime) :
  valid_datetime ts → term_start_from_timestamp ts = Some start →
  (month start = 4 ∧ day start = 1 ∧ second_of_day start = 0) ∧
  dt_lt ts start = false ∧
  0 ≤ total_seconds ts start < 366 * 86400 ∧
  0 ≤ term_index ts start ≤ 52.
Proof.
  intros Hts Hstart.
  destruct (term_start_not_after ts start Hstart) as [Hvs Hnot].
  pose proof (total_seconds_nonneg ts start Hts Hvs Hnot) as H0.
  pose proof (toordinal_bounds ts Hts) as Hord.
  pose proof (second_of_day_bounds ts Hts) as Hsod.
  pose proof (valid_datetime_fields ts Hts) as (Hy & Hm & Hd & _).
  assert ((month start = 4 ∧ day start = 1 ∧ second_of_day start = 0) ∧
          toordinal ts - toordinal start ≤ 365) as [Hfields Hdiff].
  { unfold term_start_from_timestamp in Hstart.
    destruct (new_datetime (year ts) 4 1 0 0 0) as [s0|] eqn:E0; [|done].
    simpl in Hstart. unfold new_datetime in E0. case_bool_decide; [|done].
    injection E0 as <-. destruct (dt_lt ts _) eqn:Elt.
    - unfold new_datetime in Hstart. case_bool_decide; [|done]. injection Hstart as <-.
      split; [done|]. unfold toordinal at 2. simpl. rewrite days_before_april.
      apply bool_decide_eq_true in Elt. unfold dt_compare, dt_fields in Elt. simpl in Elt.
      rewrite Z.compare_refl in Elt.
      assert (month ts < 4) as Hm4.
      { apply valid_datetime_fields in Hts as (_ & _ & _ & Hh & Hmi & Hs).
        destruct (Z.compare_spec (month ts) 4) as [E|E|E]; [|lia|done].
        destruct (Z.compare_spec (day ts) 1) as [E'|E'|E']; [|lia|done].
        destruct (Z.compare_spec (hour ts) 0) as [Eh|Eh|Eh]; [|lia|done].
        destruct (Z.compare_spec (minute ts) 0) as [Em|Em|Em]; [|lia|done].
        destruct (Z.compare_spec (second ts) 0) as [Es|Es|Es]; [done|lia|done]. }
      destruct (month_table (year ts) (month ts) Hm) as (_ & _ & _ & Hnext).
      specialize (Hnext 4 ltac:(lia)). rewrite days_before_april in Hnext.
      pose proof (days_before_year_step (year ts - 1)) as Hstep.
      replace (year ts - 1 + 1) with (year ts) in Hstep by lia.
      unfold toordinal. destruct (is_leap (year ts)), (is_leap (year ts - 1)); lia.
    - injection Hstart as <-. split; [done|]. unfold toordinal at 2. simpl.
      rewrite days_before_april. rewrite days_before_year_step in Hord.
      destruct (is_leap (year ts)); lia. }
  assert (total_seconds ts start < 366 * 86400) as Hlt.
  { rewrite total_seconds_eq. destruct Hfields as (_ & _ & ->). lia. }
  split; [done|]. split; [done|]. split; [lia|].
  unfold term_index. split; [apply Z.div_pos; lia|].
  apply Z.lt_succ_r. apply Z.div_lt_upper_bound; lia.
Qed.

Lemma anchor_witness :
  (valid_datetime Sample.earliest ∧
   term_start_from_timestamp Sample.earliest = Some (mkDatetime 2024 4 1 0 0 0)) ∧
  0 ≤ term_index Sample.earliest (mkDatetime 2024 4 1 0 0 0) ≤ 52.
Proof.
  assert (valid_datetime Sample.earliest) as H1 by (vm_compute; reflexivity).
  assert (term_start_from_timestamp Sample.earliest = Some (mkDatetime 2024 4 1 0 0 0))
    as H2 by (vm_compute; reflexivity).
  split; [by split|].
  exact (proj2 (proj2 (proj2 (anchor_is_the_last_first_of_april _ _ H1 H2)))).
Defined.

(** X21: when the person that an applicant names as partner hands in, in
    the same term, an application of their own that is later than each of
    their partner forms, passes the Validator and is of a person not in
    [ineligible_ids], then the partner forms are superseded, and the
    applicant who names that person gets [E3]. *)
Theorem partner_who_applies_later_is_no_partner
    (t : Z) (apps pars : list Submission) (ids : gset str)
    (i j : nat) (s s' x : Submission) (q : str) :
  apps !! i = Some s → (process_term t apps pars ids).1.1 !! i = Some s' →
  role s = App → validator_outcome pars true s = None → person_id s ∉ ids →
  has_partner s = Some WITH_PARTNER → partner_id s = Some q →
  apps !! j = Some x → role x = App → person_id x = q →
  validator_outcome pars true x = None → q ∉ ids →
  (∀ p, p ∈ apps ++ pars → role p = Par → person_id p = q →
        key_lt (sort_key p) (sort_key x) = true) →
  error s' = Some E3.
Proof.
  intros Hs Hs' Hr Hv Hid Hw Hq Hx Hxr Hxq Hxv Hqid Hlater.
  destruct (returned_app apps pars ids t i s Hs) as [Hret Ho].
  rewrite Hret in Hs'. injection Hs' as <-. simpl.
  pose proof (passed_applicant_candidate apps pars ids i s Hs Hv Hid) as Hc.
  assert (person_id x ∉ ids) as Hxid by congruence.
  pose proof (passed_applicant_candidate apps pars ids j x Hx Hxv Hxid) as Hxc.
  assert (wants_partner s = true) as Hw' by by apply bool_decide_eq_true.
  destruct (candidates_kept_or_dropped apps pars ids _ Hc) as [Hk|Hd];
    [|by apply (dropped_final apps pars ids (i, s))].
  assert ((i, s) ∈ app_candidates apps pars ids) as Hac by by apply elem_of_app_candidates.
  assert (lookup_partner (partner_by_id apps pars ids) s = None) as Hl.
  { destruct (lookup_partner (partner_by_id apps pars ids) s) as [p|] eqn:E; [|done].
    apply (lookup_partner_Some apps pars ids (i, s) p) in E as [Hp Hpid]. simpl in Hpid.
    assert (person_id p.2 = q) as Hpq by congruence.
    apply elem_of_par_candidates in Hp as [Hpk Hpr].
    pose proof (kept_greatest (candidates apps pars ids) p (j, x) Hpk Hxc) as Hg.
    simpl in Hg. specialize (Hg ltac:(congruence)).
    unfold obj_key_lt in Hg. simpl in Hg. rewrite Hlater in Hg; [done| |done|done].
    rewrite <- all_objs_snd. apply list_elem_of_fmap_2. by apply (kept_all apps pars ids). }
  apply sticky_unm_fin.
  pose proof (stage_in _ _ _ _ _ _ (unmatched_stage apps pars ids) (i, s) Hac) as E.
  simpl in E. rewrite E. unfold f_unmatched. simpl. by rewrite Hw', Hl.
Qed.

Lemma partner_who_applies_later_witness :
  (SampleCross.apps !! 0%nat = Some SampleCross.cho ∧
   (process_term 0 SampleCross.apps SampleCross.pars ∅).1.1 !! 0%nat
     = Some SampleCross.cho_returned ∧
   role SampleCross.cho = App ∧
   validator_outcome SampleCross.pars true SampleCross.cho = None ∧
   (person_id SampleCross.cho ∉@{gset str} ∅) ∧
   has_partner SampleCross.cho = Some WITH_PARTNER ∧
   partner_id SampleCross.cho = Some (lit "1500003") ∧
   SampleCross.apps !! 1%nat = Some SampleCross.rin ∧
   role SampleCross.rin = App ∧ person_id SampleCross.rin = lit "1500003" ∧
   validator_outcome SampleCross.pars true SampleCross.rin = None ∧
   (lit "1500003" ∉@{gset str} ∅) ∧
   Forall (λ p, role p = Par → person_id p = lit "1500003" →
                key_lt (sort_key p) (sort_key SampleCross.rin) = true)
          (SampleCross.apps ++ SampleCross.pars)) ∧
  error SampleCross.cho_returned = Some E3.
Proof.
  assert (SampleCross.apps !! 0%nat = Some SampleCross.cho) as H1 by by_evaluation.
  assert ((process_term 0 SampleCross.apps SampleCross.pars ∅).1.1 !! 0%nat
            = Some SampleCross.cho_returned) as H2 by by_evaluation.
  assert (role SampleCross.cho = App) as H3 by by_evaluation.
  assert (validator_outcome SampleCross.pars true SampleCross.cho = None) as H4
    by by_evaluation.
  assert (person_id SampleCross.cho ∉@{gset str} ∅) as H5 by by_evaluation.
  assert (has_partner SampleCross.cho = Some WITH_PARTNER) as H6 by by_evaluation.
  assert (partner_id SampleCross.cho = Some (lit "1500003")) as H7 by by_evaluation.
  assert (SampleCross.apps !! 1%nat = Some SampleCross.rin) as H8 by by_evaluation.
  assert (role SampleCross.rin = App) as H9 by by_evaluation.
  assert (person_id SampleCross.rin = lit "1500003") as H10 by by_evaluation.
  assert (validator_outcome SampleCross.pars true SampleCross.rin = None) as H11
    by by_evaluation.
  assert (lit "1500003" ∉@{gset str} ∅) as H12 by by_evaluation.
  assert (Forall (λ p, role p = Par → person_id p = lit "1500003" →
                       key_lt (sort_key p) (sort_key SampleCross.rin) = true)
                 (SampleCross.apps ++ SampleCross.pars)) as H13 by by_evaluation.
  split; [by split_and!|].
  exact (partner_who_applies_later_is_no_partner 0 SampleCross.apps SampleCross.pars ∅
           0 1 _ _ _ _ H1 H2 H3 H4 H5 H6 H7 H8 H9 H10 H11 H12
           (proj1 (Forall_forall _ _) H13)).
Defined.

(** ** The Validator, and a term without submissions *)

Lemma partner_choices_differ : WITH_PARTNER ≠ WITHOUT_PARTNER.
Proof. done. Qed.

(** X22: the checks of the Validator.  A submission passes exactly when
    its id and name are not empty, the id has the format, the consent
    and the photo cells hold the two expected texts, and, for an
    applicant, a floor was read, the partner choice is one of the two of
    the form, and either a partner is asked for, named by a non-empty id
    of the format and a non-empty name, or no partner is asked for, no
    partner id or name is given and the floor is not 2 or 3.  What does
    not pass gets [E1]. *)
Theorem validation_passes_exactly_the_checks (s : Submission) :
  (apply_input_validation s = None ↔
   person_id s ≠ [] ∧ person_name s ≠ [] ∧ is_valid_student_id (person_id s) = true ∧
   consent s = AGREE ∧ photo s = ACCEPT ∧
   (role s = App →
      ∃ f, floor s = Some f ∧
        ((has_partner s = Some WITH_PARTNER ∧
          ∃ p n, partner_id s = Some p ∧ partner_name s = Some n ∧ p ≠ [] ∧ n ≠ [] ∧
                 is_valid_student_id p = true) ∨
         (has_partner s = Some WITHOUT_PARTNER ∧ f ≠ 2 ∧ f ≠ 3 ∧
          (partner_id s = None ∨ partner_id s = Some []) ∧
          (partner_name s = None ∨ partner_name s = Some []))))) ∧
  (apply_input_validation s ≠ None → apply_input_validation s = Some E1).
Proof.
  split; [|by destruct (apply_input_validation_codes s) as [-> | ->]].
  pose proof partner_choices_differ as Hdiff.
  unfold apply_input_validation.
  destruct (is_valid_student_id (person_id s)) eqn:Hvalid; simpl.
  2:{ split; [by destruct (_ || _)|]. by intros (_ & _ & ? & _). }
  destruct (decide (person_id s = [])) as [Hpid|Hpid].
  { rewrite (bool_decide_eq_true_2 _ Hpid). simpl. split; [done|]. by intros (? & _). }
  destruct (decide (person_name s = [])) as [Hname|Hname].
  { rewrite (bool_decide_eq_true_2 _ Hname), orb_true_r. split; [done|].
    by intros (_ & ? & _). }
  rewrite (bool_decide_eq_false_2 _ Hpid), (bool_decide_eq_false_2 _ Hname). simpl.
  destruct (decide (consent s = AGREE)) as [Hc|Hc].
  2:{ rewrite (bool_decide_eq_true_2 _ Hc). split; [done|]. by intros (_ & _ & _ & ? & _). }
  rewrite bool_decide_eq_false_2 by (by intros ?).
  destruct (decide (photo s = ACCEPT)) as [Hp|Hp].
  2:{ rewrite (bool_decide_eq_true_2 _ Hp). split; [done|].
      by intros (_ & _ & _ & _ & ? & _). }
  rewrite bool_decide_eq_false_2 by (by intros ?).
  destruct (role s); [|split; [intros _; by split_and!|done]].
  destruct (floor s) as [f|]; simpl.
  2:{ split; [by case_bool_decide|]. intros (_ & _ & _ & _ & _ & H).
      by destruct (H eq_refl) as (f & ? & _). }
  destruct (decide (has_partner s = Some WITH_PARTNER)) as [Hw|Hw].
  - rewrite (bool_decide_eq_true_2 _ Hw).
    rewrite (bool_decide_eq_false_2 (has_partner s ≠ Some WITH_PARTNER ∧ _)) by tauto.
    rewrite (bool_decide_eq_false_2 (has_partner s ≠ Some WITH_PARTNER)) by tauto.
    rewrite andb_false_r.
    destruct (partner_id s) as [[|c p]|], (partner_name s) as [[|c' n]|]; simpl;
      try (split; [done|]; intros (_ & _ & _ & _ & _ & H);
           destruct (H eq_refl) as (? & _ & [(_ & ? & ? & ? & ? & ? & ? & _)|(? & _)]);
           congruence).
    destruct (is_valid_student_id (c :: p)) eqn:Hpv; simpl.
    + split; [intros _|done]. split_and!; [done..|]. intros _. exists f. split; [done|].
      left. split; [done|]. by exists (c :: p), (c' :: n).
    + split; [done|]. intros (_ & _ & _ & _ & _ & H).
      destruct (H eq_refl) as (? & _ & [(_ & ? & ? & ? & ? & ? & ? & ?)|(? & _)]);
        congruence.
  - rewrite (bool_decide_eq_false_2 _ Hw).
    rewrite (bool_decide_eq_true_2 (has_partner s ≠ Some WITH_PARTNER)) by done.
    rewrite andb_true_r.
    destruct (decide (has_partner s = Some WITHOUT_PARTNER)) as [Hwo|Hwo].
    2:{ rewrite bool_decide_eq_true_2 by done. split; [done|].
        intros (_ & _ & _ & _ & _ & H).
        by destruct (H eq_refl) as (? & _ & [(? & _)|(? & _)]). }
    rewrite bool_decide_eq_false_2 by tauto.
    destruct (decide (f = 2 ∨ f = 3)) as [Hf|Hf].
    { rewrite bool_decide_eq_true_2 by (destruct Hf; [left|right]; congruence).
      split; [done|]. intros (_ & _ & _ & _ & _ & H).
      destruct (H eq_refl) as (f' & [= <-] & [(? & _)|(_ & ? & ? & _)]); [done|lia]. }
    rewrite bool_decide_eq_false_2 by (intros [[= ?]|[= ?]]; lia).
    destruct (partner_id s) as [[|c p]|], (partner_name s) as [[|c' n]|]; simpl;
      try (split; [done|]; intros (_ & _ & _ & _ & _ & H);
           destruct (H eq_refl) as (? & _ & [(? & _)|(_ & _ & _ & [?|?] & [?|?])]);
           congruence).
    all: split; [intros _|done]; split_and!; [done..|]; intros _; exists f;
      (split; [done|]); right; split_and!; auto; lia.
Qed.




(** ** A pair without rivals *)

(** The only candidate of its person is kept. *)
Lemma only_candidate_kept (apps pars : list Submission) (ids : gset str) (o : obj) :
  o ∈ candidates apps pars ids →
  (∀ k x, (apps ++ pars) !! k = Some x → person_id x = person_id o.2 → k = o.1) →
  o ∈ kept apps pars ids.
Proof.
  intros Hc Honly.
  destruct (candidates_kept_or_dropped apps pars ids o Hc) as [Hk|Hd]; [done|].
  destruct (dropped_superseded apps pars ids o Hd) as (k & Hk & Hne & Hpid & _).
  pose proof (kept_all apps pars ids k Hk) as Hall.
  apply list_elem_of_lookup in Hall as [j Hj].
  pose proof (all_objs_lookup apps pars j k Hj) as Hj1.
  destruct Hne. rewrite Hj1. apply (Honly j k.2); [|done].
  by rewrite <- all_objs_snd, list_lookup_fmap, Hj.
Qed.

(** X24: a pair without rivals is accepted.  When an applicant and the
    partner form it names both pass the Validator, neither person is in
    [ineligible_ids], each is the only submission of its person in the
    term, and no other applicant of the term names that partner, then
    both come back with [S0] and the term has the row of the two with
    the floor of the applicant. *)
Theorem uncontested_pair_is_accepted
    (t : Z) (apps pars : list Submission) (ids : gset str)
    (i j : nat) (a p : Submission) :
  apps !! i = Some a → pars !! j = Some p → role a = App → role p = Par →
  validator_outcome pars true a = None → apply_input_validation p = None →
  person_id a ∉ ids → person_id p ∉ ids →
  has_partner a = Some WITH_PARTNER → partner_id a = Some (person_id p) →
  (∀ k x, (apps ++ pars) !! k = Some x → person_id x = person_id a → k = i) →
  (∀ k x, (apps ++ pars) !! k = Some x → person_id x = person_id p →
          k = (length apps + j)%nat) →
  (∀ k x, (apps ++ pars) !! k = Some x → role x = App →
          partner_id x = Some (person_id p) → k = i) →
  (∃ a', (process_term t apps pars ids).1.1 !! i = Some a' ∧ error a' = Some S0) ∧
  (∃ p', (process_term t apps pars ids).1.2 !! j = Some p' ∧ error p' = Some S0) ∧
  (person_id a, person_name a, person_id p, person_name p, floor_or_0 a)
    ∈ (process_term t apps pars ids).2.
Proof.
  intros Ha Hp Hra Hrp Hva Hvp Hida Hidp Hw Hq Honly_a Honly_p Hnorival.
  destruct (returned_app apps pars ids t i a Ha) as [Hreta Hoa].
  destruct (returned_par apps pars ids t j p Hp) as [Hretp Hop].
  set (oa := (i, a) : obj). set (op := ((length apps + j)%nat, p) : obj).
  assert (wants_partner a = true) as Hw' by by apply bool_decide_eq_true.
  (* both are kept *)
  pose proof (passed_applicant_candidate apps pars ids i a Ha Hva Hida) as Hca.
  assert (op ∈ candidates apps pars ids) as Hcp.
  { apply passed_candidate; [by apply par_objs_all| |done].
    rewrite (proj2 (partner_form_verdict apps pars ids op) Hop).
    unfold validator_outcome. simpl. by rewrite Hvp. }
  pose proof (only_candidate_kept apps pars ids oa Hca Honly_a) as Hka.
  pose proof (only_candidate_kept apps pars ids op Hcp Honly_p) as Hkp.
  assert (oa ∈ app_candidates apps pars ids) as Haca by by apply elem_of_app_candidates.
  assert (op ∈ par_candidates apps pars ids) as Hpcp by by apply elem_of_par_candidates.
  assert (lookup_partner (partner_by_id apps pars ids) oa.2 = Some op) as Hl
    by by apply lookup_partner_Some.
  (* the applicant is the only one to claim the partner *)
  assert (oa ∈ claimants apps pars ids) as Hclaim.
  { apply elem_of_claimants. split_and!; [done| |done].
    apply app_candidates_unm; [done|]. intros [_ Hnone]. congruence. }
  destruct (first_rival apps pars ids oa Hclaim) as (w & _ & Hw_riv & _ & Hw_surv).
  assert (w = oa) as ->.
  { apply elem_of_rivals in Hw_riv as [Hw_claim Hw_pid].
    apply elem_of_claimants in Hw_claim as (Hw_cand & _).
    apply elem_of_app_candidates in Hw_cand as [Hw_kept Hw_role].
    pose proof (kept_all apps pars ids w Hw_kept) as Hw_all.
    apply (all_objs_inj apps pars); [done|by apply app_objs_all|].
    apply list_elem_of_lookup in Hw_all as [k Hk].
    pose proof (all_objs_lookup apps pars k w Hk) as Hk1. rewrite Hk1. simpl.
    apply (Hnorival k w.2); [|done|].
    - by rewrite <- all_objs_snd, list_lookup_fmap, Hk.
    - simpl in Hw_pid. congruence. }
  split_and!.
  - eexists. split; [exact Hreta|]. simpl.
    by apply (survivor_accepted apps pars ids oa).
  - eexists. split; [exact Hretp|]. simpl.
    by apply (paired_partner_accepted apps pars ids oa op).
  - unfold process_term, process_term_result. simpl.
    pose proof (survivor_row apps pars ids oa Hw_surv) as Hrow.
    unfold row_of in Hrow. subst oa op. simpl in Hrow, Hl.
    by rewrite Hw', Hl in Hrow.
Qed.

Lemma by_positions {A} (l : list A) (Q : nat → A → Prop) :
  Forall (λ kx : nat * A, Q kx.1 kx.2) (imap (λ k x, (k, x)) l) →
  ∀ k x, l !! k = Some x → Q k x.
Proof.
  intros H k x Hk. rewrite Forall_forall in H. apply (H (k, x)).
  apply list_elem_of_lookup. exists k. by rewrite list_lookup_imap, Hk.
Qed.

Lemma uncontested_pair_witness :
  (SamplePair.apps !! 0%nat = Some SamplePair.aki ∧
   SamplePair.pars !! 0%nat = Some SamplePair.pat ∧
   role SamplePair.aki = App ∧ role SamplePair.pat = Par ∧
   validator_outcome SamplePair.pars true SamplePair.aki = None ∧
   apply_input_validation SamplePair.pat = None ∧
   (person_id SamplePair.aki ∉@{gset str} ∅) ∧ (person_id SamplePair.pat ∉@{gset str} ∅) ∧
   has_partner SamplePair.aki = Some WITH_PARTNER ∧
   partner_id SamplePair.aki = Some (person_id SamplePair.pat) ∧
   Forall (λ kx : nat * Submission,
             person_id kx.2 = person_id SamplePair.aki → kx.1 = 0%nat)
          (imap (λ k x, (k, x)) (SamplePair.apps ++ SamplePair.pars)) ∧
   Forall (λ kx : nat * Submission,
             person_id kx.2 = person_id SamplePair.pat →
             kx.1 = (length SamplePair.apps + 0)%nat)
          (imap (λ k x, (k, x)) (SamplePair.apps ++ SamplePair.pars)) ∧
   Forall (λ kx : nat * Submission,
             role kx.2 = App → partner_id kx.2 = Some (person_id SamplePair.pat) →
             kx.1 = 0%nat)
          (imap (λ k x, (k, x)) (SamplePair.apps ++ SamplePair.pars))) ∧
  (person_id SamplePair.aki, person_name SamplePair.aki, person_id SamplePair.pat,
   person_name SamplePair.pat, floor_or_0 SamplePair.aki)
    ∈ (process_term 0 SamplePair.apps SamplePair.pars ∅).2.
Proof.
  assert (SamplePair.apps !! 0%nat = Some SamplePair.aki) as H1 by by_evaluation.
  assert (SamplePair.pars !! 0%nat = Some SamplePair.pat) as H2 by by_evaluation.
  assert (role SamplePair.aki = App) as H3 by by_evaluation.
  assert (role SamplePair.pat = Par) as H4 by by_evaluation.
  assert (validator_outcome SamplePair.pars true SamplePair.aki = None) as H5
    by by_evaluation.
  assert (apply_input_validation SamplePair.pat = None) as H6 by by_evaluation.
  assert (person_id SamplePair.aki ∉@{gset str} ∅) as H7 by by_evaluation.
  assert (person_id SamplePair.pat ∉@{gset str} ∅) as H8 by by_evaluation.
  assert (has_partner SamplePair.aki = Some WITH_PARTNER) as H9 by by_evaluation.
  assert (partner_id SamplePair.aki = Some (person_id SamplePair.pat)) as H10
    by by_evaluation.
  assert (Forall (λ kx : nat * Submission,
                    person_id kx.2 = person_id SamplePair.aki → kx.1 = 0%nat)
                 (imap (λ k x, (k, x)) (SamplePair.apps ++ SamplePair.pars))) as H11
    by by_evaluation.
  assert (Forall (λ kx : nat * Submission,
                    person_id kx.2 = person_id SamplePair.pat →
                    kx.1 = (length SamplePair.apps + 0)%nat)
                 (imap (λ k x, (k, x)) (SamplePair.apps ++ SamplePair.pars))) as H12
    by by_evaluation.
  assert (Forall (λ kx : nat * Submission,
                    role kx.2 = App → partner_id kx.2 = Some (person_id SamplePair.pat) →
                    kx.1 = 0%nat)
                 (imap (λ k x, (k, x)) (SamplePair.apps ++ SamplePair.pars))) as H13
    by by_evaluation.
  split; [by split_and!|].
  exact (proj2 (proj2 (uncontested_pair_is_accepted 0 SamplePair.apps SamplePair.pars ∅
           0 0 _ _ H1 H2 H3 H4 H5 H6 H7 H8 H9 H10
           (by_positions _ (λ k x, person_id x = person_id SamplePair.aki → k = 0%nat) H11)
           (by_positions _ (λ k x, person_id x = person_id SamplePair.pat →
                                   k = (length SamplePair.apps + 0)%nat) H12)
           (by_positions _ (λ k x, role x = App →
                                   partner_id x = Some (person_id SamplePair.pat) →
                                   k = 0%nat) H13)))).
Defined.
